(** * Health checking of load-balanced backends

    A shallow embedding of [healthcheck/healthcheck.go]: the liveness probe
    ([checkHealth]), the reconciliation pass ([checkBackend]), the registry
    ([SetBackendsConfiguration], [execute]) and the monitor goroutine that
    [execute] starts for every backend.

    Go packages the source imports are mirrored by modules of the same name
    ([url], [time], [roundrobin], [http], [context]); the outside world a
    pass talks to (the network and the load balancer behind the
    [LoadBalancer] interface) is explicit state, and everything a pass does
    to it, log lines included, is recorded in a trace of events. *)

From Stdlib Require Import ZArith.
From stdpp Require Import gmap strings list fin_maps.

Local Open Scope string_scope.
Local Open Scope list_scope.

(** ** Imported packages *)

Module url.
(** A [*url.URL], identified with its [String()]. *)
Definition URL : Type := string.
End url.

Module time.
(** [time.Duration] is a count of nanoseconds. *)
Definition Duration : Type := Z.
Definition Nanosecond : Duration := 1%Z.
Definition Millisecond : Duration := 1000000%Z.
Definition Second : Duration := 1000000000%Z.
End time.

Module roundrobin.
(** [roundrobin.ServerOption]; the source only ever builds [Weight 1]. *)
Inductive ServerOption : Type :=
| Weight (w : Z).
End roundrobin.

(** A Go [error] value; [None] is [nil]. *)
Definition error : Type := option string.

Module http.
Record Response : Type := mkResponse { StatusCode : Z }.

(** The pair [(resp, err)] returned by [client.Get]: a response, or a
    transport error (DNS, connect, timeout, TLS). *)
Inductive Result : Type :=
| Ok (resp : Response)
| Err (msg : string).
End http.

(** The network as the probes see it: the answer to a request may depend on
    when it is made ([clock] counts the requests made so far), on the client's
    timeout and on the address. *)
Record Network : Type := mkNetwork {
  clock : nat;
  respond : nat -> time.Duration -> string -> http.Result
}.

Definition advance (n : nat) (net : Network) : Network :=
  {| clock := clock net + n; respond := respond net |}.

(** ** Events *)

Inductive Level : Type := DebugLevel | WarnLevel.

Inductive Event : Type :=
| EvLog (lvl : Level) (msg : string)
| EvGet (timeout : time.Duration) (addr : string)
| EvBodyClose (addr : string)
| EvServers
| EvUpsertServer (u : url.URL) (opts : list roundrobin.ServerOption) (err : error)
| EvRemoveServer (u : url.URL) (err : error).

(** Calls on the load balancer, without what they returned. *)
Inductive Call : Type :=
| CServers
| CUpsertServer (u : url.URL) (opts : list roundrobin.ServerOption)
| CRemoveServer (u : url.URL).

Definition callOf (e : Event) : option Call :=
  match e with
  | EvServers => Some CServers
  | EvUpsertServer u opts _ => Some (CUpsertServer u opts)
  | EvRemoveServer u _ => Some (CRemoveServer u)
  | _ => None
  end.

Definition requestOf (e : Event) : option (time.Duration * string) :=
  match e with
  | EvGet t addr => Some (t, addr)
  | _ => None
  end.

Definition logOf (e : Event) : option (Level * string) :=
  match e with
  | EvLog lvl msg => Some (lvl, msg)
  | _ => None
  end.

(** The projections of a trace: the load-balancer calls, the HTTP requests
    and the log lines, each in the order they happened. *)
Definition calls (t : list Event) : list Call := omap callOf t.
Definition requests (t : list Event) : list (time.Duration * string) := omap requestOf t.
Definition logs (t : list Event) : list (Level * string) := omap logOf t.

(** ** The data model of the package *)

(** [LoadBalancer] includes functionality for load-balancing management.
    A method may change the balancer and may fail. *)
Class LoadBalancer (L : Type) : Type := {
  RemoveServer : url.URL -> L -> error * L;
  UpsertServer : url.URL -> list roundrobin.ServerOption -> L -> error * L;
  Servers : L -> list url.URL
}.

(** [Options] are the public health check options.  [LB] is a reference to
    the balancer object. *)
Record Options : Type := mkOptions {
  URL : string;
  Interval : time.Duration;
  LB : positive
}.

(** [BackendHealthCheck]: the embedded [Options] and two private fields. *)
Record BackendHealthCheck : Type := mkBackendHealthCheck {
  bOptions : Options;
  disabledURLs : list url.URL;
  requestTimeout : time.Duration
}.

Definition NewBackendHealthCheck (options : Options) : BackendHealthCheck :=
  {| bOptions := options;
     disabledURLs := [];
     requestTimeout := (5 * time.Second)%Z |}.

Definition withDisabledURLs (us : list url.URL) (b : BackendHealthCheck) : BackendHealthCheck :=
  {| bOptions := bOptions b; disabledURLs := us; requestTimeout := requestTimeout b |}.

(** ** A reconciliation pass *)

Section Pass.
Context {L : Type} `{!LoadBalancer L}.

(** What a pass reads and writes: the backend object, the balancer object
    its [LB] field refers to, the network, and the trace. *)
Record State : Type := mkState {
  backend : BackendHealthCheck;
  balancer : L;
  network : Network;
  trace : list Event
}.

Definition M (A : Type) : Type := State -> A * State.

Definition ret {A} (a : A) : M A := fun s => (a, s).
Definition bind {A B} (m : M A) (k : A -> M B) : M B :=
  fun s => let (a, s') := m s in k a s'.

Notation "x <- m ;; k" := (bind m (fun x => k))
  (at level 100, m at next level, right associativity).
Notation "m ;;; k" := (bind m (fun _ => k))
  (at level 100, right associativity).

Definition gets {A} (f : State -> A) : M A := fun s => (f s, s).

Definition emit (e : Event) : M unit :=
  fun s => (tt, {| backend := backend s; balancer := balancer s;
                   network := network s; trace := trace s ++ [e] |}).

Definition Debugf (msg : string) : M unit := emit (EvLog DebugLevel msg).
Definition Warnf (msg : string) : M unit := emit (EvLog WarnLevel msg).

Definition setDisabledURLs (us : list url.URL) : M unit :=
  fun s => (tt, {| backend := withDisabledURLs us (backend s); balancer := balancer s;
                   network := network s; trace := trace s |}).

(** [client.Get(addr)] on a client with the given [Timeout]. *)
Definition clientGet (timeout : time.Duration) (addr : string) : M http.Result :=
  fun s =>
    let net := network s in
    (respond net (clock net) timeout addr,
     {| backend := backend s; balancer := balancer s;
        network := advance 1 net;
        trace := trace s ++ [EvGet timeout addr] |}).

Definition callServers : M (list url.URL) :=
  us <- gets (fun s => Servers (balancer s)) ;;
  emit EvServers ;;;
  ret us.

Definition callUpsertServer (u : url.URL) (opts : list roundrobin.ServerOption) : M error :=
  fun s =>
    let (err, lb) := UpsertServer u opts (balancer s) in
    (err, {| backend := backend s; balancer := lb; network := network s;
             trace := trace s ++ [EvUpsertServer u opts err] |}).

Definition callRemoveServer (u : url.URL) : M error :=
  fun s =>
    let (err, lb) := RemoveServer u (balancer s) in
    (err, {| backend := backend s; balancer := lb; network := network s;
             trace := trace s ++ [EvRemoveServer u err] |}).

(** [checkHealth]: one GET; the body is closed when there is a response. *)
Definition checkHealth (serverURL : url.URL) (b : BackendHealthCheck) : M bool :=
  r <- clientGet (requestTimeout b) (serverURL +:+ URL (bOptions b)) ;;
  match r with
  | http.Ok resp =>
      emit (EvBodyClose (serverURL +:+ URL (bOptions b))) ;;;
      ret (http.StatusCode resp =? 200)%Z
  | http.Err _ => ret false
  end.

(** The first loop of [checkBackend], over the disabled URLs. *)
Fixpoint rangeDisabled (us : list url.URL) (newDisabledURLs : list url.URL)
  : M (list url.URL) :=
  match us with
  | [] => ret newDisabledURLs
  | u :: rest =>
      b <- gets backend ;;
      up <- checkHealth u b ;;
      if up then
        Debugf ("HealthCheck is up [" +:+ u +:+ "]: Upsert in server list") ;;;
        _ <- callUpsertServer u [roundrobin.Weight 1] ;;
        rangeDisabled rest newDisabledURLs
      else
        Warnf ("HealthCheck is still failing [" +:+ u +:+ "]") ;;;
        rangeDisabled rest (newDisabledURLs ++ [u])
  end.

(** The second loop of [checkBackend], over the snapshot of the live list. *)
Fixpoint rangeEnabled (us : list url.URL) : M unit :=
  match us with
  | [] => ret tt
  | u :: rest =>
      b <- gets backend ;;
      up <- checkHealth u b ;;
      if negb up then
        Warnf ("HealthCheck has failed [" +:+ u +:+ "]: Remove from server list") ;;;
        _ <- callRemoveServer u ;;
        b' <- gets backend ;;
        setDisabledURLs (disabledURLs b' ++ [u]) ;;;
        rangeEnabled rest
      else
        rangeEnabled rest
  end.

(** Step 1 of a pass: re-probe the disabled URLs and store the survivors. *)
Definition sweepDisabled : M unit :=
  b <- gets backend ;;
  newDisabledURLs <- rangeDisabled (disabledURLs b) [] ;;
  setDisabledURLs newDisabledURLs.

Definition checkBackend : M unit :=
  enabledURLs <- callServers ;;
  sweepDisabled ;;;
  rangeEnabled enabledURLs.

End Pass.

Arguments State L : clear implicits.
Arguments M L A : clear implicits.

(** ** What a pass computes, in closed form *)

(** The verdict of the probe of [u] made as the [k]-th request from now:
    up exactly when the answer is a response whose status is 200. *)
Definition verdict (b : BackendHealthCheck) (net : Network) (k : nat) (u : url.URL) : bool :=
  match respond net (clock net + k) (requestTimeout b) (u +:+ URL (bOptions b)) with
  | http.Ok resp => (http.StatusCode resp =? 200)%Z
  | http.Err _ => false
  end.

(** Probing a list of URLs in order, one request each. *)
Definition verdicts (b : BackendHealthCheck) (net : Network) (us : list url.URL)
  : list (url.URL * bool) :=
  imap (fun k u => (u, verdict b net k u)) us.

Definition passed (vs : list (url.URL * bool)) : list url.URL :=
  (filter (fun p => p.2 = true) vs).*1.

Definition failed (vs : list (url.URL * bool)) : list url.URL :=
  (filter (fun p => p.2 = false) vs).*1.

(** The events of one probe. *)
Definition probeEvents (b : BackendHealthCheck) (net : Network) (u : url.URL) : list Event :=
  match respond net (clock net) (requestTimeout b) (u +:+ URL (bOptions b)) with
  | http.Ok _ => [EvGet (requestTimeout b) (u +:+ URL (bOptions b));
                  EvBodyClose (u +:+ URL (bOptions b))]
  | http.Err _ => [EvGet (requestTimeout b) (u +:+ URL (bOptions b))]
  end.

Definition applyCall {L} `{!LoadBalancer L} (l : L) (c : Call) : L :=
  match c with
  | CServers => l
  | CUpsertServer u opts => (UpsertServer u opts l).2
  | CRemoveServer u => (RemoveServer u l).2
  end.

Definition upsertCall (u : url.URL) : Call := CUpsertServer u [roundrobin.Weight 1].

Definition disabledLog (p : url.URL * bool) : Level * string :=
  if p.2 then (DebugLevel, "HealthCheck is up [" +:+ p.1 +:+ "]: Upsert in server list")
  else (WarnLevel, "HealthCheck is still failing [" +:+ p.1 +:+ "]").

Definition enabledLog (u : url.URL) : Level * string :=
  (WarnLevel, "HealthCheck has failed [" +:+ u +:+ "]: Remove from server list").

Definition request (b : BackendHealthCheck) (u : url.URL) : time.Duration * string :=
  (requestTimeout b, u +:+ URL (bOptions b)).

(** The events a computation adds to the trace. *)
Definition emitted {L A} (m : M L A) (s : State L) : list Event :=
  drop (length (trace s)) (trace (m s).2).

(** The states a pass goes through. *)
Definition afterSnapshot {L} `{!LoadBalancer L} (s : State L) : State L :=
  (callServers s).2.
Definition afterSweep {L} `{!LoadBalancer L} (s : State L) : State L :=
  (sweepDisabled (afterSnapshot s)).2.
Definition afterPass {L} `{!LoadBalancer L} (s : State L) : State L :=
  (checkBackend s).2.

(** The events of step 1 (the loop over the disabled URLs), of step 2 (the
    loop over the snapshot of the live list) and of the whole pass. *)
Definition sweepEvents {L} `{!LoadBalancer L} (s : State L) : list Event :=
  emitted sweepDisabled (afterSnapshot s).
Definition enabledEvents {L} `{!LoadBalancer L} (s : State L) : list Event :=
  emitted (rangeEnabled (Servers (balancer s))) (afterSweep s).
Definition passEvents {L} `{!LoadBalancer L} (s : State L) : list Event :=
  emitted checkBackend s.

(** The verdicts of step 1 and of step 2 of a pass started in [s]. *)
Definition sweepVerdicts {L} `{!LoadBalancer L} (s : State L) : list (url.URL * bool) :=
  verdicts (backend s) (network s) (disabledURLs (backend s)).
Definition enabledVerdicts {L} `{!LoadBalancer L} (s : State L) : list (url.URL * bool) :=
  verdicts (backend s)
    (advance (length (disabledURLs (backend s))) (network s))
    (Servers (balancer s)).

(** ** The registry and its monitors *)

Module context.
(** A [context.Context], as the cancel signals that end it, innermost first.
    [context.WithCancel parent] puts a fresh signal in front of [parent]; the
    [CancelFunc] it returns raises that signal. *)
Definition Context : Type := list nat.
Definition Background : Context := [].
End context.

(** [HealthCheck]: the monitored set (backend objects are held by pointer),
    the [CancelFunc] of the current generation ([None] is [nil]) and the
    counter of the wait group. *)
Record HealthCheck : Type := mkHealthCheck {
  Backends : gmap string positive;
  cancel : option nat;
  wg : Z
}.

Definition newHealthCheck : HealthCheck :=
  {| Backends := ∅; cancel := None; wg := 0 |}.

(** Where the goroutine started by [execute] stands. *)
Inductive Pc : Type :=
| Spawned                  (* started by [safe.Go], body not yet run *)
| Checked                  (* initial [checkBackend] done, ticker not yet made *)
| Looping (tick : bool)    (* at the [select]; [tick]: a tick waits in [ticker.C] *)
| Stopped                  (* returned on [ctx.Done()], ticker stopped *)
| Panicked.                (* ended by a panic *)

(** A goroutine of [execute] with the variables its closure captured. *)
Record Task : Type := mkTask {
  currentBackendID : string;
  currentBackend : positive;
  ctx : context.Context;
  pc : Pc
}.

Definition withPc (p : Pc) (t : Task) : Task :=
  {| currentBackendID := currentBackendID t; currentBackend := currentBackend t;
     ctx := ctx t; pc := p |}.

Inductive Origin : Type :=
| Registry
| Goroutine (tid : nat).

(** What the registry and the goroutines do, besides the events of a pass. *)
Inductive Op : Type :=
| OpSetBackends (backends : gmap string positive)
| OpCancel (c : nat)
| OpWithCancel (parent : context.Context) (c : nat)
| OpGo (tid : nat) (backendID : string)
| OpNewTicker (d : time.Duration)
| OpTickerStop
| OpPanic (msg : string)
| OpEvent (e : Event).

(** The goroutine [execute] starts for an entry of the monitored set, with
    [currentBackendID], [currentBackend] and [ctx] as its closure has them. *)
Definition spawn (c : context.Context) (kv : string * positive) : Task :=
  {| currentBackendID := kv.1; currentBackend := kv.2; ctx := c; pc := Spawned |}.

(** The [safe.Go] calls of [execute] for a list of entries, the first of them
    starting goroutine [n]. *)
Definition goOps (n : nat) (kvs : list (string * positive)) : list (Origin * Op) :=
  imap (fun i kv => (Registry, OpGo (n + i) kv.1)) kvs.

(** The events of a goroutine as they stand in the history. *)
Definition tag (tid : nat) (ev : list Event) : list (Origin * Op) :=
  (fun op => (Goroutine tid, op)) <$> (OpEvent <$> ev).

(** The log lines of the goroutine. *)
Definition initialLog (backendID : string) : Event :=
  EvLog DebugLevel ("Initial healthcheck for currentBackend " +:+ backendID +:+ " ").

Definition refreshLog (backendID : string) : Event :=
  EvLog DebugLevel ("Refreshing healthcheck for currentBackend " +:+ backendID +:+ " ").

Definition stopLog : Event :=
  EvLog DebugLevel "Stopping all current Healthcheck goroutines".

(** In a [select] with both cases ready Go picks either. *)
Inductive Select : Type := OnDone | OnTick.

Section Registry.
Context {L : Type} `{!LoadBalancer L}.

(** The process: the registry, the heap of backend objects, the balancer
    objects, the cancel signals raised so far and the next fresh one, the
    goroutines started so far, the network, and the history of what happened. *)
Record System : Type := mkSystem {
  hc : HealthCheck;
  heap : gmap positive BackendHealthCheck;
  balancers : gmap positive L;
  cancelled : gset nat;
  nextSignal : nat;
  tasks : list Task;
  net : Network;
  history : list (Origin * Op)
}.

Definition withHC (h : HealthCheck) (σ : System) : System :=
  {| hc := h; heap := heap σ; balancers := balancers σ; cancelled := cancelled σ;
     nextSignal := nextSignal σ; tasks := tasks σ; net := net σ; history := history σ |}.

Definition withTasks (ts : list Task) (σ : System) : System :=
  {| hc := hc σ; heap := heap σ; balancers := balancers σ; cancelled := cancelled σ;
     nextSignal := nextSignal σ; tasks := ts; net := net σ; history := history σ |}.

Definition record (who : Origin) (ops : list Op) (σ : System) : System :=
  {| hc := hc σ; heap := heap σ; balancers := balancers σ; cancelled := cancelled σ;
     nextSignal := nextSignal σ; tasks := tasks σ; net := net σ;
     history := history σ ++ ((fun op => (who, op)) <$> ops) |}.

(** Raising a cancel signal. *)
Definition raise (c : nat) (σ : System) : System :=
  {| hc := hc σ; heap := heap σ; balancers := balancers σ;
     cancelled := {[c]} ∪ cancelled σ;
     nextSignal := nextSignal σ; tasks := tasks σ; net := net σ; history := history σ |}.

(** [<-ctx.Done()] is ready. *)
Definition isDone (c : context.Context) (σ : System) : bool :=
  existsb (fun n => bool_decide (n ∈ cancelled σ)) c.

(** [hc.Backends = backends] *)
Definition assignBackends (backends : gmap string positive) (σ : System) : System :=
  record Registry [OpSetBackends backends]
    (withHC {| Backends := backends; cancel := cancel (hc σ); wg := wg (hc σ) |} σ).

(** [if hc.cancel != nil { hc.cancel() }] *)
Definition cancelPrevious (σ : System) : System :=
  match cancel (hc σ) with
  | Some c => record Registry [OpCancel c] (raise c σ)
  | None => σ
  end.

(** [ctx, cancel := context.WithCancel(parentCtx); hc.cancel = cancel] *)
Definition withCancel (parentCtx : context.Context) (σ : System) : context.Context * System :=
  let c := nextSignal σ in
  (c :: parentCtx,
   record Registry [OpWithCancel parentCtx c]
     {| hc := {| Backends := Backends (hc σ); cancel := Some c; wg := wg (hc σ) |};
        heap := heap σ; balancers := balancers σ; cancelled := cancelled σ;
        nextSignal := S c; tasks := tasks σ; net := net σ; history := history σ |}).

(** [safe.Go(func() {...})]: a new goroutine, its body yet to run. *)
Definition safeGo (t : Task) (σ : System) : System :=
  record Registry [OpGo (length (tasks σ)) (currentBackendID t)]
    (withTasks (tasks σ ++ [t]) σ).

(** [execute]: one goroutine per entry of [hc.Backends].  Go ranges over a
    map in an unspecified order; nothing below depends on the order. *)
Definition execute (c : context.Context) (σ : System) : System :=
  foldl (fun σ' kv => safeGo (spawn c kv) σ') σ (map_to_list (Backends (hc σ))).

Definition SetBackendsConfiguration (parentCtx : context.Context)
    (backends : gmap string positive) (σ : System) : System :=
  let σ1 := assignBackends backends σ in
  let σ2 := cancelPrevious σ1 in
  let (c, σ3) := withCancel parentCtx σ2 in
  execute c σ3.

(** *** The goroutine *)

Definition setPc (tid : nat) (p : Pc) (σ : System) : System :=
  match tasks σ !! tid with
  | Some t => withTasks (<[tid := withPc p t]> (tasks σ)) σ
  | None => σ
  end.

Definition wgAdd (n : Z) (σ : System) : System :=
  withHC {| Backends := Backends (hc σ); cancel := cancel (hc σ);
            wg := (wg (hc σ) + n)%Z |} σ.

(** [checkBackend(currentBackend)] through the pointer the goroutine holds.
    [None]: the pointer or the balancer reference is nil. *)
Definition runPass (tid : nat) (p : positive) (σ : System) : option System :=
  match heap σ !! p with
  | Some b =>
      match balancers σ !! LB (bOptions b) with
      | Some l =>
          let s := {| backend := b; balancer := l; network := net σ; trace := [] |} in
          let s' := afterPass s in
          Some (record (Goroutine tid) (OpEvent <$> trace s')
                  {| hc := hc σ;
                     heap := <[p := backend s']> (heap σ);
                     balancers := <[LB (bOptions b) := balancer s']> (balancers σ);
                     cancelled := cancelled σ; nextSignal := nextSignal σ;
                     tasks := tasks σ; net := network s'; history := history σ |})
      | None => None
      end
  | None => None
  end.

(** A panic ends the goroutine; the deferred [hc.wg.Done()] still runs. *)
Definition panic (tid : nat) (msg : string) (σ : System) : System :=
  setPc tid Panicked (wgAdd (-1) (record (Goroutine tid) [OpPanic msg] σ)).

(** One step of goroutine [tid]; [None] when it cannot move (it has ended,
    or it waits at the [select] and the chosen case is not ready). *)
Definition stepTask (tid : nat) (choice : Select) (σ : System) : option System :=
  match tasks σ !! tid with
  | None => None
  | Some t =>
      match pc t with
      | Spawned =>
          (* hc.wg.Add(1); defer hc.wg.Done(); log.Debugf(...); checkBackend(currentBackend) *)
          let σ1 :=
            record (Goroutine tid)
              [OpEvent (initialLog (currentBackendID t))]
              (wgAdd 1 σ) in
          match runPass tid (currentBackend t) σ1 with
          | Some σ2 => Some (setPc tid Checked σ2)
          | None => Some (panic tid "nil pointer dereference" σ1)
          end
      | Checked =>
          (* ticker := time.NewTicker(currentBackend.Interval); defer ticker.Stop() *)
          match heap σ !! currentBackend t with
          | Some b =>
              if (0 <? Interval (bOptions b))%Z then
                Some (setPc tid (Looping false)
                        (record (Goroutine tid) [OpNewTicker (Interval (bOptions b))] σ))
              else
                Some (panic tid "non-positive interval for NewTicker" σ)
          | None => Some (panic tid "nil pointer dereference" σ)
          end
      | Looping tick =>
          match choice with
          | OnDone =>
              (* case <-ctx.Done(): log.Debugf(...); return *)
              if isDone (ctx t) σ then
                Some (setPc tid Stopped
                        (wgAdd (-1)
                           (record (Goroutine tid)
                              [OpEvent stopLog; OpTickerStop] σ)))
              else None
          | OnTick =>
              (* case <-ticker.C: log.Debugf(...); checkBackend(currentBackend) *)
              if tick then
                let σ1 :=
                  record (Goroutine tid)
                    [OpEvent (refreshLog (currentBackendID t))]
                    σ in
                match runPass tid (currentBackend t) σ1 with
                | Some σ2 => Some (setPc tid (Looping false) σ2)
                | None =>
                    Some (panic tid "nil pointer dereference"
                            (record (Goroutine tid) [OpTickerStop] σ1))
                end
              else None
          end
      | Stopped => None
      | Panicked => None
      end
  end.

(** The ticker of goroutine [tid] fires: a tick is put in [ticker.C], which
    holds one tick at most; a goroutine without a running ticker gets none. *)
Definition fireTicker (tid : nat) (σ : System) : System :=
  match tasks σ !! tid with
  | Some t =>
      match pc t with
      | Looping _ => setPc tid (Looping true) σ
      | _ => σ
      end
  | None => σ
  end.

(** What can happen to the process. *)
Inductive Action : Type :=
| ARun (tid : nat) (choice : Select)          (* the scheduler runs a goroutine *)
| AFire (tid : nat)                           (* a ticker fires *)
| ARaise (c : nat)                            (* somebody cancels a context *)
| AConfigure (parentCtx : context.Context) (backends : gmap string positive).

Definition act (a : Action) (σ : System) : option System :=
  match a with
  | ARun tid choice => stepTask tid choice σ
  | AFire tid => Some (fireTicker tid σ)
  | ARaise c => Some (raise c σ)
  | AConfigure parentCtx backends => Some (SetBackendsConfiguration parentCtx backends σ)
  end.

Fixpoint run (acts : list Action) (σ : System) : option System :=
  match acts with
  | [] => Some σ
  | a :: rest =>
      match act a σ with
      | Some σ' => run rest σ'
      | None => None
      end
  end.

(** The events goroutine [tid] has in a history. *)
Definition eventsOf (tid : nat) (h : list (Origin * Op)) : list Event :=
  omap (fun x => match x with
                 | (Goroutine i, OpEvent e) => if decide (i = tid) then Some e else None
                 | _ => None
                 end) h.

(** The goroutines [SetBackendsConfiguration] starts. *)
Definition started (parentCtx : context.Context) (backends : gmap string positive)
    (σ : System) : list Task :=
  drop (length (tasks σ)) (tasks (SetBackendsConfiguration parentCtx backends σ)).

(** What [SetBackendsConfiguration] adds to the history. *)
Definition configured (parentCtx : context.Context) (backends : gmap string positive)
    (σ : System) : list (Origin * Op) :=
  drop (length (history σ)) (history (SetBackendsConfiguration parentCtx backends σ)).

End Registry.

Arguments System L : clear implicits.

(** ** Load balancers *)

(** A balancer whose mutating calls take effect: after [UpsertServer u] the
    URL [u] is in the live list, after [RemoveServer u] it is not, nothing
    else enters or leaves, and no duplicates appear.  Either call may still
    return an error. *)
Class Lawful (L : Type) `{!LoadBalancer L} : Prop := {
  elem_of_UpsertServer u opts (l : L) x :
    x ∈ Servers (UpsertServer u opts l).2 <-> x = u \/ x ∈ Servers l;
  elem_of_RemoveServer u (l : L) x :
    x ∈ Servers (RemoveServer u l).2 <-> x <> u /\ x ∈ Servers l;
  NoDup_UpsertServer u opts (l : L) :
    NoDup (Servers l) -> NoDup (Servers (UpsertServer u opts l).2);
  NoDup_RemoveServer u (l : L) :
    NoDup (Servers l) -> NoDup (Servers (RemoveServer u l).2)
}.

(** A list of servers with their weights, in the manner of a round-robin
    balancer: upserting a known server sets its weight, upserting a new one
    appends it; removing an unknown server is an error. *)
Record ListBalancer : Type := mkListBalancer {
  entries : list (url.URL * Z)
}.

Definition weightOf (opts : list roundrobin.ServerOption) (w0 : Z) : Z :=
  foldl (fun _ o => match o with roundrobin.Weight w => w end) w0 opts.

Definition listUpsert (u : url.URL) (opts : list roundrobin.ServerOption)
    (l : ListBalancer) : error * ListBalancer :=
  if bool_decide (u ∈ (entries l).*1) then
    (None, {| entries := (fun e => if bool_decide (e.1 = u)
                                   then (e.1, weightOf opts e.2) else e) <$> entries l |})
  else
    (None, {| entries := entries l ++ [(u, weightOf opts 1)] |}).

Definition listRemove (u : url.URL) (l : ListBalancer) : error * ListBalancer :=
  if bool_decide (u ∈ (entries l).*1) then
    (None, {| entries := filter (fun e => e.1 <> u) (entries l) |})
  else
    (Some "server not found", l).

#[export] Instance ListBalancer_LoadBalancer : LoadBalancer ListBalancer := {|
  RemoveServer := listRemove;
  UpsertServer := listUpsert;
  Servers l := (entries l).*1
|}.

(** A balancer that can be out of order: when [upsertFails] (or
    [removeFails]) is set, the call returns an error and changes nothing. *)
Record FaultyBalancer : Type := mkFaultyBalancer {
  live : list url.URL;
  upsertFails : bool;
  removeFails : bool
}.

Definition faultyUpsert (u : url.URL) (opts : list roundrobin.ServerOption)
    (l : FaultyBalancer) : error * FaultyBalancer :=
  if upsertFails l then (Some "balancer unavailable", l)
  else if bool_decide (u ∈ live l) then (None, l)
  else (None, {| live := live l ++ [u];
                 upsertFails := upsertFails l; removeFails := removeFails l |}).

Definition faultyRemove (u : url.URL) (l : FaultyBalancer) : error * FaultyBalancer :=
  if removeFails l then (Some "balancer unavailable", l)
  else (None, {| live := filter (fun x => x <> u) (live l);
                 upsertFails := upsertFails l; removeFails := removeFails l |}).

#[export] Instance FaultyBalancer_LoadBalancer : LoadBalancer FaultyBalancer := {|
  RemoveServer := faultyRemove;
  UpsertServer := faultyUpsert;
  Servers := live
|}.

(** ** Statements about a pass *)

(** The URLs a backend knows: disabled, or in the live list. *)
Definition known {L} `{!LoadBalancer L} (u : url.URL) (s : State L) : Prop :=
  u ∈ disabledURLs (backend s) \/ u ∈ Servers (balancer s).

(** Enabled or disabled, not both and not neither. *)
Definition exactlyOne {L} `{!LoadBalancer L} (u : url.URL) (s : State L) : Prop :=
  (u ∈ disabledURLs (backend s) /\ (u ∉ Servers (balancer s)))
  \/ ((u ∉ disabledURLs (backend s)) /\ u ∈ Servers (balancer s)).

(** The disabled URLs have no duplicates and none of them is in the live
    list, which has no duplicates either. *)
Definition separated {L} `{!LoadBalancer L} (s : State L) : Prop :=
  NoDup (disabledURLs (backend s))
  /\ NoDup (Servers (balancer s))
  /\ (forall u, u ∈ disabledURLs (backend s) -> u ∉ Servers (balancer s)).

(** An error returned by the balancer shows up as a warning later on. *)
Definition surfaced (ev : list Event) : Prop :=
  forall i e msg,
    (exists u opts, e = EvUpsertServer u opts (Some msg)) \/ (exists u, e = EvRemoveServer u (Some msg)) ->
    ev !! i = Some e ->
    exists j txt, (i < j)%nat /\ (ev !! j = Some (EvLog WarnLevel txt)).

(** [n] passes in a row. *)
Fixpoint passes {L} `{!LoadBalancer L} (n : nat) (s : State L) : State L :=
  match n with
  | O => s
  | S n' => passes n' (afterPass s)
  end.

(** ** Example data *)

Definition server1 : url.URL := "http://10.0.0.1:80".
Definition server2 : url.URL := "http://10.0.0.2:80".

Definition apiOptions : Options :=
  {| URL := "/health"; Interval := time.Second; LB := 1%positive |}.

(** Every request times out. *)
Definition netDown : Network :=
  {| clock := 0; respond := fun _ _ _ => http.Err "timeout" |}.

(** Every request is answered with 200. *)
Definition netUp : Network :=
  {| clock := 0; respond := fun _ _ _ => http.Ok {| http.StatusCode := 200 |} |}.

(** The first [n] requests time out, the later ones are answered with 200. *)
Definition netUpAfter (n : nat) : Network :=
  {| clock := 0;
     respond := fun k _ _ => if (k <? n)%nat then http.Err "timeout"
                             else http.Ok {| http.StatusCode := 200 |} |}.

(** [server1] answers 200 and [server2] times out. *)
Definition netOneDown : Network :=
  {| clock := 0;
     respond := fun _ _ addr => if String.eqb addr (server2 +:+ "/health")
                                then http.Err "timeout"
                                else http.Ok {| http.StatusCode := 200 |} |}.

(** A fresh backend in front of a balancer, before its first pass. *)
Definition fresh {L} (o : Options) (l : L) (n : Network) : State L :=
  {| backend := NewBackendHealthCheck o; balancer := l; network := n; trace := [] |}.

Definition twoServers : ListBalancer :=
  {| entries := [(server1, 1%Z); (server2, 1%Z)] |}.

(** A balancer with one server whose [RemoveServer] is out of order. *)
Definition stuck : FaultyBalancer :=
  {| live := [server2]; upsertFails := false; removeFails := true |}.

(** A balancer with one server whose [UpsertServer] is out of order. *)
Definition closed : FaultyBalancer :=
  {| live := [server2]; upsertFails := true; removeFails := false |}.

(** A process that has just started: an idle registry, no goroutine. *)
Definition boot {L} (objs : gmap positive BackendHealthCheck) (lbs : gmap positive L)
    (n : Network) : System L :=
  {| hc := newHealthCheck; heap := objs; balancers := lbs; cancelled := ∅;
     nextSignal := 0; tasks := []; net := n; history := [] |}.

(** Options with an interval that [time.NewTicker] does not accept. *)
Definition zeroInterval : Options :=
  {| URL := "/health"; Interval := 0%Z; LB := 1%positive |}.

Definition misconfigured : System ListBalancer :=
  boot {[1%positive := NewBackendHealthCheck zeroInterval]}
       {[1%positive := twoServers]} netUp.

(** The scenario of the specification: [server1] answers 200, [server2]
    times out. *)
Definition scenario : System ListBalancer :=
  boot {[1%positive := NewBackendHealthCheck apiOptions]}
       {[1%positive := twoServers]} netOneDown.

(** An action other than a reconfiguration. *)
Definition notConfigure (a : Action) : Prop :=
  match a with
  | AConfigure _ _ => False
  | _ => True
  end.

(** A backend that has disabled [server2], in front of a balancer that
    still has [server1]. *)
Definition oneDisabled (n : Network) : State ListBalancer :=
  {| backend := withDisabledURLs [server2] (NewBackendHealthCheck apiOptions);
     balancer := {| entries := [(server1, 1%Z)] |};
     network := n;
     trace := [] |}.

(** The goroutine of backend ["api"] at a given point of its life, in the
    scenario, with its cancel signal raised or not. *)
Definition monitorAt (p : Pc) (stop : bool) : System ListBalancer :=
  {| hc := {| Backends := {["api" := 1%positive]}; cancel := Some 0; wg := 0 |};
     heap := {[1%positive := NewBackendHealthCheck apiOptions]};
     balancers := {[1%positive := twoServers]};
     cancelled := if stop then {[0]} else ∅;
     nextSignal := 1;
     tasks := [{| currentBackendID := "api"; currentBackend := 1%positive;
                  ctx := [0]; pc := p |}];
     net := netOneDown;
     history := [] |}.

(** ** The life of a monitor *)

(** What goroutine [tid] did, in order. *)
Definition opsOf (tid : nat) (h : list (Origin * Op)) : list Op :=
  omap (fun x => match x.1 with
                 | Goroutine i => if decide (i = tid) then Some x.2 else None
                 | Registry => None
                 end) h.

Section Lifecycle.
Context {L : Type} `{!LoadBalancer L}.

(** The monitor of a backend as a state machine: it starts with a pass, makes
    its ticker (the interval has to be positive), then does one pass per tick
    it takes from the ticker, until it sees the cancellation and stops, which
    releases the ticker.  The last three steps are the ways it can die: a nil
    backend or balancer, or an interval the ticker does not accept. *)
Inductive Step (id : string) : Pc -> list Op -> Pc -> Prop :=
| StepInitial (s : State L) :
    Step id Spawned (OpEvent <$> initialLog id :: passEvents s) Checked
| StepTicker (d : time.Duration) :
    (0 < d)%Z -> Step id Checked [OpNewTicker d] (Looping false)
| StepFire (tick : bool) :
    Step id (Looping tick) [] (Looping true)
| StepTick (s : State L) :
    Step id (Looping true) (OpEvent <$> refreshLog id :: passEvents s) (Looping false)
| StepStop (tick : bool) :
    Step id (Looping tick) [OpEvent stopLog; OpTickerStop] Stopped
| StepNilInitial (msg : string) :
    Step id Spawned [OpEvent (initialLog id); OpPanic msg] Panicked
| StepNoTicker (d : time.Duration) (msg : string) :
    (d <= 0)%Z -> Step id Checked [OpPanic msg] Panicked
| StepNilTicker (msg : string) :
    Step id Checked [OpPanic msg] Panicked
| StepNilTick (msg : string) :
    Step id (Looping true) [OpEvent (refreshLog id); OpTickerStop; OpPanic msg] Panicked.

(** Where a monitor stands after the steps it made, and what it did. *)
Inductive Life (id : string) : Pc -> list Op -> Prop :=
| LifeStart : Life id Spawned []
| LifeStep (p : Pc) (ops new : list Op) (p' : Pc) :
    Life id p ops -> Step id p new p' -> Life id p' (ops ++ new).

(** Every goroutine there is has lived the life of a monitor, and nothing
    is on record for a goroutine there is not. *)
Definition lifecycles (σ : System L) : Prop :=
  forall tid,
    match tasks σ !! tid with
    | Some t => Life (currentBackendID t) (pc t) (opsOf tid (history σ))
    | None => opsOf tid (history σ) = []
    end.

End Lifecycle.

(** ** More of the package *)

(** The package variables [singleton] and [once], and the registry objects
    there are.  [singleton] is a pointer, [None] while it is nil; [once] is
    whether [once.Do] has run its function. *)
Record Package : Type := mkPackage {
  singleton : option positive;
  once : bool;
  registries : gmap positive HealthCheck
}.

(** The package when the program starts. *)
Definition packageInit : Package :=
  {| singleton := None; once := false; registries := ∅ |}.

(** [GetHealthCheck]: [once.Do] runs [singleton = newHealthCheck()] if it
    never did, and the pointer is returned. *)
Definition GetHealthCheck (g : Package) : option positive * Package :=
  if once g then (singleton g, g)
  else
    let p := base.fresh (dom (registries g)) in
    (Some p, {| singleton := Some p; once := true;
                registries := <[p := newHealthCheck]> (registries g) |}).

(** Other code working on the registry objects between two calls. *)
Definition touch (f : gmap positive HealthCheck -> gmap positive HealthCheck)
    (g : Package) : Package :=
  {| singleton := singleton g; once := once g; registries := f (registries g) |}.

(** The pointers a series of calls returns, with other code at work after
    each call. *)
Fixpoint getAll (fs : list (gmap positive HealthCheck -> gmap positive HealthCheck))
    (g : Package) : list (option positive) * Package :=
  match fs with
  | [] => ([], g)
  | f :: rest =>
      let (p, g1) := GetHealthCheck g in
      let (ps, g2) := getAll rest (touch f g1) in
      (p :: ps, g2)
  end.

(** ** More statements *)

(** The network answers the same for a URL at every probe of the pass. *)
Definition steady {L} `{!LoadBalancer L} (s : State L) : Prop :=
  forall k u,
    k < length (disabledURLs (backend s)) + length (Servers (balancer s)) ->
    verdict (backend s) (network s) k u = verdict (backend s) (network s) 0 u.

(** Every probe of the pass has the verdict [v]. *)
Definition allProbes {L} `{!LoadBalancer L} (v : bool) (s : State L) : Prop :=
  forall k u,
    k < length (disabledURLs (backend s)) + length (Servers (balancer s)) ->
    verdict (backend s) (network s) k u = v.

(** A goroutine between its [wg.Add(1)] and its deferred [wg.Done()]. *)
Definition running (p : Pc) : Z :=
  match p with
  | Checked | Looping _ => 1
  | _ => 0
  end.

Fixpoint runningCount (ts : list Task) : Z :=
  match ts with
  | [] => 0
  | t :: rest => (running (pc t) + runningCount rest)%Z
  end.

(** A goroutine that has returned or died. *)
Definition ended (p : Pc) : Prop := p = Stopped \/ p = Panicked.

(** A goroutine of the generation [hc.cancel] belongs to. *)
Definition currentGeneration {L} (σ : System L) (t : Task) : Prop :=
  exists c parent, ctx t = c :: parent /\ cancel (hc σ) = Some c.

(** The fields of a backend object that are its configuration. *)
Definition sameConfig (b b' : BackendHealthCheck) : Prop :=
  bOptions b' = bOptions b /\ requestTimeout b' = requestTimeout b.

(** In a list of calls, every upsert is of weight 1 and comes after a removal
    of the same URL. *)
Definition upsertsFollowRemovals (cs : list Call) : Prop :=
  forall i u opts,
    cs !! i = Some (CUpsertServer u opts) ->
    opts = [roundrobin.Weight 1]
    /\ exists j, j < i /\ cs !! j = Some (CRemoveServer u).

(** What a step leaves of the process besides the goroutine itself: the
    registry but for the wait group, the signals, and either the backends,
    balancers and network as they were or as one pass of the goroutine's
    backend leaves them. *)
Definition passOf {L} `{!LoadBalancer L} (σ : System L) (t : Task) (σ' : System L) : Prop :=
  exists b l,
    heap σ !! currentBackend t = Some b
    /\ balancers σ !! LB (bOptions b) = Some l
    /\ heap σ' = <[currentBackend t :=
                    backend (afterPass {| backend := b; balancer := l;
                                          network := net σ; trace := [] |})]> (heap σ)
    /\ balancers σ' = <[LB (bOptions b) :=
                    balancer (afterPass {| backend := b; balancer := l;
                                           network := net σ; trace := [] |})]> (balancers σ)
    /\ net σ' = network (afterPass {| backend := b; balancer := l;
                                      network := net σ; trace := [] |}).

Definition untouched {L} (σ σ' : System L) : Prop :=
  heap σ' = heap σ /\ balancers σ' = balancers σ /\ net σ' = net σ.

(** Every goroutine is of the current generation or has its signal raised. *)
Definition generations {L} (σ : System L) : Prop :=
  forall tid t,
    tasks σ !! tid = Some t ->
    exists c parent,
      ctx t = c :: parent /\ (cancel (hc σ) = Some c \/ c ∈ cancelled σ).

(** The network answers the same for a URL whenever it is asked. *)
Definition constant {L} `{!LoadBalancer L} (s : State L) : Prop :=
  forall k u,
    verdict (backend s) (network s) k u = verdict (backend s) (network s) 0 u.

(** Every disabled URL is down and every URL of the live list is up, now and
    from now on. *)
Definition settled {L} `{!LoadBalancer L} (s : State L) : Prop :=
  (forall u k, u ∈ disabledURLs (backend s) ->
     verdict (backend s) (network s) k u = false)
  /\ (forall u k, u ∈ Servers (balancer s) ->
     verdict (backend s) (network s) k u = true).

(** The passes a goroutine has begun, counted by its calls of [Servers]. *)
Fixpoint passesBegun (ops : list Op) : nat :=
  match ops with
  | [] => 0
  | OpEvent EvServers :: rest => S (passesBegun rest)
  | _ :: rest => passesBegun rest
  end.

(** How often the ticker of goroutine [tid] fires in a run. *)
Fixpoint fires (tid : nat) (acts : list Action) : nat :=
  match acts with
  | [] => 0
  | AFire i :: rest => (if decide (i = tid) then 1 else 0) + fires tid rest
  | _ :: rest => fires tid rest
  end.

(** The passes a goroutine can make before its ticker fires again: the
    initial one if it has not made it (or has not been started yet), one if a
    tick waits for it. *)
Definition owed (p : option Pc) : nat :=
  match p with
  | None | Some Spawned | Some (Looping true) => 1
  | _ => 0
  end.

(** The response bodies closed in a trace, by the address of their request. *)
Definition closeOf (e : Event) : option string :=
  match e with
  | EvBodyClose addr => Some addr
  | _ => None
  end.

Definition closes (t : list Event) : list string := omap closeOf t.

(** Whether the [k]-th request from now, made for [u], gets a response
    (of whatever status). *)
Definition answered (b : BackendHealthCheck) (net : Network) (k : nat) (u : url.URL) : bool :=
  match respond net (clock net + k) (requestTimeout b) (u +:+ URL (bOptions b)) with
  | http.Ok _ => true
  | http.Err _ => false
  end.

Definition answers (b : BackendHealthCheck) (net : Network) (us : list url.URL)
  : list (url.URL * bool) :=
  imap (fun k u => (u, answered b net k u)) us.

(** The goroutines the reconfigurations of a run start. *)
Fixpoint spawnedBy (acts : list Action) : nat :=
  match acts with
  | [] => 0
  | AConfigure _ backends :: rest => size backends + spawnedBy rest
  | _ :: rest => spawnedBy rest
  end.
(** ** Basic facts *)

Lemma advance_0 net : advance 0 net = net.
Proof. destruct net as [c r]. unfold advance; simpl. by rewrite Nat.add_0_r. Qed.

Lemma advance_advance n m net : advance n (advance m net) = advance (m + n) net.
Proof. unfold advance; simpl. f_equal. lia. Qed.

Lemma verdict_advance b net n k u :
  verdict b (advance n net) k u = verdict b net (n + k) u.
Proof. unfold verdict, advance; simpl. by rewrite Nat.add_assoc. Qed.

Lemma verdicts_nil b net : verdicts b net [] = [].
Proof. done. Qed.

Lemma verdicts_cons b net u us :
  verdicts b net (u :: us) = (u, verdict b net 0 u) :: verdicts b (advance 1 net) us.
Proof.
  unfold verdicts. rewrite imap_cons. f_equal.
  apply imap_ext. intros k v _. simpl. by rewrite verdict_advance.
Qed.

Lemma verdicts_fst b net us : (verdicts b net us).*1 = us.
Proof.
  revert net. induction us as [|u us IH]; intros net; [done|].
  rewrite verdicts_cons. simpl. by rewrite IH.
Qed.

Lemma verdicts_length b net us : length (verdicts b net us) = length us.
Proof. unfold verdicts. by rewrite length_imap. Qed.

Lemma verdicts_lookup b net us k u :
  us !! k = Some u -> verdicts b net us !! k = Some (u, verdict b net k u).
Proof. intros H. unfold verdicts. by rewrite list_lookup_imap, H. Qed.

Lemma passed_cons u h vs :
  passed ((u, h) :: vs) = if h then u :: passed vs else passed vs.
Proof. unfold passed. destruct h; [by rewrite filter_cons_True | by rewrite filter_cons_False]. Qed.

Lemma failed_cons u h vs :
  failed ((u, h) :: vs) = if h then failed vs else u :: failed vs.
Proof. unfold failed. destruct h; [by rewrite filter_cons_False | by rewrite filter_cons_True]. Qed.

Lemma elem_of_passed u vs : u ∈ passed vs <-> (u, true) ∈ vs.
Proof.
  unfold passed. rewrite list_elem_of_fmap. split.
  - intros [[v h] [-> [Hh Hin]%list_elem_of_filter]]. simpl in *. by subst.
  - intros Hin. exists (u, true). split; [done|]. by apply list_elem_of_filter.
Qed.

Lemma elem_of_failed u vs : u ∈ failed vs <-> (u, false) ∈ vs.
Proof.
  unfold failed. rewrite list_elem_of_fmap. split.
  - intros [[v h] [-> [Hh Hin]%list_elem_of_filter]]. simpl in *. by subst.
  - intros Hin. exists (u, false). split; [done|]. by apply list_elem_of_filter.
Qed.

Lemma calls_app t1 t2 : calls (t1 ++ t2) = calls t1 ++ calls t2.
Proof. apply omap_app. Qed.
Lemma requests_app t1 t2 : requests (t1 ++ t2) = requests t1 ++ requests t2.
Proof. apply omap_app. Qed.
Lemma logs_app t1 t2 : logs (t1 ++ t2) = logs t1 ++ logs t2.
Proof. apply omap_app. Qed.

Lemma requests_probeEvents b net u : requests (probeEvents b net u) = [request b u].
Proof. unfold probeEvents. by destruct (respond _ _ _ _). Qed.
Lemma calls_probeEvents b net u : calls (probeEvents b net u) = [].
Proof. unfold probeEvents. by destruct (respond _ _ _ _). Qed.
Lemma logs_probeEvents b net u : logs (probeEvents b net u) = [].
Proof. unfold probeEvents. by destruct (respond _ _ _ _). Qed.

(** ** The probe and the two loops *)

Section PassFacts.
Context {L : Type} `{!LoadBalancer L}.
Implicit Types (s : State L) (b : BackendHealthCheck) (u : url.URL).

(** What one call of [checkHealth] returns and leaves behind. *)
Lemma checkHealth_run u b s :
  checkHealth u b s =
    (verdict b (network s) 0 u,
     {| backend := backend s; balancer := balancer s;
        network := advance 1 (network s);
        trace := trace s ++ probeEvents b (network s) u |}).
Proof.
  unfold checkHealth, bind, clientGet, verdict, probeEvents, emit, ret.
  rewrite Nat.add_0_r.
  destruct (respond _ _ _ _) as [resp|msg]; simpl; [|done].
  by rewrite <- app_assoc.
Qed.

(** One turn of each loop. *)
Lemma rangeDisabled_cons u us acc s :
  rangeDisabled (u :: us) acc s =
    if verdict (backend s) (network s) 0 u then
      rangeDisabled us acc
        {| backend := backend s;
           balancer := (UpsertServer u [roundrobin.Weight 1] (balancer s)).2;
           network := advance 1 (network s);
           trace := trace s ++ probeEvents (backend s) (network s) u
                      ++ [EvLog DebugLevel (disabledLog (u, true)).2;
                          EvUpsertServer u [roundrobin.Weight 1]
                            (UpsertServer u [roundrobin.Weight 1] (balancer s)).1] |}
    else
      rangeDisabled us (acc ++ [u])
        {| backend := backend s;
           balancer := balancer s;
           network := advance 1 (network s);
           trace := trace s ++ probeEvents (backend s) (network s) u
                      ++ [EvLog WarnLevel (disabledLog (u, false)).2] |}.
Proof.
  simpl. unfold bind at 1; simpl. unfold bind at 1. rewrite checkHealth_run.
  destruct (verdict _ _ _ _).
  - unfold bind at 1; simpl. unfold bind at 1, callUpsertServer at 1; simpl.
    destruct (UpsertServer _ _ _) as [err lb]; simpl.
    by rewrite <- !app_assoc.
  - unfold bind at 1; simpl. by rewrite <- !app_assoc.
Qed.

Lemma rangeEnabled_cons u us s :
  rangeEnabled (u :: us) s =
    if verdict (backend s) (network s) 0 u then
      rangeEnabled us
        {| backend := backend s;
           balancer := balancer s;
           network := advance 1 (network s);
           trace := trace s ++ probeEvents (backend s) (network s) u |}
    else
      rangeEnabled us
        {| backend := withDisabledURLs (disabledURLs (backend s) ++ [u]) (backend s);
           balancer := (RemoveServer u (balancer s)).2;
           network := advance 1 (network s);
           trace := trace s ++ probeEvents (backend s) (network s) u
                      ++ [EvLog WarnLevel (enabledLog u).2;
                          EvRemoveServer u (RemoveServer u (balancer s)).1] |}.
Proof.
  simpl. unfold bind at 1; simpl. unfold bind at 1. rewrite checkHealth_run.
  destruct (verdict _ _ _ _); simpl; [done|].
  unfold bind at 1; simpl. unfold bind at 1, callRemoveServer at 1; simpl.
  destruct (RemoveServer _ _) as [err lb]; simpl.
  unfold bind at 1; simpl. unfold bind at 1; simpl.
  by rewrite <- !app_assoc.
Qed.

(** The first loop: the result is the accumulator followed by the URLs that
    failed; the backend object is untouched; one request per URL; one
    [UpsertServer] with weight 1 per URL that is up. *)
Lemma rangeDisabled_spec us acc s :
  let vs := verdicts (backend s) (network s) us in
  let r := rangeDisabled us acc s in
  r.1 = acc ++ failed vs
  /\ backend r.2 = backend s
  /\ network r.2 = advance (length us) (network s)
  /\ balancer r.2 = foldl applyCall (balancer s) (upsertCall <$> passed vs)
  /\ exists ev, trace r.2 = trace s ++ ev
      /\ calls ev = upsertCall <$> passed vs
      /\ requests ev = request (backend s) <$> us
      /\ logs ev = disabledLog <$> vs.
Proof.
  revert acc s. induction us as [|u us IH]; intros acc s.
  - simpl. rewrite advance_0. unfold failed, passed; simpl.
    rewrite app_nil_r. repeat split; try done.
    exists []. by rewrite app_nil_r.
  - cbv zeta. rewrite rangeDisabled_cons, verdicts_cons, passed_cons, failed_cons.
    destruct (verdict (backend s) (network s) 0 u) eqn:Hv.
    + match goal with |- context [rangeDisabled us acc ?s1] =>
        specialize (IH acc s1); cbv zeta in IH; cbn [backend network balancer trace] in IH;
        destruct IH as (Hr & Hb & Hn & Hl & ev & Ht & Hc & Hq & Hg) end.
      rewrite Hr, Hb, Hn, Hl, Ht, advance_advance. simpl.
      repeat split; try done.
      eexists. split; [by rewrite <- !app_assoc|].
      rewrite !calls_app, !requests_app, !logs_app.
      rewrite calls_probeEvents, requests_probeEvents, logs_probeEvents, Hc, Hq, Hg.
      done.
    + match goal with |- context [rangeDisabled us ?a ?s1] =>
        specialize (IH a s1); cbv zeta in IH; cbn [backend network balancer trace] in IH;
        destruct IH as (Hr & Hb & Hn & Hl & ev & Ht & Hc & Hq & Hg) end.
      rewrite Hr, Hb, Hn, Hl, Ht, advance_advance. simpl.
      repeat split; try done; [by rewrite <- app_assoc|].
      eexists. split; [by rewrite <- !app_assoc|].
      rewrite !calls_app, !requests_app, !logs_app.
      rewrite calls_probeEvents, requests_probeEvents, logs_probeEvents, Hc, Hq, Hg.
      done.
Qed.

(** The second loop: the URLs that failed are appended to the disabled
    URLs, each after one [RemoveServer]; one request per URL. *)
Lemma rangeEnabled_spec us s :
  let vs := verdicts (backend s) (network s) us in
  let r := rangeEnabled us s in
  disabledURLs (backend r.2) = disabledURLs (backend s) ++ failed vs
  /\ bOptions (backend r.2) = bOptions (backend s)
  /\ requestTimeout (backend r.2) = requestTimeout (backend s)
  /\ network r.2 = advance (length us) (network s)
  /\ balancer r.2 = foldl applyCall (balancer s) (CRemoveServer <$> failed vs)
  /\ exists ev, trace r.2 = trace s ++ ev
      /\ calls ev = CRemoveServer <$> failed vs
      /\ requests ev = request (backend s) <$> us
      /\ logs ev = enabledLog <$> failed vs.
Proof.
  revert s. induction us as [|u us IH]; intros s.
  - simpl. rewrite advance_0. unfold failed; simpl.
    rewrite app_nil_r. repeat split; try done.
    exists []. by rewrite app_nil_r.
  - cbv zeta. rewrite rangeEnabled_cons, verdicts_cons, failed_cons.
    destruct (verdict (backend s) (network s) 0 u) eqn:Hv.
    + match goal with |- context [rangeEnabled us ?s1] =>
        specialize (IH s1); cbv zeta in IH; cbn [backend network balancer trace] in IH;
        destruct IH as (Hr & Ho & Hto & Hn & Hl & ev & Ht & Hc & Hq & Hg) end.
      rewrite Hr, Ho, Hto, Hn, Hl, Ht, advance_advance. simpl.
      repeat split; try done.
      eexists. split; [by rewrite <- !app_assoc|].
      rewrite !calls_app, !requests_app, !logs_app.
      by rewrite calls_probeEvents, requests_probeEvents, logs_probeEvents, Hc, Hq, Hg.
    + match goal with |- context [rangeEnabled us ?s1] =>
        specialize (IH s1); cbv zeta in IH; cbn [backend network balancer trace] in IH;
        destruct IH as (Hr & Ho & Hto & Hn & Hl & ev & Ht & Hc & Hq & Hg) end.
      rewrite Hr, Ho, Hto, Hn, Hl, Ht, advance_advance. simpl.
      repeat split; try done; [by rewrite <- app_assoc|].
      eexists. split; [by rewrite <- !app_assoc|].
      rewrite !calls_app, !requests_app, !logs_app.
      by rewrite calls_probeEvents, requests_probeEvents, logs_probeEvents, Hc, Hq, Hg.
Qed.

End PassFacts.

(** ** The pass as a whole *)

Section PassSpec.
Context {L : Type} `{!LoadBalancer L}.
Implicit Types (s : State L) (b : BackendHealthCheck) (u : url.URL).

Lemma emitted_app {A} (m : M L A) s ev :
  trace (m s).2 = trace s ++ ev -> emitted m s = ev.
Proof. intros H. unfold emitted. by rewrite H, drop_app_length. Qed.

Lemma afterSnapshot_eq s :
  afterSnapshot s =
    {| backend := backend s; balancer := balancer s; network := network s;
       trace := trace s ++ [EvServers] |}.
Proof. done. Qed.

Lemma afterPass_eq s :
  afterPass s = (rangeEnabled (Servers (balancer s)) (afterSweep s)).2.
Proof.
  unfold afterPass, checkBackend, afterSweep, afterSnapshot.
  unfold bind, callServers, gets, emit, ret; simpl.
  by destruct (sweepDisabled _) as [[] s1].
Qed.

Lemma afterSweep_spec s :
  backend (afterSweep s) = withDisabledURLs (failed (sweepVerdicts s)) (backend s)
  /\ network (afterSweep s) = advance (length (disabledURLs (backend s))) (network s)
  /\ balancer (afterSweep s)
     = foldl applyCall (balancer s) (upsertCall <$> passed (sweepVerdicts s))
  /\ exists ev, trace (afterSweep s) = trace s ++ [EvServers] ++ ev
      /\ sweepEvents s = ev
      /\ calls ev = upsertCall <$> passed (sweepVerdicts s)
      /\ requests ev = request (backend s) <$> disabledURLs (backend s)
      /\ logs ev = disabledLog <$> sweepVerdicts s.
Proof.
  unfold sweepEvents, afterSweep. rewrite afterSnapshot_eq.
  set (s0 := {| backend := backend s; balancer := balancer s;
                network := network s; trace := trace s ++ [EvServers] |}).
  pose proof (rangeDisabled_spec (disabledURLs (backend s)) [] s0) as H.
  cbv zeta in H. cbn [backend network balancer trace s0] in H.
  destruct H as (Hr & Hb & Hn & Hl & ev & Ht & Hc & Hq & Hg).
  assert (Hrun : (sweepDisabled s0).2 =
    {| backend := withDisabledURLs (rangeDisabled (disabledURLs (backend s)) [] s0).1
                    (backend (rangeDisabled (disabledURLs (backend s)) [] s0).2);
       balancer := balancer (rangeDisabled (disabledURLs (backend s)) [] s0).2;
       network := network (rangeDisabled (disabledURLs (backend s)) [] s0).2;
       trace := trace (rangeDisabled (disabledURLs (backend s)) [] s0).2 |}).
  { unfold sweepDisabled. unfold bind at 1; simpl. unfold bind at 1.
    by destruct (rangeDisabled _ _ _) as [r s1]. }
  rewrite Hrun; simpl. rewrite Hr, Hb, Hn, Hl, Ht. unfold sweepVerdicts.
  repeat split; try done.
  exists ev. split; [by rewrite <- app_assoc|]. split; [|done].
  apply emitted_app. by rewrite Hrun.
Qed.

(** The closed form of a pass. *)
Lemma afterPass_spec s :
  disabledURLs (backend (afterPass s))
    = failed (sweepVerdicts s) ++ failed (enabledVerdicts s)
  /\ bOptions (backend (afterPass s)) = bOptions (backend s)
  /\ requestTimeout (backend (afterPass s)) = requestTimeout (backend s)
  /\ network (afterPass s)
     = advance (length (disabledURLs (backend s)) + length (Servers (balancer s)))
         (network s)
  /\ balancer (afterPass s)
     = foldl applyCall (balancer s)
         ((upsertCall <$> passed (sweepVerdicts s))
            ++ (CRemoveServer <$> failed (enabledVerdicts s)))
  /\ passEvents s = [EvServers] ++ sweepEvents s ++ enabledEvents s
  /\ trace (afterPass s) = trace s ++ passEvents s
  /\ calls (enabledEvents s) = CRemoveServer <$> failed (enabledVerdicts s)
  /\ requests (enabledEvents s) = request (backend s) <$> Servers (balancer s)
  /\ logs (enabledEvents s) = enabledLog <$> failed (enabledVerdicts s).
Proof.
  destruct (afterSweep_spec s) as (Hb & Hn & Hl & ev1 & Ht & He1 & _).
  pose proof (rangeEnabled_spec (Servers (balancer s)) (afterSweep s)) as H.
  cbv zeta in H. rewrite <- afterPass_eq in H.
  destruct H as (Hd & Ho & Hto & Hn2 & Hl2 & ev2 & Ht2 & Hc2 & Hq2 & Hg2).
  rewrite Hb, Hn in *. simpl in *.
  assert (He2 : enabledEvents s = ev2).
  { unfold enabledEvents. apply emitted_app. by rewrite <- afterPass_eq. }
  assert (Hall : trace (afterPass s) = trace s ++ [EvServers] ++ ev1 ++ ev2).
  { rewrite Ht2, Ht. by rewrite <- !app_assoc. }
  assert (Hp : passEvents s = [EvServers] ++ ev1 ++ ev2).
  { unfold passEvents. by apply emitted_app. }
  rewrite Hd, Ho, Hto, Hn2, Hl2, Hl, advance_advance, foldl_app, Hp, He1, He2.
  unfold enabledVerdicts, sweepVerdicts. repeat split; done.
Qed.

End PassSpec.

(** ** Requests and verdicts *)

Lemma string_length_app (a b : string) :
  String.length (a +:+ b) = String.length a + String.length b.
Proof. induction a as [|c a IH]; simpl; [done|]. by rewrite IH. Qed.

Lemma string_app_inj_r (p u v : string) : u +:+ p = v +:+ p -> u = v.
Proof.
  revert v. induction u as [|c u IH]; intros [|d v] H; simpl in H.
  - done.
  - apply (f_equal String.length) in H.
    rewrite !string_length_app in H. simpl in H. lia.
  - apply (f_equal String.length) in H.
    rewrite !string_length_app in H. simpl in H. lia.
  - injection H as -> H. f_equal. by apply IH.
Qed.

Lemma request_inj b u v : request b u = request b v -> u = v.
Proof. unfold request. intros [= H]. by apply string_app_inj_r in H. Qed.

Lemma elem_of_requests b u (us : list url.URL) :
  request b u ∈ request b <$> us <-> u ∈ us.
Proof.
  rewrite list_elem_of_fmap. split.
  - intros (v & Hv%request_inj & Hin). by subst.
  - intros Hin. by exists u.
Qed.

Lemma failed_sublist vs : failed vs `sublist_of` vs.*1.
Proof. unfold failed. apply fmap_sublist, sublist_filter. Qed.

Lemma passed_sublist vs : passed vs `sublist_of` vs.*1.
Proof. unfold passed. apply fmap_sublist, sublist_filter. Qed.

Lemma elem_of_failed_fst u vs : u ∈ failed vs -> u ∈ vs.*1.
Proof. intros H. eapply elem_of_sublist; [done | apply failed_sublist]. Qed.

Lemma elem_of_passed_fst u vs : u ∈ passed vs -> u ∈ vs.*1.
Proof. intros H. eapply elem_of_sublist; [done | apply passed_sublist]. Qed.

(** A URL that is probed once has one verdict. *)
Lemma passed_failed_NoDup u (vs : list (url.URL * bool)) :
  NoDup vs.*1 -> u ∈ passed vs -> u ∈ failed vs -> False.
Proof.
  induction vs as [|[v h] vs IH]; simpl.
  - intros _ H. by apply elem_of_nil in H.
  - rewrite NoDup_cons, passed_cons, failed_cons. intros [Hv Hnd].
    destruct h.
    + intros [->|Hp]%elem_of_cons Hf; [|by apply IH].
      by apply Hv, elem_of_failed_fst.
    + intros Hp [->|Hf]%elem_of_cons; [|by apply IH].
      by apply Hv, elem_of_passed_fst.
Qed.

(** Every URL that is probed either passes or fails. *)
Lemma passed_or_failed u (vs : list (url.URL * bool)) :
  u ∈ vs.*1 -> u ∈ passed vs \/ u ∈ failed vs.
Proof.
  intros ([v h] & -> & Hin)%list_elem_of_fmap. simpl.
  destruct h; [left; by apply elem_of_passed | right; by apply elem_of_failed].
Qed.

Lemma elem_of_calls_Servers (ev : list Event) : EvServers ∈ ev -> CServers ∈ calls ev.
Proof. intros H. apply list_elem_of_omap. by exists EvServers. Qed.

(** ** Balancers whose calls take effect *)

Section LawfulFacts.
Context {L : Type} `{!LoadBalancer L} `{!Lawful L}.

Lemma elem_of_Servers_upserts (l : L) (us : list url.URL) x :
  x ∈ Servers (foldl applyCall l (upsertCall <$> us)) <-> x ∈ us \/ x ∈ Servers l.
Proof.
  revert l. induction us as [|u us IH]; intros l; simpl.
  - split; [by right | intros [H|H]; [by apply elem_of_nil in H | done]].
  - rewrite IH, elem_of_UpsertServer, elem_of_cons. tauto.
Qed.

Lemma elem_of_Servers_removes (l : L) (us : list url.URL) x :
  x ∈ Servers (foldl applyCall l (CRemoveServer <$> us)) <-> (x ∉ us) /\ x ∈ Servers l.
Proof.
  revert l. induction us as [|u us IH]; intros l; simpl.
  - split; [intros H; split; [apply not_elem_of_nil | done] | by intros [_ H]].
  - rewrite IH, elem_of_RemoveServer, not_elem_of_cons. tauto.
Qed.

Lemma NoDup_Servers_calls (l : L) (cs : list Call) :
  NoDup (Servers l) -> NoDup (Servers (foldl applyCall l cs)).
Proof.
  revert l. induction cs as [|c cs IH]; intros l H; simpl; [done|].
  apply IH. destruct c; simpl; [done | by apply NoDup_UpsertServer | by apply NoDup_RemoveServer].
Qed.

End LawfulFacts.

(** The list balancer is lawful. *)
Lemma listUpsert_Servers u opts l :
  Servers (listUpsert u opts l).2
  = if bool_decide (u ∈ Servers l) then Servers l else Servers l ++ [u].
Proof.
  unfold listUpsert; simpl. case_bool_decide; simpl.
  - rewrite <- list_fmap_compose. apply list_fmap_ext. intros i [v w] _; simpl.
    by case_bool_decide.
  - by rewrite fmap_app.
Qed.

Lemma listRemove_Servers u l :
  Servers (listRemove u l).2 = filter (fun x => x <> u) (Servers l).
Proof.
  unfold listRemove; simpl. case_bool_decide as Hin; simpl.
  - induction (entries l) as [|[v w] es IH]; [done|]. simpl.
    destruct (decide (v = u)) as [->|Hne].
    + rewrite !filter_cons_False by (simpl; tauto).
      destruct (decide (u ∈ es.*1)); [by apply IH|].
      clear IH Hin. induction es as [|[v' w'] es IH]; [done|].
      simpl in *. apply not_elem_of_cons in n as [Hne Hn].
      rewrite !filter_cons_True by (simpl; congruence). simpl. f_equal. by apply IH.
    + rewrite !filter_cons_True by done. simpl. f_equal. apply IH.
      simpl in Hin. apply elem_of_cons in Hin as [?|?]; [congruence|done].
  - symmetry. induction (entries l) as [|[v w] es IH]; [done|]. simpl in *.
    apply not_elem_of_cons in Hin as [Hne Hn].
    rewrite filter_cons_True by congruence. f_equal. by apply IH.
Qed.

#[export] Instance ListBalancer_Lawful : Lawful ListBalancer.
Proof.
  split.
  - intros u opts l x. change (UpsertServer u opts l) with (listUpsert u opts l).
    rewrite listUpsert_Servers. case_bool_decide.
    + split; [by right | intros [->|?]; done].
    + rewrite elem_of_app, list_elem_of_singleton. tauto.
  - intros u l x. change (RemoveServer u l) with (listRemove u l).
    by rewrite listRemove_Servers, list_elem_of_filter.
  - intros u opts l Hnd. change (UpsertServer u opts l) with (listUpsert u opts l).
    rewrite listUpsert_Servers. case_bool_decide; [done|].
    apply NoDup_app. split; [done|]. split; [|apply NoDup_singleton].
    intros x Hx ->%list_elem_of_singleton. done.
  - intros u l Hnd. change (RemoveServer u l) with (listRemove u l).
    rewrite listRemove_Servers. by apply NoDup_filter.
Qed.

(** ** Several passes *)

Lemma passes_S {L} `{!LoadBalancer L} n (s : State L) :
  passes (S n) s = afterPass (passes n s).
Proof. revert s. induction n as [|n IH]; intros s; [done|]. simpl in *. by rewrite IH. Qed.

Lemma passes_fixed {L} `{!LoadBalancer L} n (s : State L) :
  bOptions (backend (passes n s)) = bOptions (backend s)
  /\ requestTimeout (backend (passes n s)) = requestTimeout (backend s).
Proof.
  induction n as [|n [IH1 IH2]]; [done|]. rewrite passes_S.
  destruct (afterPass_spec (passes n s)) as (_ & Ho & Ht & _).
  by rewrite Ho, Ht.
Qed.

Lemma requests_passEvents {L} `{!LoadBalancer L} (s : State L) :
  requests (passEvents s)
  = request (backend s) <$> (disabledURLs (backend s) ++ Servers (balancer s)).
Proof.
  destruct (afterSweep_spec s) as (_ & _ & _ & ev1 & _ & He1 & _ & Hq1 & _).
  destruct (afterPass_spec s) as (_ & _ & _ & _ & _ & Hp & _ & _ & Hq2 & _).
  rewrite Hp, !requests_app, He1, Hq1, Hq2, fmap_app. done.
Qed.

Lemma logs_passEvents {L} `{!LoadBalancer L} (s : State L) :
  logs (passEvents s)
  = (disabledLog <$> sweepVerdicts s) ++ (enabledLog <$> failed (enabledVerdicts s)).
Proof.
  destruct (afterSweep_spec s) as (_ & _ & _ & ev1 & _ & He1 & _ & _ & Hg1).
  destruct (afterPass_spec s) as (_ & _ & _ & _ & _ & Hp & _ & _ & _ & Hg2).
  rewrite Hp, !logs_app, He1, Hg1, Hg2. done.
Qed.

(** ** Separation

    A pass of a backend in front of a balancer whose calls take effect keeps
    the disabled URLs and the live list separated, and keeps what the backend
    knows. *)
Lemma afterPass_separated {L} `{!LoadBalancer L} `{!Lawful L} (s : State L) :
  separated s ->
  separated (afterPass s)
  /\ (forall u, known u (afterPass s) <-> known u s)
  /\ (forall u, known u s -> exactlyOne u (afterPass s)).
Proof.
  intros (HndD & HndE & Hsep).
  destruct (afterPass_spec s) as (Hd & _ & _ & _ & Hl & _).
  set (v1 := sweepVerdicts s) in *. set (v2 := enabledVerdicts s) in *.
  assert (H1 : v1.*1 = disabledURLs (backend s)) by apply verdicts_fst.
  assert (H2 : v2.*1 = Servers (balancer s)) by apply verdicts_fst.
  assert (Hlive : forall x, x ∈ Servers (balancer (afterPass s))
            <-> (x ∉ failed v2) /\ (x ∈ passed v1 \/ x ∈ Servers (balancer s))).
  { intros x. rewrite Hl, foldl_app, elem_of_Servers_removes, elem_of_Servers_upserts.
    done. }
  assert (Hdis : forall x, x ∈ disabledURLs (backend (afterPass s))
            <-> x ∈ failed v1 \/ x ∈ failed v2).
  { intros x. by rewrite Hd, elem_of_app. }
  assert (Hf1 : forall x, x ∈ failed v1 -> x ∈ disabledURLs (backend s)).
  { intros x Hx. rewrite <- H1. by apply elem_of_failed_fst. }
  assert (Hp1 : forall x, x ∈ passed v1 -> x ∈ disabledURLs (backend s)).
  { intros x Hx. rewrite <- H1. by apply elem_of_passed_fst. }
  assert (Hf2 : forall x, x ∈ failed v2 -> x ∈ Servers (balancer s)).
  { intros x Hx. rewrite <- H2. by apply elem_of_failed_fst. }
  assert (Hex1 : forall x, x ∈ passed v1 -> x ∈ failed v1 -> False).
  { intros x. apply passed_failed_NoDup. by rewrite H1. }
  assert (Hsplit : forall x, x ∈ disabledURLs (backend s) -> x ∈ passed v1 \/ x ∈ failed v1).
  { intros x Hx. apply passed_or_failed. by rewrite H1. }
  assert (Hboth : forall x, x ∈ disabledURLs (backend (afterPass s)) ->
                            x ∈ Servers (balancer (afterPass s)) -> False).
  { intros x [Hx|Hx]%Hdis [Hn [Hy|Hy]]%Hlive; try done.
    - by eapply Hex1.
    - by eapply Hsep; [apply Hf1|]. }
  split; [|split].
  - split; [|split].
    + rewrite Hd. apply NoDup_app. split; [|split].
      * eapply sublist_NoDup; [exact HndD|]. rewrite <- H1. apply failed_sublist.
      * intros x Hx1 Hx2. by eapply Hsep; [apply Hf1 | apply Hf2].
      * eapply sublist_NoDup; [exact HndE|]. rewrite <- H2. apply failed_sublist.
    + rewrite Hl. by apply NoDup_Servers_calls.
    + exact Hboth.
  - intros x. unfold known. rewrite Hdis, Hlive. split.
    + intros [[Hx|Hx]|[_ [Hx|Hx]]]; auto.
    + intros [Hx|Hx].
      * destruct (Hsplit x Hx) as [Hp|Hf]; [|by left; left].
        right. split; [|by left]. intros Hf2'. by eapply Hsep; [|apply Hf2].
      * destruct (decide (x ∈ failed v2)); [by left; right|].
        right. split; [done | by right].
  - intros x Hk. unfold exactlyOne.
    destruct (decide (x ∈ disabledURLs (backend (afterPass s)))) as [Hin|Hout].
    + left. split; [done|]. intros Hlv. by eapply Hboth.
    + right. split; [done|]. apply Hlive.
      rewrite Hdis in Hout. split; [tauto|].
      destruct Hk as [Hx|Hx]; [|by right].
      destruct (Hsplit x Hx) as [Hp|Hf]; [by left | tauto].
Qed.

Lemma passes_separated {L} `{!LoadBalancer L} `{!Lawful L} n (s : State L) :
  separated s ->
  separated (passes n s) /\ (forall u, known u (passes n s) <-> known u s).
Proof.
  revert s. induction n as [|n IH]; intros s Hsep; [done|]. simpl.
  destruct (afterPass_separated s Hsep) as (Hsep' & Hk & _).
  destruct (IH (afterPass s) Hsep') as [Hs Hk'].
  split; [done|]. intros u. by rewrite Hk', Hk.
Qed.

(** A fresh backend has nothing disabled. *)
Lemma fresh_separated {L} `{!LoadBalancer L} (o : Options) (l : L) (n : Network) :
  NoDup (Servers l) -> separated (fresh o l n).
Proof.
  intros Hnd. split; [apply NoDup_nil_2|]. split; [done|].
  intros u Hu. by apply elem_of_nil in Hu.
Qed.

(** * The probe *)

(** C2: a probe is healthy exactly when the one GET to [serverURL + path],
    made with the backend's timeout, comes back without error and with status
    200; an error or any other status gives unhealthy; the call makes exactly
    one request (no retry) and leaves the backend and the balancer alone. *)
Theorem checkHealth_single_get {L} `{!LoadBalancer L}
    (serverURL : url.URL) (b : BackendHealthCheck) (s : State L) :
  let answer := respond (network s) (clock (network s)) (requestTimeout b)
                  (serverURL +:+ URL (bOptions b)) in
  let r := checkHealth serverURL b s in
  (r.1 = true <-> exists resp, answer = http.Ok resp /\ http.StatusCode resp = 200%Z)
  /\ (forall msg, answer = http.Err msg -> r.1 = false)
  /\ (forall resp, answer = http.Ok resp -> http.StatusCode resp <> 200%Z -> r.1 = false)
  /\ requests (emitted (checkHealth serverURL b) s)
     = [(requestTimeout b, serverURL +:+ URL (bOptions b))]
  /\ clock (network r.2) = clock (network s) + 1
  /\ backend r.2 = backend s
  /\ balancer r.2 = balancer s.
Proof.
  cbv zeta. rewrite checkHealth_run. simpl.
  unfold verdict. rewrite Nat.add_0_r.
  repeat split.
  - destruct (respond _ _ _ _) as [resp|msg]; [|done].
    intros H%Z.eqb_eq. by exists resp.
  - intros (resp & -> & H). by apply Z.eqb_eq.
  - by intros msg ->.
  - intros resp -> H. by apply Z.eqb_neq.
  - erewrite emitted_app; [apply requests_probeEvents|].
    by rewrite checkHealth_run.
Qed.

(** * The reconciliation pass *)

(** C1: in a pass the balancer is asked for the live list first; then every
    disabled URL is probed ([verdict] is what [checkHealth] returns at that
    moment), one that is up is upserted with weight 1 and leaves the disabled
    URLs, one that is down is kept (the kept URLs are a sublist of the old
    ones: no duplicate is added, and there is none if there was none); then
    every URL of the list read at the start is probed, and for one that is
    down [RemoveServer] is called and the URL is appended to the disabled
    URLs.  The balancer ends as the calls made leave it. *)
Theorem checkBackend_reconciles {L} `{!LoadBalancer L} (s : State L) :
  let b := backend s in
  let disabled := disabledURLs b in
  let enabled := Servers (balancer s) in
  (forall k u (s0 : State L),
       network s0 = advance k (network s) ->
       verdict b (network s) k u = (checkHealth u b s0).1)
  /\ sweepVerdicts s = imap (fun k u => (u, verdict b (network s) k u)) disabled
  /\ enabledVerdicts s
     = imap (fun k u => (u, verdict b (network s) (length disabled + k) u)) enabled
  /\ passEvents s = [EvServers] ++ sweepEvents s ++ enabledEvents s
  /\ requests (sweepEvents s) = request b <$> disabled
  /\ requests (enabledEvents s) = request b <$> enabled
  /\ calls (sweepEvents s) = upsertCall <$> passed (sweepVerdicts s)
  /\ calls (enabledEvents s) = CRemoveServer <$> failed (enabledVerdicts s)
  /\ balancer (afterPass s) = foldl applyCall (balancer s) (calls (passEvents s))
  /\ disabledURLs (backend (afterSweep s)) = failed (sweepVerdicts s)
  /\ failed (sweepVerdicts s) `sublist_of` disabled
  /\ (NoDup disabled -> NoDup (disabledURLs (backend (afterSweep s))))
  /\ disabledURLs (backend (afterPass s))
     = disabledURLs (backend (afterSweep s)) ++ failed (enabledVerdicts s).
Proof.
  cbv zeta.
  destruct (afterSweep_spec s) as (Hb & _ & _ & ev1 & _ & He1 & Hc1 & Hq1 & _).
  destruct (afterPass_spec s) as (Hd & _ & _ & _ & Hl & Hp & _ & Hc2 & Hq2 & _).
  assert (Hsub : failed (sweepVerdicts s) `sublist_of` disabledURLs (backend s)).
  { unfold sweepVerdicts.
    rewrite <- (verdicts_fst (backend s) (network s) (disabledURLs (backend s))) at 2.
    apply failed_sublist. }
  rewrite Hb, Hd, Hl, Hp, He1. simpl.
  rewrite !calls_app, Hc1, Hc2. simpl.
  split; [|split; [|split]].
  - intros k u s0 Hs0. rewrite checkHealth_run. simpl.
    by rewrite Hs0, verdict_advance, Nat.add_0_r.
  - done.
  - unfold enabledVerdicts, verdicts. apply imap_ext. intros k u _. simpl.
    by rewrite verdict_advance.
  - repeat split; try done.
    intros Hnd. by eapply sublist_NoDup.
Qed.

(** C10 (as amended): the live list is read once per pass, as the first
    thing the pass does, and step 2 probes the URLs of that list.  So a URL
    that step 1 upserts is probed in step 2 exactly when it was in the live
    list at the start of the pass; one that was not is not probed, though
    (with a balancer whose calls take effect) it is in the live list by then. *)
Theorem checkBackend_snapshot {L} `{!LoadBalancer L} (s : State L) :
  (exists ev, passEvents s = EvServers :: ev /\ EvServers ∉ ev)
  /\ requests (enabledEvents s) = request (backend s) <$> Servers (balancer s)
  /\ (forall u,
        u ∈ passed (sweepVerdicts s) ->
        upsertCall u ∈ calls (sweepEvents s)
        /\ (request (backend s) u ∈ requests (enabledEvents s)
             <-> u ∈ Servers (balancer s)))
  /\ (Lawful L ->
      forall u, u ∈ passed (sweepVerdicts s) -> u ∈ Servers (balancer (afterSweep s))).
Proof.
  destruct (afterSweep_spec s) as (_ & _ & Hl1 & ev1 & _ & He1 & Hc1 & _).
  destruct (afterPass_spec s) as (_ & _ & _ & _ & _ & Hp & _ & Hc2 & Hq2 & _).
  split; [|split; [|split]].
  - exists (sweepEvents s ++ enabledEvents s). split; [done|].
    intros [H|H]%elem_of_app; apply elem_of_calls_Servers in H.
    + rewrite He1, Hc1 in H. by apply list_elem_of_fmap in H as (? & ? & _).
    + rewrite Hc2 in H. by apply list_elem_of_fmap in H as (? & ? & _).
  - done.
  - intros u Hu. split.
    + rewrite He1, Hc1. by apply list_elem_of_fmap_2.
    + by rewrite Hq2, elem_of_requests.
  - intros Hlaw u Hu. rewrite Hl1. apply elem_of_Servers_upserts. by left.
Qed.

(** C8 (as amended): a URL that fails its probe in step 1 stays disabled, and
    step 2 probes it exactly when it is also in the live list read at the
    start of the pass; with the disabled URLs and the live list separated, it
    is not probed again. *)
Theorem sweep_failure_reprobed_iff_live {L} `{!LoadBalancer L} (s : State L) (u : url.URL) :
  u ∈ failed (sweepVerdicts s) ->
  u ∈ disabledURLs (backend (afterPass s))
  /\ (request (backend s) u ∈ requests (enabledEvents s) <-> u ∈ Servers (balancer s))
  /\ (separated s -> request (backend s) u ∉ requests (enabledEvents s)).
Proof.
  intros Hu.
  destruct (afterPass_spec s) as (Hd & _ & _ & _ & _ & _ & _ & _ & Hq2 & _).
  rewrite Hd, Hq2, elem_of_requests. repeat split.
  - apply elem_of_app. by left.
  - done.
  - done.
  - intros (_ & _ & Hsep). apply Hsep.
    apply elem_of_failed_fst in Hu. unfold sweepVerdicts in Hu.
    by rewrite verdicts_fst in Hu.
Qed.

(** C3 (as amended): with a balancer whose calls take effect, a pass started
    with the disabled URLs and the live list separated ends with them
    separated; the URLs the backend knows stay the same, and each of them is
    either disabled or in the live list, not both, after that pass and after
    every later one. *)
Theorem checkBackend_keeps_separated {L} `{!LoadBalancer L} `{!Lawful L} (s : State L) :
  separated s ->
  separated (afterPass s)
  /\ (forall u, known u (afterPass s) <-> known u s)
  /\ (forall u, known u s -> exactlyOne u (afterPass s))
  /\ (forall n u, known u s -> exactlyOne u (passes (S n) s)).
Proof.
  intros Hsep.
  destruct (afterPass_separated s Hsep) as (Hsep' & Hk & Hone).
  split; [done|]. split; [done|]. split; [done|].
  intros n u Hu. rewrite passes_S.
  destruct (passes_separated n s Hsep) as [Hs Hkn].
  destruct (afterPass_separated (passes n s) Hs) as (_ & _ & H).
  apply H. by apply Hkn.
Qed.

(** C3 (as stated) fails: when [RemoveServer] returns an error and removes
    nothing, a server that is down ends the first pass of a fresh backend both
    disabled and in the live list. *)
Lemma stuck_server_in_both :
  known server2 (fresh apiOptions stuck netDown)
  /\ ~ exactlyOne server2 (afterPass (fresh apiOptions stuck netDown)).
Proof.
  assert (Hd : disabledURLs (backend (afterPass (fresh apiOptions stuck netDown)))
               = [server2]) by (vm_compute; reflexivity).
  assert (Hl : Servers (balancer (afterPass (fresh apiOptions stuck netDown)))
               = [server2]) by (vm_compute; reflexivity).
  split.
  - right. simpl. apply list_elem_of_singleton. done.
  - unfold exactlyOne. rewrite Hd, Hl.
    intros [[_ H]|[H _]]; apply H, list_elem_of_singleton; done.
Qed.

(** C8 (as stated) fails: in the pass after that one the server is still
    down; it fails its probe in step 1, is probed again in step 2 because it
    is still in the live list, and ends up disabled twice. *)
Lemma stuck_server_probed_twice :
  server2 ∈ failed (sweepVerdicts (afterPass (fresh apiOptions stuck netDown)))
  /\ request (backend (afterPass (fresh apiOptions stuck netDown))) server2
       ∈ requests (enabledEvents (afterPass (fresh apiOptions stuck netDown)))
  /\ disabledURLs (backend (passes 2 (fresh apiOptions stuck netDown)))
     = [server2; server2].
Proof.
  assert (H1 : failed (sweepVerdicts (afterPass (fresh apiOptions stuck netDown)))
               = [server2]) by (vm_compute; reflexivity).
  assert (H2 : requests (enabledEvents (afterPass (fresh apiOptions stuck netDown)))
               = [request (backend (afterPass (fresh apiOptions stuck netDown))) server2])
    by (vm_compute; reflexivity).
  rewrite H1, H2. split; [|split].
  - by apply list_elem_of_singleton.
  - by apply list_elem_of_singleton.
  - vm_compute; reflexivity.
Qed.

(** C10 (as stated) fails: if the server is up again in that pass, step 1
    upserts it and step 2, which goes by the list read at the start, probes
    it once more. *)
Lemma stuck_server_upserted_and_probed :
  upsertCall server2
    ∈ calls (sweepEvents (afterPass (fresh apiOptions stuck (netUpAfter 1))))
  /\ request (backend (afterPass (fresh apiOptions stuck (netUpAfter 1)))) server2
       ∈ requests (enabledEvents (afterPass (fresh apiOptions stuck (netUpAfter 1)))).
Proof.
  assert (H1 : calls (sweepEvents (afterPass (fresh apiOptions stuck (netUpAfter 1))))
               = [upsertCall server2]) by (vm_compute; reflexivity).
  assert (H2 : requests (enabledEvents (afterPass (fresh apiOptions stuck (netUpAfter 1))))
               = [request (backend (afterPass (fresh apiOptions stuck (netUpAfter 1))))
                    server2])
    by (vm_compute; reflexivity).
  rewrite H1, H2. split; by apply list_elem_of_singleton.
Qed.

(** C9 (as stated) fails: no options make [NewBackendHealthCheck] use a
    request timeout other than five seconds. *)
Lemma no_timeout_override :
  ~ exists o : Options, requestTimeout (NewBackendHealthCheck o) <> (5 * time.Second)%Z.
Proof. intros [o H]. by apply H. Qed.

(** C9 (as amended): the request timeout of a backend is five seconds
    whatever the options, which are the probe path, the interval and the
    balancer and nothing else; no pass changes it, and every probe is made
    with it. *)
Theorem requestTimeout_is_five_seconds {L} `{!LoadBalancer L}
    (o : Options) (l : L) (net : Network) (n : nat) :
  requestTimeout (NewBackendHealthCheck o) = 5000000000%Z
  /\ bOptions (NewBackendHealthCheck o) = o
  /\ o = {| URL := URL o; Interval := Interval o; LB := LB o |}
  /\ requestTimeout (backend (passes n (fresh o l net))) = (5 * time.Second)%Z
  /\ (forall t addr,
        (t, addr) ∈ requests (passEvents (passes n (fresh o l net))) ->
        t = (5 * time.Second)%Z).
Proof.
  destruct (passes_fixed n (fresh o l net)) as [_ Ht]. simpl in Ht.
  split; [done|]. split; [done|]. split; [by destruct o|]. split; [done|].
  intros t addr. rewrite requests_passEvents.
  intros (u & [= -> _] & _)%list_elem_of_fmap. exact Ht.
Qed.

(** * The registry *)

Section RegistryFacts.
Context {L : Type} `{!LoadBalancer L}.
Implicit Types (σ : System L) (t : Task).

Lemma goOps_cons n kv kvs :
  goOps n (kv :: kvs) = (Registry, OpGo n kv.1) :: goOps (S n) kvs.
Proof.
  unfold goOps. rewrite imap_cons, Nat.add_0_r. f_equal.
  apply imap_ext. intros i x _. simpl. f_equal. f_equal. lia.
Qed.

(** The loop of [execute] over a list of entries. *)
Lemma execute_loop c kvs σ :
  foldl (fun σ' kv => safeGo (spawn c kv) σ') σ kvs =
    {| hc := hc σ; heap := heap σ; balancers := balancers σ; cancelled := cancelled σ;
       nextSignal := nextSignal σ;
       tasks := tasks σ ++ (spawn c <$> kvs);
       net := net σ;
       history := history σ ++ goOps (length (tasks σ)) kvs |}.
Proof.
  revert σ. induction kvs as [|kv kvs IH]; intros σ.
  - simpl. destruct σ; simpl. by rewrite !app_nil_r.
  - simpl. rewrite IH, goOps_cons. simpl.
    rewrite length_app, Nat.add_1_r, <- !app_assoc. done.
Qed.

(** [SetBackendsConfiguration] in closed form. *)
Lemma SetBackendsConfiguration_eq parentCtx backends σ :
  SetBackendsConfiguration parentCtx backends σ =
    {| hc := {| Backends := backends; cancel := Some (nextSignal σ); wg := wg (hc σ) |};
       heap := heap σ; balancers := balancers σ;
       cancelled := match cancel (hc σ) with
                    | Some c0 => {[c0]} ∪ cancelled σ
                    | None => cancelled σ
                    end;
       nextSignal := S (nextSignal σ);
       tasks := tasks σ ++ (spawn (nextSignal σ :: parentCtx) <$> map_to_list backends);
       net := net σ;
       history := history σ
         ++ [(Registry, OpSetBackends backends)]
         ++ match cancel (hc σ) with
            | Some c0 => [(Registry, OpCancel c0)]
            | None => []
            end
         ++ [(Registry, OpWithCancel parentCtx (nextSignal σ))]
         ++ goOps (length (tasks σ)) (map_to_list backends) |}.
Proof.
  unfold SetBackendsConfiguration, execute, withCancel, cancelPrevious, assignBackends.
  simpl. destruct (cancel (hc σ)) as [c0|]; simpl.
  - rewrite (execute_loop (nextSignal σ :: parentCtx)). simpl.
    by rewrite <- !app_assoc.
  - rewrite (execute_loop (nextSignal σ :: parentCtx)). simpl.
    by rewrite <- !app_assoc.
Qed.

Lemma started_eq parentCtx backends σ :
  started parentCtx backends σ
  = spawn (nextSignal σ :: parentCtx) <$> map_to_list backends.
Proof.
  unfold started. rewrite SetBackendsConfiguration_eq. simpl.
  by rewrite drop_app_length.
Qed.

Lemma configured_eq parentCtx backends σ :
  configured parentCtx backends σ
  = [(Registry, OpSetBackends backends)]
    ++ match cancel (hc σ) with
       | Some c0 => [(Registry, OpCancel c0)]
       | None => []
       end
    ++ [(Registry, OpWithCancel parentCtx (nextSignal σ))]
    ++ goOps (length (tasks σ)) (map_to_list backends).
Proof.
  unfold configured. rewrite SetBackendsConfiguration_eq. simpl.
  by rewrite drop_app_length.
Qed.

(** In a list without duplicates an element occurs once or not at all. *)
Lemma NoDup_occurrences (x : string) (l : list string) :
  NoDup l ->
  length (filter (fun y => y = x) l) = if decide (x ∈ l) then 1 else 0.
Proof.
  induction 1 as [|y l Hy Hnd IH].
  - rewrite decide_False; [done | apply not_elem_of_nil].
  - destruct (decide (y = x)) as [->|Hne].
    + rewrite filter_cons_True by done. simpl. rewrite IH.
      rewrite (decide_False (P := x ∈ l)) by done.
      rewrite decide_True; [done | apply elem_of_cons; by left].
    + rewrite filter_cons_False by done. rewrite IH.
      destruct (decide (x ∈ l)).
      * rewrite decide_True; [done | apply elem_of_cons; by right].
      * rewrite decide_False; [done|].
        intros [?|?]%elem_of_cons; congruence.
Qed.

(** One goroutine per entry. *)
Lemma started_per_entry parentCtx (backends : gmap string positive) σ id :
  length (filter (fun t => currentBackendID t = id) (started parentCtx backends σ))
  = if decide (is_Some (backends !! id)) then 1 else 0.
Proof.
  rewrite started_eq.
  assert (Hlen : forall (kvs : list (string * positive)) c,
    length (filter (fun t => currentBackendID t = id) (spawn c <$> kvs))
    = length (filter (fun y => y = id) kvs.*1)).
  { intros kvs c. induction kvs as [|kv kvs IH]; [done|].
    rewrite !fmap_cons. destruct (decide (kv.1 = id)).
    - rewrite (filter_cons_True (fun t => currentBackendID t = id)) by done.
      rewrite (filter_cons_True (fun y => y = id)) by done.
      simpl. by rewrite IH.
    - rewrite (filter_cons_False (fun t => currentBackendID t = id)) by done.
      rewrite (filter_cons_False (fun y => y = id)) by done.
      done. }
  rewrite Hlen, NoDup_occurrences by apply NoDup_fst_map_to_list.
  destruct (decide (is_Some (backends !! id))) as [[p Hp]|Hn].
  - rewrite decide_True; [done|].
    apply list_elem_of_fmap. exists (id, p). split; [done|].
    by apply elem_of_map_to_list.
  - rewrite decide_False; [done|].
    intros ([k p] & -> & Hin%elem_of_map_to_list)%list_elem_of_fmap.
    apply Hn. by exists p.
Qed.

Lemma elem_of_started parentCtx (backends : gmap string positive) σ t :
  t ∈ started parentCtx backends σ
  <-> exists id p, backends !! id = Some p
        /\ t = {| currentBackendID := id; currentBackend := p;
                  ctx := nextSignal σ :: parentCtx; pc := Spawned |}.
Proof.
  rewrite started_eq, list_elem_of_fmap. split.
  - intros ([id p] & -> & Hin%elem_of_map_to_list). by exists id, p.
  - intros (id & p & Hin & ->). exists (id, p). split; [done|].
    by apply elem_of_map_to_list.
Qed.

(** *** Steps of a goroutine *)

Lemma setPc_lookup tid p σ t :
  tasks σ !! tid = Some t -> tasks (setPc tid p σ) !! tid = Some (withPc p t).
Proof.
  intros H. unfold setPc. rewrite H. simpl.
  apply list_lookup_insert_eq. by eapply lookup_lt_Some.
Qed.

Lemma setPc_lookup_ne tid tid' p σ :
  tid <> tid' -> tasks (setPc tid p σ) !! tid' = tasks σ !! tid'.
Proof.
  intros H. unfold setPc. destruct (tasks σ !! tid); [|done]. simpl.
  by apply list_lookup_insert_ne.
Qed.

Lemma setPc_length tid p σ : length (tasks (setPc tid p σ)) = length (tasks σ).
Proof. unfold setPc. destruct (tasks σ !! tid); [|done]. simpl. apply length_insert. Qed.

Lemma setPc_history tid p σ : history (setPc tid p σ) = history σ.
Proof. unfold setPc. by destruct (tasks σ !! tid). Qed.

Lemma setPc_heap tid p σ : heap (setPc tid p σ) = heap σ.
Proof. unfold setPc. by destruct (tasks σ !! tid). Qed.

Lemma setPc_balancers tid p σ : balancers (setPc tid p σ) = balancers σ.
Proof. unfold setPc. by destruct (tasks σ !! tid). Qed.

Lemma setPc_net tid p σ : net (setPc tid p σ) = net σ.
Proof. unfold setPc. by destruct (tasks σ !! tid). Qed.

Lemma setPc_same tid σ t :
  tasks σ !! tid = Some t -> setPc tid (pc t) σ = σ.
Proof.
  intros H. unfold setPc. rewrite H. destruct σ; unfold withTasks; simpl in *.
  f_equal. destruct t. by apply list_insert_id.
Qed.

Lemma eventsOf_app tid h1 h2 :
  eventsOf tid (h1 ++ h2) = eventsOf tid h1 ++ eventsOf tid h2.
Proof. apply omap_app. Qed.

Lemma eventsOf_events tid (ev : list Event) :
  eventsOf tid ((fun op => (Goroutine tid, op)) <$> (OpEvent <$> ev)) = ev.
Proof.
  induction ev as [|e ev IH]; [done|]. simpl.
  unfold eventsOf in *. simpl. rewrite decide_True by done. simpl. by f_equal.
Qed.

Lemma trace_afterPass_empty b (l : L) n :
  trace (afterPass {| backend := b; balancer := l; network := n; trace := [] |})
  = passEvents {| backend := b; balancer := l; network := n; trace := [] |}.
Proof.
  destruct (afterPass_spec {| backend := b; balancer := l; network := n; trace := [] |})
    as (_ & _ & _ & _ & _ & _ & Ht & _).
  by rewrite Ht.
Qed.

(** A pass through valid pointers. *)
Lemma runPass_Some tid p σ b l :
  heap σ !! p = Some b ->
  balancers σ !! LB (bOptions b) = Some l ->
  let s := {| backend := b; balancer := l; network := net σ; trace := [] |} in
  exists σ', runPass tid p σ = Some σ'
    /\ tasks σ' = tasks σ
    /\ hc σ' = hc σ
    /\ cancelled σ' = cancelled σ
    /\ heap σ' = <[p := backend (afterPass s)]> (heap σ)
    /\ balancers σ' = <[LB (bOptions b) := balancer (afterPass s)]> (balancers σ)
    /\ net σ' = network (afterPass s)
    /\ history σ' = history σ ++ ((fun op => (Goroutine tid, op)) <$> (OpEvent <$> passEvents s)).
Proof.
  intros Hb Hl. cbv zeta. unfold runPass. rewrite Hb, Hl.
  eexists. split; [done|]. simpl. rewrite trace_afterPass_empty. done.
Qed.

End RegistryFacts.

Section MonitorFacts.
Context {L : Type} `{!LoadBalancer L}.
Implicit Types (σ : System L) (t : Task).

(** The body of the goroutine up to the ticker: the initial pass. *)
Lemma stepTask_Spawned tid choice σ t b l :
  tasks σ !! tid = Some t ->
  pc t = Spawned ->
  heap σ !! currentBackend t = Some b ->
  balancers σ !! LB (bOptions b) = Some l ->
  let s := {| backend := b; balancer := l; network := net σ; trace := [] |} in
  exists σ', stepTask tid choice σ = Some σ'
    /\ tasks σ' = <[tid := withPc Checked t]> (tasks σ)
    /\ history σ' = history σ ++ tag tid (initialLog (currentBackendID t) :: passEvents s)
    /\ heap σ' = <[currentBackend t := backend (afterPass s)]> (heap σ)
    /\ balancers σ' = <[LB (bOptions b) := balancer (afterPass s)]> (balancers σ)
    /\ net σ' = network (afterPass s)
    /\ cancelled σ' = cancelled σ.
Proof.
  intros Ht Hpc Hb Hl. cbv zeta. unfold stepTask. rewrite Ht, Hpc.
  match goal with |- context [runPass tid _ ?σ1] =>
    destruct (runPass_Some tid (currentBackend t) σ1 b l Hb Hl)
      as (σ2 & Hrun & Hts & _ & Hc & Hh & Hbs & Hn & Hhist) end.
  rewrite Hrun. eexists. split; [done|].
  rewrite setPc_history, setPc_heap, setPc_balancers, setPc_net.
  unfold setPc. rewrite Hts. simpl. rewrite Ht. simpl.
  rewrite Hhist, Hh, Hbs, Hn. simpl. rewrite <- app_assoc.
  repeat split; done.
Qed.

(** Making the ticker. *)
Lemma stepTask_Checked tid choice σ t b :
  tasks σ !! tid = Some t ->
  pc t = Checked ->
  heap σ !! currentBackend t = Some b ->
  stepTask tid choice σ =
    if (0 <? Interval (bOptions b))%Z then
      Some (setPc tid (Looping false)
              (record (Goroutine tid) [OpNewTicker (Interval (bOptions b))] σ))
    else Some (panic tid "non-positive interval for NewTicker" σ).
Proof. intros Ht Hpc Hb. unfold stepTask. by rewrite Ht, Hpc, Hb. Qed.

(** A tick taken at the [select]: one pass. *)
Lemma stepTask_tick tid σ t b l :
  tasks σ !! tid = Some t ->
  pc t = Looping true ->
  heap σ !! currentBackend t = Some b ->
  balancers σ !! LB (bOptions b) = Some l ->
  let s := {| backend := b; balancer := l; network := net σ; trace := [] |} in
  exists σ', stepTask tid OnTick σ = Some σ'
    /\ tasks σ' = <[tid := withPc (Looping false) t]> (tasks σ)
    /\ history σ' = history σ ++ tag tid (refreshLog (currentBackendID t) :: passEvents s)
    /\ heap σ' = <[currentBackend t := backend (afterPass s)]> (heap σ)
    /\ balancers σ' = <[LB (bOptions b) := balancer (afterPass s)]> (balancers σ)
    /\ net σ' = network (afterPass s)
    /\ cancelled σ' = cancelled σ.
Proof.
  intros Ht Hpc Hb Hl. cbv zeta. unfold stepTask. rewrite Ht, Hpc.
  match goal with |- context [runPass tid _ ?σ1] =>
    destruct (runPass_Some tid (currentBackend t) σ1 b l Hb Hl)
      as (σ2 & Hrun & Hts & _ & Hc & Hh & Hbs & Hn & Hhist) end.
  rewrite Hrun. eexists. split; [done|].
  rewrite setPc_history, setPc_heap, setPc_balancers, setPc_net.
  unfold setPc. rewrite Hts. simpl. rewrite Ht. simpl.
  rewrite Hhist, Hh, Hbs, Hn. simpl. rewrite <- app_assoc.
  repeat split; done.
Qed.

(** The [select] without a ready case blocks. *)
Lemma stepTask_blocked tid σ t :
  tasks σ !! tid = Some t ->
  pc t = Looping false ->
  stepTask tid OnTick σ = None.
Proof. intros Ht Hpc. unfold stepTask. by rewrite Ht, Hpc. Qed.

(** Cancellation seen at the [select]. *)
Lemma stepTask_done tid σ t tick :
  tasks σ !! tid = Some t ->
  pc t = Looping tick ->
  stepTask tid OnDone σ =
    if isDone (ctx t) σ then
      Some (setPc tid Stopped
              (wgAdd (-1) (record (Goroutine tid) [OpEvent stopLog; OpTickerStop] σ)))
    else None.
Proof. intros Ht Hpc. unfold stepTask. by rewrite Ht, Hpc. Qed.

Lemma stepTask_ended tid choice σ t :
  tasks σ !! tid = Some t ->
  pc t = Stopped \/ pc t = Panicked ->
  stepTask tid choice σ = None /\ fireTicker tid σ = σ.
Proof.
  intros Ht Hpc. unfold stepTask, fireTicker. rewrite Ht.
  by destruct Hpc as [-> | ->].
Qed.

End MonitorFacts.

(** *** What a goroutine can touch *)

Section Frame.
Context {L : Type} `{!LoadBalancer L}.
Implicit Types (σ : System L) (t : Task).

Lemma runPass_frame tid p σ σ' :
  runPass tid p σ = Some σ' ->
  tasks σ' = tasks σ
  /\ exists ops, history σ' = history σ ++ ((fun op => (Goroutine tid, op)) <$> ops).
Proof.
  unfold runPass. destruct (heap σ !! p) as [b|]; [|done].
  destruct (balancers σ !! LB (bOptions b)) as [l|]; [|done].
  intros [= <-]. simpl. split; [done|]. by eexists.
Qed.

Lemma panic_frame tid msg σ :
  length (tasks (panic tid msg σ)) = length (tasks σ)
  /\ history (panic tid msg σ) = history σ ++ [(Goroutine tid, OpPanic msg)].
Proof. unfold panic. by rewrite setPc_length, setPc_history. Qed.

(** A step of goroutine [tid] needs the goroutine to exist, starts no
    goroutine, and adds to the history under the name of [tid] only. *)
Lemma stepTask_frame tid choice σ σ' :
  stepTask tid choice σ = Some σ' ->
  tid < length (tasks σ)
  /\ length (tasks σ') = length (tasks σ)
  /\ exists ops, history σ' = history σ ++ ((fun op => (Goroutine tid, op)) <$> ops).
Proof.
  unfold stepTask. destruct (tasks σ !! tid) as [t|] eqn:Ht; [|done].
  intros Hstep. split; [by eapply lookup_lt_Some|].
  destruct (pc t) as [| |tick| |]; try done.
  - match type of Hstep with context [runPass tid ?p ?σ1] =>
      destruct (runPass tid p σ1) as [σ2|] eqn:Hrun end.
    + injection Hstep as <-. apply runPass_frame in Hrun as [Hts [ops Hh]].
      rewrite setPc_length, setPc_history, Hts, Hh. simpl. split; [done|].
      exists (OpEvent (initialLog (currentBackendID t)) :: ops). by rewrite <- app_assoc.
    + injection Hstep as <-. destruct (panic_frame tid "nil pointer dereference"
        (record (Goroutine tid) [OpEvent (initialLog (currentBackendID t))] (wgAdd 1 σ))) as [Hlen Hh].
      rewrite Hlen, Hh. simpl. split; [done|].
      exists [OpEvent (initialLog (currentBackendID t)); OpPanic "nil pointer dereference"].
      by rewrite <- app_assoc.
  - destruct (heap σ !! currentBackend t) as [b|].
    + destruct (0 <? Interval (bOptions b))%Z; injection Hstep as <-.
      * rewrite setPc_length, setPc_history. simpl. split; [done|]. by eexists [_].
      * destruct (panic_frame tid "non-positive interval for NewTicker" σ) as [Hlen Hh].
        rewrite Hlen, Hh. split; [done|]. by eexists [_].
    + injection Hstep as <-.
      destruct (panic_frame tid "nil pointer dereference" σ) as [Hlen Hh].
      rewrite Hlen, Hh. split; [done|]. by eexists [_].
  - destruct choice.
    + destruct (isDone (ctx t) σ); [|done]. injection Hstep as <-.
      rewrite setPc_length, setPc_history. simpl. split; [done|]. by eexists [_; _].
    + destruct tick; [|done].
      match type of Hstep with context [runPass tid ?p ?σ1] =>
        destruct (runPass tid p σ1) as [σ2|] eqn:Hrun end.
      * injection Hstep as <-. apply runPass_frame in Hrun as [Hts [ops Hh]].
        rewrite setPc_length, setPc_history, Hts, Hh. simpl. split; [done|].
        exists (OpEvent (refreshLog (currentBackendID t)) :: ops). by rewrite <- app_assoc.
      * injection Hstep as <-.
        match goal with |- context [panic tid ?m ?σ1] =>
          destruct (panic_frame tid m σ1) as [Hlen Hh] end.
        rewrite Hlen, Hh. simpl. split; [done|].
        exists [OpEvent (refreshLog (currentBackendID t)); OpTickerStop; OpPanic "nil pointer dereference"].
        by rewrite <- !app_assoc.
Qed.

Lemma fireTicker_frame tid σ :
  length (tasks (fireTicker tid σ)) = length (tasks σ)
  /\ history (fireTicker tid σ) = history σ.
Proof.
  unfold fireTicker. destruct (tasks σ !! tid) as [t|]; [|done].
  destruct (pc t); try done. by rewrite setPc_length, setPc_history.
Qed.

(** Without a reconfiguration no goroutine is started, and whatever happens
    is done by the goroutines there are. *)
Lemma run_frame acts σ σ' :
  Forall notConfigure acts ->
  run acts σ = Some σ' ->
  length (tasks σ') = length (tasks σ)
  /\ exists h, history σ' = history σ ++ h
       /\ Forall (fun x => exists tid, x.1 = Goroutine tid /\ tid < length (tasks σ)) h.
Proof.
  intros Hacts. revert σ. induction Hacts as [|a acts Ha _ IH]; intros σ; simpl.
  - intros [= <-]. split; [done|]. exists []. by rewrite app_nil_r.
  - destruct (act a σ) as [σ1|] eqn:Hact; [|done]. intros Hrun.
    destruct (IH σ1 Hrun) as (Hlen & h & Hh & Hall).
    assert (Hone : length (tasks σ1) = length (tasks σ)
      /\ exists h1, history σ1 = history σ ++ h1
           /\ Forall (fun x => exists tid, x.1 = Goroutine tid /\ tid < length (tasks σ)) h1).
    { destruct a as [tid choice|tid|c|p bs]; simpl in Hact; [| | |done].
      - apply stepTask_frame in Hact as (Hlt & Hl1 & ops & Hops).
        split; [done|]. eexists. split; [done|].
        apply Forall_fmap, Forall_forall. intros op _. by exists tid.
      - injection Hact as <-. destruct (fireTicker_frame tid σ) as [Hl1 Hh1].
        split; [done|]. exists []. by rewrite app_nil_r.
      - injection Hact as <-. split; [done|]. exists []. by rewrite app_nil_r. }
    destruct Hone as (Hl1 & h1 & Hh1 & Hall1).
    split; [congruence|]. exists (h1 ++ h). split.
    + by rewrite Hh, Hh1, <- app_assoc.
    + apply Forall_app. split; [done|]. by rewrite <- Hl1.
Qed.

End Frame.

(** *** Every goroutine is a monitor *)

Section LifecycleFacts.
Context {L : Type} `{!LoadBalancer L}.
Implicit Types (σ : System L) (t : Task).

Lemma opsOf_app tid h1 h2 : opsOf tid (h1 ++ h2) = opsOf tid h1 ++ opsOf tid h2.
Proof. apply omap_app. Qed.

Lemma opsOf_own tid (ops : list Op) :
  opsOf tid ((fun op => (Goroutine tid, op)) <$> ops) = ops.
Proof.
  induction ops as [|op ops IH]; [done|].
  unfold opsOf in *. simpl. rewrite decide_True by done. simpl. by f_equal.
Qed.

Lemma opsOf_other tid i (ops : list Op) :
  i <> tid -> opsOf tid ((fun op => (Goroutine i, op)) <$> ops) = [].
Proof.
  intros Hne. induction ops as [|op ops IH]; [done|].
  unfold opsOf in *. simpl. by rewrite decide_False by done.
Qed.

Lemma opsOf_registry tid (h : list (Origin * Op)) :
  Forall (fun x => x.1 = Registry) h -> opsOf tid h = [].
Proof.
  induction 1 as [|[who op] h Hx _ IH]; [done|].
  simpl in Hx. subst. unfold opsOf in *. simpl. done.
Qed.

Lemma goOps_registry n kvs : Forall (fun x => x.1 = Registry) (goOps n kvs).
Proof.
  unfold goOps. apply Forall_forall. intros x Hx.
  apply list_elem_of_lookup in Hx as [i Hi].
  rewrite list_lookup_imap in Hi.
  destruct (kvs !! i); simpl in Hi; [|done]. by injection Hi as <-.
Qed.

(** A pass, whoever makes it. *)
Lemma runPass_cases tid p σ σ' :
  runPass tid p σ = Some σ' ->
  tasks σ' = tasks σ
  /\ exists s : State L, history σ' = history σ ++ tag tid (passEvents s).
Proof.
  unfold runPass. destruct (heap σ !! p) as [b|]; [|done].
  destruct (balancers σ !! LB (bOptions b)) as [l|]; [|done].
  intros [= <-]. simpl. split; [done|].
  eexists. by rewrite trace_afterPass_empty.
Qed.

Lemma panic_cases tid msg σ t :
  tasks σ !! tid = Some t ->
  tasks (panic tid msg σ) = <[tid := withPc Panicked t]> (tasks σ)
  /\ history (panic tid msg σ) = history σ ++ [(Goroutine tid, OpPanic msg)].
Proof.
  intros Ht. unfold panic. rewrite setPc_history. split; [|done].
  unfold setPc. simpl. by rewrite Ht.
Qed.

(** A step of a goroutine is a step of the monitor. *)
Lemma stepTask_cases tid choice σ σ' t :
  tasks σ !! tid = Some t ->
  stepTask tid choice σ = Some σ' ->
  exists p' new,
    tasks σ' = <[tid := withPc p' t]> (tasks σ)
    /\ history σ' = history σ ++ ((fun op => (Goroutine tid, op)) <$> new)
    /\ Step (L := L) (currentBackendID t) (pc t) new p'.
Proof.
  intros Ht. unfold stepTask. rewrite Ht.
  destruct (pc t) as [| |tick| |] eqn:Hpc; try done.
  - match goal with |- context [runPass tid ?p ?σ1] =>
      destruct (runPass tid p σ1) as [σ2|] eqn:Hrun end; intros [= <-].
    + apply runPass_cases in Hrun as [Hts [s Hh]]. simpl in *.
      exists Checked, (OpEvent <$> initialLog (currentBackendID t) :: passEvents s).
      split; [|split].
      * unfold setPc. by rewrite Hts, Ht.
      * rewrite setPc_history, Hh. unfold tag. simpl. by rewrite <- app_assoc.
      * constructor.
    + match goal with |- context [panic tid ?m ?σ1] =>
        destruct (panic_cases tid m σ1 t Ht) as [Hts Hh] end.
      exists Panicked, [OpEvent (initialLog (currentBackendID t));
                        OpPanic "nil pointer dereference"].
      rewrite Hts, Hh. simpl. split; [done|]. split; [by rewrite <- app_assoc|].
      constructor.
  - destruct (heap σ !! currentBackend t) as [b|].
    + destruct (0 <? Interval (bOptions b))%Z eqn:Hpos; intros [= <-].
      * exists (Looping false), [OpNewTicker (Interval (bOptions b))].
        rewrite setPc_history. unfold setPc. simpl. rewrite Ht.
        split; [done|]. split; [done|]. constructor. lia.
      * destruct (panic_cases tid "non-positive interval for NewTicker" σ t Ht)
          as [Hts Hh].
        exists Panicked, [OpPanic "non-positive interval for NewTicker"].
        rewrite Hts, Hh. split; [done|]. split; [done|].
        apply (StepNoTicker _ (Interval (bOptions b))). lia.
    + intros [= <-].
      destruct (panic_cases tid "nil pointer dereference" σ t Ht) as [Hts Hh].
      exists Panicked, [OpPanic "nil pointer dereference"].
      rewrite Hts, Hh. split; [done|]. split; [done|]. apply StepNilTicker.
  - destruct choice.
    + destruct (isDone (ctx t) σ); [|done]. intros [= <-].
      exists Stopped, [OpEvent stopLog; OpTickerStop].
      rewrite setPc_history. unfold setPc. simpl. rewrite Ht.
      split; [done|]. split; [done|]. constructor.
    + destruct tick; [|done].
      match goal with |- context [runPass tid ?p ?σ1] =>
        destruct (runPass tid p σ1) as [σ2|] eqn:Hrun end; intros [= <-].
      * apply runPass_cases in Hrun as [Hts [s Hh]]. simpl in *.
        exists (Looping false),
               (OpEvent <$> refreshLog (currentBackendID t) :: passEvents s).
        split; [|split].
        -- unfold setPc. by rewrite Hts, Ht.
        -- rewrite setPc_history, Hh. unfold tag. simpl. by rewrite <- app_assoc.
        -- constructor.
      * match goal with |- context [panic tid ?m ?σ1] =>
          destruct (panic_cases tid m σ1 t Ht) as [Hts Hh] end.
        exists Panicked, [OpEvent (refreshLog (currentBackendID t)); OpTickerStop;
                          OpPanic "nil pointer dereference"].
        rewrite Hts, Hh. simpl. split; [done|]. split; [by rewrite <- !app_assoc|].
        constructor.
Qed.

(** A move of goroutine [i] that is a step of the monitor keeps every
    goroutine a monitor. *)
Lemma lifecycles_move σ σ' i t p' new :
  lifecycles σ ->
  tasks σ !! i = Some t ->
  tasks σ' = <[i := withPc p' t]> (tasks σ) ->
  history σ' = history σ ++ ((fun op => (Goroutine i, op)) <$> new) ->
  Step (L := L) (currentBackendID t) (pc t) new p' ->
  lifecycles σ'.
Proof.
  intros Hlc Ht Hts Hh Hstep tid. specialize (Hlc tid).
  rewrite Hts, Hh, opsOf_app.
  destruct (decide (tid = i)) as [->|Hne].
  - rewrite list_lookup_insert_eq by by eapply lookup_lt_Some.
    rewrite Ht in Hlc. rewrite opsOf_own. simpl. by eapply LifeStep.
  - rewrite list_lookup_insert_ne by done.
    by rewrite opsOf_other, app_nil_r.
Qed.

Lemma lifecycles_act a σ σ' :
  lifecycles σ -> act a σ = Some σ' -> lifecycles σ'.
Proof.
  intros Hlc. destruct a as [i choice|i|c|parentCtx backends]; simpl.
  - intros Hstep.
    destruct (tasks σ !! i) as [t|] eqn:Ht;
      [|by unfold stepTask in Hstep; rewrite Ht in Hstep].
    destruct (stepTask_cases i choice σ σ' t Ht Hstep) as (p' & new & Hts & Hh & Hs).
    by eapply lifecycles_move.
  - intros [= <-]. unfold fireTicker.
    destruct (tasks σ !! i) as [t|] eqn:Ht; [|done].
    destruct (pc t) as [| |tick| |] eqn:Hpc; try done.
    eapply (lifecycles_move σ _ i t (Looping true) []); [done | done | | | ].
    + unfold setPc. by rewrite Ht.
    + rewrite setPc_history. simpl. by rewrite app_nil_r.
    + rewrite Hpc. constructor.
  - by intros [= <-].
  - intros [= <-] tid. specialize (Hlc tid).
    rewrite SetBackendsConfiguration_eq. cbn [tasks history].
    rewrite opsOf_app, (opsOf_registry tid (_ ++ _)), app_nil_r.
    2: { repeat (apply Forall_app; split); try (by repeat constructor).
         - destruct (cancel (hc σ)); by repeat constructor.
         - apply goOps_registry. }
    destruct (tasks σ !! tid) as [t|] eqn:Ht.
    + by rewrite (lookup_app_l_Some _ _ _ _ Ht).
    + rewrite lookup_app_r by by apply lookup_ge_None.
      rewrite list_lookup_fmap.
      destruct (map_to_list backends !! (tid - length (tasks σ))) as [kv|]; simpl.
      * rewrite Hlc. constructor.
      * done.
Qed.

Lemma lifecycles_run acts σ σ' :
  lifecycles σ -> run acts σ = Some σ' -> lifecycles σ'.
Proof.
  revert σ. induction acts as [|a acts IH]; intros σ Hlc; simpl.
  - by intros [= <-].
  - destruct (act a σ) as [σ1|] eqn:Hact; [|done].
    apply IH. by eapply lifecycles_act.
Qed.

Lemma lifecycles_boot objs (lbs : gmap positive L) n : lifecycles (boot objs lbs n).
Proof. intros tid. simpl. done. Qed.

(** Before its first step a monitor has done nothing. *)
Lemma Life_spawned id ops : Life (L := L) id Spawned ops -> ops = [].
Proof.
  intros H. inversion H as [|p pre new p' _ Hstep]; [done|]. inversion Hstep.
Qed.

(** A monitor that got beyond its start began with the initial pass, or died
    trying. *)
Lemma Life_initial id p ops :
  Life (L := L) id p ops ->
  p <> Spawned ->
  (exists (s : State L) rest,
      ops = (OpEvent <$> initialLog id :: passEvents s) ++ rest)
  \/ (exists msg, p = Panicked /\ ops = [OpEvent (initialLog id); OpPanic msg]).
Proof.
  induction 1 as [|p ops new p' Hlife IH Hstep]; [done|]. intros _.
  assert (Hlater : p <> Spawned ->
    exists (s : State L) rest,
      ops ++ new = (OpEvent <$> initialLog id :: passEvents s) ++ rest).
  { intros Hne. destruct (IH Hne) as [(s & rest & ->)|(msg & -> & _)].
    - exists s, (rest ++ new). by rewrite app_assoc.
    - inversion Hstep. }
  destruct Hstep; try (left; by apply Hlater).
  - apply Life_spawned in Hlife as ->. left. exists s, []. by rewrite app_nil_r.
  - apply Life_spawned in Hlife as ->. right. by exists msg.
Qed.

(** A monitor that stopped did so by releasing its ticker, and before that
    it was waiting at the [select]. *)
Lemma Life_stopped id ops :
  Life (L := L) id Stopped ops ->
  exists tick pre, Life (L := L) id (Looping tick) pre
    /\ ops = pre ++ [OpEvent stopLog; OpTickerStop].
Proof.
  intros H. inversion H as [|p pre new p' Hlife Hstep]; subst.
  inversion Hstep; subst. by exists tick, pre.
Qed.

(** Nothing follows the stop. *)
Lemma Step_ended id p new p' :
  Step (L := L) id p new p' -> p <> Stopped /\ p <> Panicked.
Proof. by inversion 1. Qed.

End LifecycleFacts.

(** What a goroutine can do, state by state. *)
Lemma monitor_steps {L} `{!LoadBalancer L} (σ : System L) (tid : nat) (t : Task)
    (b : BackendHealthCheck) (l : L) (choice : Select) :
  tasks σ !! tid = Some t ->
  heap σ !! currentBackend t = Some b ->
  balancers σ !! LB (bOptions b) = Some l ->
  let s := {| backend := b; balancer := l; network := net σ; trace := [] |} in
  (pc t = Spawned ->
     fireTicker tid σ = σ
     /\ exists σ', stepTask tid choice σ = Some σ'
          /\ tasks σ' !! tid = Some (withPc Checked t)
          /\ history σ' = history σ ++ tag tid (initialLog (currentBackendID t) :: passEvents s)
          /\ heap σ' !! currentBackend t = Some (backend (afterPass s)))
  /\ (pc t = Checked ->
      (0 < Interval (bOptions b))%Z ->
      exists σ', stepTask tid choice σ = Some σ'
        /\ tasks σ' !! tid = Some (withPc (Looping false) t)
        /\ history σ' = history σ ++ [(Goroutine tid, OpNewTicker (Interval (bOptions b)))])
  /\ (pc t = Looping true ->
      exists σ', stepTask tid OnTick σ = Some σ'
        /\ tasks σ' !! tid = Some (withPc (Looping false) t)
        /\ history σ' = history σ ++ tag tid (refreshLog (currentBackendID t) :: passEvents s)
        /\ heap σ' !! currentBackend t = Some (backend (afterPass s)))
  /\ (pc t = Looping false -> stepTask tid OnTick σ = None)
  /\ (forall tick,
        pc t = Looping tick ->
        tasks (fireTicker tid σ) !! tid = Some (withPc (Looping true) t))
  /\ (forall tick,
        pc t = Looping tick ->
        isDone (ctx t) σ = true ->
        exists σ', stepTask tid OnDone σ = Some σ'
          /\ tasks σ' !! tid = Some (withPc Stopped t)
          /\ history σ' = history σ ++ [(Goroutine tid, OpEvent stopLog);
                                        (Goroutine tid, OpTickerStop)])
  /\ (forall tick,
        pc t = Looping tick -> isDone (ctx t) σ = false -> stepTask tid OnDone σ = None)
  /\ (pc t = Stopped -> stepTask tid choice σ = None /\ fireTicker tid σ = σ).
Proof.
  intros Ht Hb Hl. cbv zeta.
  assert (Hlt : tid < length (tasks σ)) by by eapply lookup_lt_Some.
  split; [|split; [|split; [|split; [|split; [|split; [|split]]]]]].
  - intros Hpc. split; [unfold fireTicker; by rewrite Ht, Hpc|].
    destruct (stepTask_Spawned tid choice σ t b l Ht Hpc Hb Hl)
      as (σ' & Hstep & Hts & Hh & Hhp & _).
    exists σ'. split; [done|]. rewrite Hts, Hh, Hhp.
    split; [by apply list_lookup_insert_eq|]. split; [done|]. apply lookup_insert_eq.
  - intros Hpc Hpos. rewrite (stepTask_Checked tid choice σ t b Ht Hpc Hb).
    assert ((0 <? Interval (bOptions b))%Z = true) as -> by lia.
    eexists. split; [done|]. rewrite setPc_history. split; [|done].
    by apply setPc_lookup.
  - intros Hpc.
    destruct (stepTask_tick tid σ t b l Ht Hpc Hb Hl)
      as (σ' & Hstep & Hts & Hh & Hhp & _).
    exists σ'. split; [done|]. rewrite Hts, Hh, Hhp.
    split; [by apply list_lookup_insert_eq|]. split; [done|]. apply lookup_insert_eq.
  - intros Hpc. by eapply stepTask_blocked.
  - intros tick Hpc. unfold fireTicker. rewrite Ht, Hpc. by apply setPc_lookup.
  - intros tick Hpc Hd. rewrite (stepTask_done tid σ t tick Ht Hpc), Hd.
    eexists. split; [done|]. rewrite setPc_history. split; [|done].
    by apply setPc_lookup.
  - intros tick Hpc Hd. by rewrite (stepTask_done tid σ t tick Ht Hpc), Hd.
  - intros Hpc. apply (stepTask_ended tid choice σ t Ht). by left.
Qed.

(** * Reconfiguration *)

(** C5: [SetBackendsConfiguration] stores the new set, then cancels the
    previous generation if there is one, then derives a new cancellable
    context from the parent (done when the parent is or when its own signal
    is raised, and not before if the signal is new) and starts one goroutine
    per entry of the new set, each with that context and yet to run.  With
    an empty set it starts none, and whatever happens afterwards (short of
    another reconfiguration) is done by goroutines that were there before; on
    a registry without goroutines nothing happens at all, so no balancer is
    ever asked for its servers. *)
Theorem SetBackendsConfiguration_generation {L} `{!LoadBalancer L}
    (parentCtx : context.Context) (backends : gmap string positive) (σ : System L) :
  let σ' := SetBackendsConfiguration parentCtx backends σ in
  let c := nextSignal σ in
  history σ' = history σ ++ configured parentCtx backends σ
  /\ configured parentCtx backends σ
     = [(Registry, OpSetBackends backends)]
       ++ match cancel (hc σ) with
          | Some c0 => [(Registry, OpCancel c0)]
          | None => []
          end
       ++ [(Registry, OpWithCancel parentCtx c)]
       ++ goOps (length (tasks σ)) (map_to_list backends)
  /\ Backends (hc σ') = backends
  /\ (forall c0, cancel (hc σ) = Some c0 -> cancelled σ' = {[c0]} ∪ cancelled σ)
  /\ (cancel (hc σ) = None -> cancelled σ' = cancelled σ)
  /\ cancel (hc σ') = Some c
  /\ nextSignal σ' = S c
  /\ (forall σx : System L,
        isDone parentCtx σx = true \/ c ∈ cancelled σx ->
        isDone (c :: parentCtx) σx = true)
  /\ ((forall c0, c0 ∈ cancelled σ \/ cancel (hc σ) = Some c0 -> c0 < c) ->
      isDone (c :: parentCtx) σ' = isDone parentCtx σ')
  /\ tasks σ' = tasks σ ++ started parentCtx backends σ
  /\ (forall t, t ∈ started parentCtx backends σ
        <-> exists id p, backends !! id = Some p
              /\ t = {| currentBackendID := id; currentBackend := p;
                        ctx := c :: parentCtx; pc := Spawned |})
  /\ (forall id,
        length (filter (fun t => currentBackendID t = id) (started parentCtx backends σ))
        = if decide (is_Some (backends !! id)) then 1 else 0)
  /\ length (started parentCtx backends σ) = size backends
  /\ (backends = ∅ ->
      started parentCtx backends σ = []
      /\ forall acts σ'',
           Forall notConfigure acts ->
           run acts σ' = Some σ'' ->
           length (tasks σ'') = length (tasks σ)
           /\ (exists h, history σ'' = history σ' ++ h
                 /\ Forall (fun x => exists tid, x.1 = Goroutine tid
                                       /\ tid < length (tasks σ)) h)
           /\ (tasks σ = [] -> history σ'' = history σ')).
Proof.
  cbv zeta.
  assert (Hst := started_eq parentCtx backends σ).
  assert (Hcf := configured_eq parentCtx backends σ).
  rewrite Hcf. rewrite SetBackendsConfiguration_eq. simpl.
  split; [done|]. split; [done|]. split; [done|].
  split; [by intros c0 ->|]. split; [by intros ->|].
  split; [done|]. split; [done|]. split.
  { intros σx [Hp|Hc]; unfold isDone; simpl.
    - unfold isDone in Hp. rewrite Hp. by destruct (bool_decide _).
    - by rewrite bool_decide_eq_true_2. }
  split.
  { intros Hfresh. unfold isDone. simpl. rewrite bool_decide_eq_false_2; [done|].
    destruct (cancel (hc σ)) as [c0|] eqn:Hc0.
    - intros [Hin|Hin]%elem_of_union.
      + apply elem_of_singleton in Hin.
        specialize (Hfresh c0 (or_intror eq_refl)). lia.
      + specialize (Hfresh _ (or_introl Hin)). lia.
    - intros Hin. specialize (Hfresh _ (or_introl Hin)). lia. }
  split; [by rewrite Hst|].
  split; [apply elem_of_started|]. split; [apply started_per_entry|].
  split; [by rewrite Hst, length_fmap, length_map_to_list|].
  intros ->. rewrite Hst, map_to_list_empty. split; [done|].
  intros acts σ'' Hacts Hrun.
  apply run_frame in Hrun as (Hlen & h & Hh & Hall); [|done].
  simpl in *. rewrite app_nil_r in *.
  split; [done|]. split; [by exists h|].
  intros Hnil. rewrite Hnil in Hall. simpl in Hall.
  destruct h as [|x h]; [by rewrite Hh, app_nil_r|].
  apply Forall_cons in Hall as [(tid & _ & Hlt) _]. lia.
Qed.

(** C4 (as stated) fails: a backend whose interval is zero gets its
    goroutine like any other; the goroutine makes its initial pass and then
    panics making the ticker. *)
Lemma zero_interval_monitor_started :
  tasks (SetBackendsConfiguration context.Background {["api" := 1%positive]} misconfigured)
  = [{| currentBackendID := "api"; currentBackend := 1%positive;
        ctx := [0]; pc := Spawned |}]
  /\ exists σ2 σ3,
       stepTask 0 OnTick
         (SetBackendsConfiguration context.Background {["api" := 1%positive]} misconfigured)
       = Some σ2
       /\ stepTask 0 OnTick σ2 = Some σ3
       /\ calls (eventsOf 0 (history σ2)) = [CServers]
       /\ pc <$> tasks σ3 !! 0 = Some Panicked
       /\ last (history σ3)
          = Some (Goroutine 0, OpPanic "non-positive interval for NewTicker").
Proof.
  split; [vm_compute; reflexivity|].
  destruct (stepTask 0 OnTick
    (SetBackendsConfiguration context.Background {["api" := 1%positive]} misconfigured))
    as [σ2|] eqn:H2; [|by vm_compute in H2].
  destruct (stepTask 0 OnTick σ2) as [σ3|] eqn:H3.
  - exists σ2, σ3. split; [done|]. split; [done|].
    vm_compute in H2. injection H2 as <-.
    vm_compute in H3. injection H3 as <-.
    split; [|split]; vm_compute; reflexivity.
  - vm_compute in H2. injection H2 as <-. by vm_compute in H3.
Qed.

(** C4 (as amended): [SetBackendsConfiguration] checks nothing: every entry
    gets its goroutine whatever the interval of its backend, and the
    configuration is stored as given; a goroutine whose backend has an
    interval that is not positive panics when it makes its ticker, after its
    initial pass and before it enters the loop. *)
Theorem SetBackendsConfiguration_checks_nothing {L} `{!LoadBalancer L}
    (parentCtx : context.Context) (backends : gmap string positive) (σ : System L) :
  Backends (hc (SetBackendsConfiguration parentCtx backends σ)) = backends
  /\ (forall id p,
        backends !! id = Some p ->
        {| currentBackendID := id; currentBackend := p;
           ctx := nextSignal σ :: parentCtx; pc := Spawned |}
          ∈ tasks (SetBackendsConfiguration parentCtx backends σ))
  /\ (forall tid t b l choice,
        tasks σ !! tid = Some t ->
        pc t = Spawned ->
        heap σ !! currentBackend t = Some b ->
        balancers σ !! LB (bOptions b) = Some l ->
        exists σ', stepTask tid choice σ = Some σ'
          /\ pc <$> tasks σ' !! tid = Some Checked
          /\ history σ' = history σ
               ++ tag tid (initialLog (currentBackendID t)
                    :: passEvents {| backend := b; balancer := l;
                                     network := net σ; trace := [] |}))
  /\ (forall tid t b choice,
        tasks σ !! tid = Some t ->
        pc t = Checked ->
        heap σ !! currentBackend t = Some b ->
        (Interval (bOptions b) <= 0)%Z ->
        exists σ', stepTask tid choice σ = Some σ'
          /\ pc <$> tasks σ' !! tid = Some Panicked
          /\ history σ' = history σ
               ++ [(Goroutine tid, OpPanic "non-positive interval for NewTicker")]).
Proof.
  split; [by rewrite SetBackendsConfiguration_eq|]. split; [|split].
  - intros id p Hp. rewrite SetBackendsConfiguration_eq. simpl.
    apply elem_of_app. right. rewrite <- started_eq. apply elem_of_started.
    by exists id, p.
  - intros tid t b l choice Ht Hpc Hb Hl.
    assert (Hlt : tid < length (tasks σ)) by by eapply lookup_lt_Some.
    destruct (stepTask_Spawned tid choice σ t b l Ht Hpc Hb Hl)
      as (σ' & Hstep & Hts & Hh & _).
    exists σ'. split; [done|]. rewrite Hts, Hh. split; [|done].
    by rewrite list_lookup_insert_eq.
  - intros tid t b choice Ht Hpc Hb Hle.
    rewrite (stepTask_Checked tid choice σ t b Ht Hpc Hb).
    assert ((0 <? Interval (bOptions b))%Z = false) as -> by lia.
    eexists. split; [done|].
    destruct (panic_frame tid "non-positive interval for NewTicker" σ) as [_ Hh].
    split; [|done]. unfold panic. by erewrite setPc_lookup.
Qed.

(** * The monitor *)

(** C6: the first thing a goroutine does is a pass, whatever the interval of
    its backend, when it has no ticker yet; with a positive interval it then
    makes its ticker and waits at the [select]; a tick that has fired makes it
    do one pass and is used up by that, and without a tick it does none; once
    its context is cancelled it stops at the [select], which releases the
    ticker, and a stopped goroutine does nothing more and gets no ticks.
    And that is all a goroutine ever does: however the process runs from its
    start, with reconfigurations, tickers firing, contexts cancelled and
    goroutines taking turns, what each goroutine has done is a life of the
    monitor (see [Step]): first the initial pass, last the release of the
    ticker if it has stopped. *)
Theorem monitor_lifecycle {L} `{!LoadBalancer L} :
  (forall (σ : System L) (tid : nat) (t : Task) (b : BackendHealthCheck) (l : L)
          (choice : Select),
     tasks σ !! tid = Some t ->
     heap σ !! currentBackend t = Some b ->
     balancers σ !! LB (bOptions b) = Some l ->
     let s := {| backend := b; balancer := l; network := net σ; trace := [] |} in
     (pc t = Spawned ->
        fireTicker tid σ = σ
        /\ exists σ', stepTask tid choice σ = Some σ'
             /\ tasks σ' !! tid = Some (withPc Checked t)
             /\ history σ' = history σ
                  ++ tag tid (initialLog (currentBackendID t) :: passEvents s)
             /\ heap σ' !! currentBackend t = Some (backend (afterPass s)))
     /\ (pc t = Checked ->
         (0 < Interval (bOptions b))%Z ->
         exists σ', stepTask tid choice σ = Some σ'
           /\ tasks σ' !! tid = Some (withPc (Looping false) t)
           /\ history σ' = history σ
                ++ [(Goroutine tid, OpNewTicker (Interval (bOptions b)))])
     /\ (pc t = Looping true ->
         exists σ', stepTask tid OnTick σ = Some σ'
           /\ tasks σ' !! tid = Some (withPc (Looping false) t)
           /\ history σ' = history σ
                ++ tag tid (refreshLog (currentBackendID t) :: passEvents s)
           /\ heap σ' !! currentBackend t = Some (backend (afterPass s)))
     /\ (pc t = Looping false -> stepTask tid OnTick σ = None)
     /\ (forall tick,
           pc t = Looping tick ->
           tasks (fireTicker tid σ) !! tid = Some (withPc (Looping true) t))
     /\ (forall tick,
           pc t = Looping tick ->
           isDone (ctx t) σ = true ->
           exists σ', stepTask tid OnDone σ = Some σ'
             /\ tasks σ' !! tid = Some (withPc Stopped t)
             /\ history σ' = history σ ++ [(Goroutine tid, OpEvent stopLog);
                                           (Goroutine tid, OpTickerStop)])
     /\ (forall tick,
           pc t = Looping tick -> isDone (ctx t) σ = false ->
           stepTask tid OnDone σ = None)
     /\ (pc t = Stopped -> stepTask tid choice σ = None /\ fireTicker tid σ = σ))
  /\ (forall objs (lbs : gmap positive L) n acts (σ : System L) tid t,
        run acts (boot objs lbs n) = Some σ ->
        tasks σ !! tid = Some t ->
        Life (L := L) (currentBackendID t) (pc t) (opsOf tid (history σ))
        /\ (pc t <> Spawned ->
            (exists (s : State L) rest,
               opsOf tid (history σ)
               = (OpEvent <$> initialLog (currentBackendID t) :: passEvents s) ++ rest)
            \/ (exists msg,
                  pc t = Panicked
                  /\ opsOf tid (history σ)
                     = [OpEvent (initialLog (currentBackendID t)); OpPanic msg]))
        /\ (pc t = Stopped ->
            exists tick pre,
              Life (L := L) (currentBackendID t) (Looping tick) pre
              /\ opsOf tid (history σ) = pre ++ [OpEvent stopLog; OpTickerStop])).
Proof.
  split.
  - intros σ tid t b l choice. apply monitor_steps.
  - intros objs lbs n acts σ tid t Hrun Ht.
    pose proof (lifecycles_run acts _ σ (lifecycles_boot objs lbs n) Hrun tid) as Hl.
    rewrite Ht in Hl. split; [done|]. split.
    + by apply Life_initial.
    + intros Hpc. rewrite Hpc in Hl. by apply Life_stopped.
Qed.

(** * Errors of the balancer *)

(** C7 (as stated) fails: a server comes back up while [UpsertServer] is out
    of order; the pass logs that the server is up, calls [UpsertServer], gets
    an error, and logs nothing about it. *)
Lemma upsert_error_not_logged :
  passEvents (afterPass (fresh apiOptions closed (netUpAfter 1)))
  = [EvServers;
     EvGet 5000000000%Z "http://10.0.0.2:80/health";
     EvBodyClose "http://10.0.0.2:80/health";
     EvLog DebugLevel "HealthCheck is up [http://10.0.0.2:80]: Upsert in server list";
     EvUpsertServer server2 [roundrobin.Weight 1] (Some "balancer unavailable")]
  /\ ~ surfaced (passEvents (afterPass (fresh apiOptions closed (netUpAfter 1)))).
Proof.
  assert (H : passEvents (afterPass (fresh apiOptions closed (netUpAfter 1)))
    = [EvServers;
       EvGet 5000000000%Z "http://10.0.0.2:80/health";
       EvBodyClose "http://10.0.0.2:80/health";
       EvLog DebugLevel "HealthCheck is up [http://10.0.0.2:80]: Upsert in server list";
       EvUpsertServer server2 [roundrobin.Weight 1] (Some "balancer unavailable")])
    by (vm_compute; reflexivity).
  split; [exact H|]. rewrite H. intros Hs.
  destruct (Hs 4 (EvUpsertServer server2 [roundrobin.Weight 1] (Some "balancer unavailable"))
              "balancer unavailable") as (j & txt & Hj & Hlk).
  - left. by exists server2, [roundrobin.Weight 1].
  - done.
  - do 5 (destruct j as [|j]; [lia|]). done.
Qed.

(** C7 (as amended): what [UpsertServer] and [RemoveServer] return is
    dropped.  The log lines of a pass are the health verdicts and nothing
    else; the disabled URLs are set as if every call had worked; two passes
    that start from the same backend, network and live list log, probe and
    disable the same, whatever their balancers answer; the next pass reads the
    live list again and probes what is disabled or live then; and the
    goroutine goes on after the pass, to the ticker or back to the [select]. *)
Theorem checkBackend_drops_balancer_errors {L} `{!LoadBalancer L} (s : State L) :
  logs (passEvents s)
  = (disabledLog <$> sweepVerdicts s) ++ (enabledLog <$> failed (enabledVerdicts s))
  /\ disabledURLs (backend (afterPass s))
     = failed (sweepVerdicts s) ++ failed (enabledVerdicts s)
  /\ (forall {L'} `{!LoadBalancer L'} (s' : State L'),
        backend s' = backend s ->
        network s' = network s ->
        Servers (balancer s') = Servers (balancer s) ->
        logs (passEvents s') = logs (passEvents s)
        /\ requests (passEvents s') = requests (passEvents s)
        /\ backend (afterPass s') = backend (afterPass s)
        /\ network (afterPass s') = network (afterPass s))
  /\ requests (passEvents (afterPass s))
     = request (backend s)
         <$> (disabledURLs (backend (afterPass s)) ++ Servers (balancer (afterPass s)))
  /\ (forall (σ : System L) tid t choice,
        tasks σ !! tid = Some t ->
        heap σ !! currentBackend t = Some (backend s) ->
        balancers σ !! LB (bOptions (backend s)) = Some (balancer s) ->
        (pc t = Spawned ->
           exists σ', stepTask tid choice σ = Some σ'
             /\ tasks σ' !! tid = Some (withPc Checked t))
        /\ (pc t = Looping true ->
           exists σ', stepTask tid OnTick σ = Some σ'
             /\ tasks σ' !! tid = Some (withPc (Looping false) t))).
Proof.
  destruct (afterPass_spec s) as (Hd & Ho & Hto & Hn & _).
  split; [apply logs_passEvents|]. split; [done|]. split; [|split].
  - intros L' LB' s' Hb Hnet Hsrv.
    destruct (afterPass_spec s') as (Hd' & Ho' & Hto' & Hn' & _).
    assert (Hv1 : sweepVerdicts s' = sweepVerdicts s).
    { unfold sweepVerdicts. by rewrite Hb, Hnet. }
    assert (Hv2 : enabledVerdicts s' = enabledVerdicts s).
    { unfold enabledVerdicts. by rewrite Hb, Hnet, Hsrv. }
    rewrite !logs_passEvents, !requests_passEvents, Hv1, Hv2, Hn', Hn, Hnet.
    rewrite Hb, Hsrv. split; [done|]. split; [done|]. split; [|done].
    destruct (backend (afterPass s')), (backend (afterPass s)). simpl in *.
    rewrite Hd', Hd, Ho', Ho, Hto', Hto, Hv1, Hv2, Hb. done.
  - rewrite requests_passEvents. f_equal.
    unfold request. by rewrite Ho, Hto.
  - intros σ tid t choice Ht Hb Hl.
    assert (Hlt : tid < length (tasks σ)) by by eapply lookup_lt_Some.
    split; intros Hpc.
    + destruct (stepTask_Spawned tid choice σ t _ _ Ht Hpc Hb Hl)
        as (σ' & Hstep & Hts & _).
      exists σ'. split; [done|]. rewrite Hts. by apply list_lookup_insert_eq.
    + destruct (stepTask_tick tid σ t _ _ Ht Hpc Hb Hl)
        as (σ' & Hstep & Hts & _).
      exists σ'. split; [done|]. rewrite Hts. by apply list_lookup_insert_eq.
Qed.

(** * The theorems at work *)

(** A probe of a server that answers 200 is healthy. *)
Lemma checkHealth_single_get_witness :
  (checkHealth server1 (NewBackendHealthCheck apiOptions)
     (fresh apiOptions twoServers netUp)).1 = true.
Proof.
  pose proof (checkHealth_single_get server1 (NewBackendHealthCheck apiOptions)
                (fresh apiOptions twoServers netUp)) as H.
  cbv zeta in H. destruct H as [[_ H] _]. apply H.
  exists {| http.StatusCode := 200 |}. split; reflexivity.
Defined.

(** A pass over one disabled server keeps the disabled URLs free of
    duplicates. *)
Lemma checkBackend_reconciles_witness :
  NoDup (disabledURLs (backend (oneDisabled netOneDown)))
  /\ NoDup (disabledURLs (backend (afterSweep (oneDisabled netOneDown)))).
Proof.
  pose proof (checkBackend_reconciles (oneDisabled netOneDown)) as H.
  cbv zeta in H. destruct H as (_ & _ & _ & _ & _ & _ & _ & _ & _ & _ & _ & H & _).
  assert (Hnd : NoDup (disabledURLs (backend (oneDisabled netOneDown))))
    by compute_done.
  split; [exact Hnd | exact (H Hnd)].
Defined.

(** The scenario of the specification: [server2] is down, then up again. *)
Lemma checkBackend_keeps_separated_witness :
  separated (oneDisabled netOneDown)
  /\ exactlyOne server2 (afterPass (oneDisabled netOneDown))
  /\ exactlyOne server1 (afterPass (oneDisabled netOneDown)).
Proof.
  assert (Hsep : separated (oneDisabled netOneDown)).
  { split; [compute_done|]. split; [compute_done|].
    intros u Hu. simpl in *. apply list_elem_of_singleton in Hu as ->.
    compute_done. }
  destruct (checkBackend_keeps_separated (oneDisabled netOneDown) Hsep) as (_ & _ & H & _).
  split; [exact Hsep|]. split; apply H.
  - left. compute_done.
  - right. compute_done.
Defined.

(** A disabled server that is still down is not probed a second time when
    it is not in the live list. *)
Lemma sweep_failure_reprobed_iff_live_witness :
  server2 ∈ failed (sweepVerdicts (oneDisabled netOneDown))
  /\ server2 ∈ disabledURLs (backend (afterPass (oneDisabled netOneDown)))
  /\ (request (backend (oneDisabled netOneDown)) server2
        ∉ requests (enabledEvents (oneDisabled netOneDown))).
Proof.
  assert (Hf : server2 ∈ failed (sweepVerdicts (oneDisabled netOneDown)))
    by compute_done.
  destruct (sweep_failure_reprobed_iff_live (oneDisabled netOneDown) server2 Hf)
    as (Hd & Hiff & _).
  split; [exact Hf|]. split; [exact Hd|].
  intros Hin. apply Hiff in Hin. revert Hin. compute_done.
Defined.

(** A disabled server that is up again is upserted and not probed in step 2. *)
Lemma checkBackend_snapshot_witness :
  server2 ∈ passed (sweepVerdicts (oneDisabled netUp))
  /\ upsertCall server2 ∈ calls (sweepEvents (oneDisabled netUp))
  /\ (request (backend (oneDisabled netUp)) server2
        ∉ requests (enabledEvents (oneDisabled netUp)))
  /\ server2 ∈ Servers (balancer (afterSweep (oneDisabled netUp))).
Proof.
  assert (Hp : server2 ∈ passed (sweepVerdicts (oneDisabled netUp))) by compute_done.
  destruct (checkBackend_snapshot (oneDisabled netUp)) as (_ & _ & H & Hlaw).
  destruct (H server2 Hp) as [Hc Hiff].
  split; [exact Hp|]. split; [exact Hc|]. split.
  - intros Hin. apply Hiff in Hin. revert Hin. compute_done.
  - exact (Hlaw ListBalancer_Lawful server2 Hp).
Defined.

(** The probes of a fresh backend are made with a timeout of five seconds. *)
Lemma requestTimeout_is_five_seconds_witness :
  (5000000000%Z, "http://10.0.0.1:80/health")
    ∈ requests (passEvents (passes 0 (fresh apiOptions twoServers netUp)))
  /\ 5000000000%Z = (5 * time.Second)%Z.
Proof.
  assert (Hin : (5000000000%Z, "http://10.0.0.1:80/health")
    ∈ requests (passEvents (passes 0 (fresh apiOptions twoServers netUp))))
    by compute_done.
  destruct (requestTimeout_is_five_seconds apiOptions twoServers netUp 0)
    as (_ & _ & _ & _ & H).
  split; [exact Hin | exact (H _ _ Hin)].
Defined.

(** Two balancers out of order in different ways, the same log. *)
Lemma checkBackend_drops_balancer_errors_witness :
  logs (passEvents (fresh apiOptions stuck netDown))
  = logs (passEvents (fresh apiOptions closed netDown))
  /\ exists σ', stepTask 0 OnTick (monitorAt (Looping true) false) = Some σ'
       /\ pc <$> tasks σ' !! 0 = Some (Looping false).
Proof.
  destruct (checkBackend_drops_balancer_errors (fresh apiOptions closed netDown))
    as (_ & _ & Hind & _).
  destruct (checkBackend_drops_balancer_errors
              {| backend := NewBackendHealthCheck apiOptions; balancer := twoServers;
                 network := netOneDown; trace := [] |})
    as (_ & _ & _ & _ & Hloop).
  split.
  - apply (Hind FaultyBalancer _ (fresh apiOptions stuck netDown)); reflexivity.
  - destruct (Hloop (monitorAt (Looping true) false) 0
                {| currentBackendID := "api"; currentBackend := 1%positive;
                   ctx := [0]; pc := Looping true |} OnTick)
      as [_ H]; [reflexivity | reflexivity | reflexivity |].
    destruct (H eq_refl) as (σ' & Hstep & Hts).
    exists σ'. split; [exact Hstep|]. by rewrite Hts.
Defined.

(** Reconfiguring with the empty set: the previous generation is cancelled,
    nothing is started, and the goroutine of before is the only one to act. *)
Lemma SetBackendsConfiguration_generation_witness :
  cancelled (SetBackendsConfiguration context.Background ∅ (monitorAt Spawned false))
  = {[0]} ∪ cancelled (monitorAt Spawned false)
  /\ started context.Background ∅ (monitorAt Spawned false) = []
  /\ exists σ'',
       run [ARun 0 OnTick]
         (SetBackendsConfiguration context.Background ∅ (monitorAt Spawned false))
       = Some σ''
       /\ length (tasks σ'') = 1.
Proof.
  pose proof (SetBackendsConfiguration_generation context.Background ∅
                (monitorAt Spawned false)) as H.
  cbv zeta in H.
  destruct H as (_ & _ & _ & Hc & _ & _ & _ & _ & _ & _ & _ & _ & _ & He).
  destruct (He eq_refl) as [Hs Hrun].
  split; [exact (Hc 0 eq_refl)|]. split; [exact Hs|].
  destruct (run [ARun 0 OnTick]
    (SetBackendsConfiguration context.Background ∅ (monitorAt Spawned false)))
    as [σ''|] eqn:Hr.
  - exists σ''. split; [reflexivity|].
    destruct (Hrun [ARun 0 OnTick] σ'') as (Hlen & _).
    + repeat constructor.
    + exact Hr.
    + exact Hlen.
  - exfalso. vm_compute in Hr. discriminate Hr.
Defined.

(** A backend with interval zero: started all the same, and its goroutine
    panics at the ticker. *)
Lemma SetBackendsConfiguration_checks_nothing_witness :
  {| currentBackendID := "api"; currentBackend := 1%positive;
     ctx := [0]; pc := Spawned |}
    ∈ tasks (SetBackendsConfiguration context.Background {["api" := 1%positive]}
               misconfigured)
  /\ exists σ',
       stepTask 0 OnTick
         (withTasks [{| currentBackendID := "api"; currentBackend := 1%positive;
                        ctx := [0]; pc := Checked |}] misconfigured)
       = Some σ'
       /\ pc <$> tasks σ' !! 0 = Some Panicked.
Proof.
  destruct (SetBackendsConfiguration_checks_nothing context.Background
              {["api" := 1%positive]} misconfigured) as (_ & Hgo & _).
  destruct (SetBackendsConfiguration_checks_nothing context.Background ∅
              (withTasks [{| currentBackendID := "api"; currentBackend := 1%positive;
                             ctx := [0]; pc := Checked |}] misconfigured))
    as (_ & _ & _ & Hpanic).
  split.
  - apply (Hgo "api" 1%positive). reflexivity.
  - destruct (Hpanic 0 {| currentBackendID := "api"; currentBackend := 1%positive;
                          ctx := [0]; pc := Checked |}
                (NewBackendHealthCheck zeroInterval) OnTick)
      as (σ' & Hstep & Hpc & _); [reflexivity | reflexivity | reflexivity | |].
    + vm_compute. discriminate.
    + exists σ'. split; [exact Hstep | exact Hpc].
Defined.

(** The life of the goroutine of the scenario: the initial pass, the ticker,
    a pass on a tick, the stop on cancellation; and a whole run of the
    process, at the end of which the goroutine has stopped. *)
Lemma monitor_lifecycle_witness :
  (exists σ', stepTask 0 OnDone (monitorAt Spawned false) = Some σ'
     /\ pc <$> tasks σ' !! 0 = Some Checked)
  /\ (exists σ', stepTask 0 OnDone (monitorAt Checked false) = Some σ'
        /\ pc <$> tasks σ' !! 0 = Some (Looping false))
  /\ (exists σ', stepTask 0 OnTick (monitorAt (Looping true) false) = Some σ'
        /\ pc <$> tasks σ' !! 0 = Some (Looping false))
  /\ stepTask 0 OnTick (monitorAt (Looping false) false) = None
  /\ (exists σ', stepTask 0 OnDone (monitorAt (Looping false) true) = Some σ'
        /\ pc <$> tasks σ' !! 0 = Some Stopped)
  /\ stepTask 0 OnDone (monitorAt (Looping false) false) = None
  /\ stepTask 0 OnTick (monitorAt Stopped true) = None
  /\ (exists σ,
        run [AConfigure context.Background {["api" := 1%positive]};
             ARun 0 OnTick; ARun 0 OnTick; AFire 0; ARun 0 OnTick;
             ARaise 0; ARun 0 OnDone] scenario = Some σ
        /\ pc <$> tasks σ !! 0 = Some Stopped
        /\ exists tick pre,
             Life (L := ListBalancer) "api" (Looping tick) pre
             /\ opsOf 0 (history σ) = pre ++ [OpEvent stopLog; OpTickerStop]).
Proof.
  pose proof (fun p stop choice =>
    proj1 monitor_lifecycle (monitorAt p stop) 0
      {| currentBackendID := "api"; currentBackend := 1%positive; ctx := [0]; pc := p |}
      (NewBackendHealthCheck apiOptions) twoServers choice
      eq_refl eq_refl eq_refl) as H.
  cbv zeta in H.
  split; [|split; [|split; [|split; [|split; [|split; [|split]]]]]].
  - destruct (H Spawned false OnDone) as (H1 & _).
    destruct (H1 eq_refl) as (_ & σ' & Hstep & Hts & _).
    exists σ'. split; [exact Hstep|]. by rewrite Hts.
  - destruct (H Checked false OnDone) as (_ & H2 & _).
    destruct H2 as (σ' & Hstep & Hts & _); [reflexivity | reflexivity |].
    exists σ'. split; [exact Hstep|]. by rewrite Hts.
  - destruct (H (Looping true) false OnTick) as (_ & _ & H3 & _).
    destruct (H3 eq_refl) as (σ' & Hstep & Hts & _).
    exists σ'. split; [exact Hstep|]. by rewrite Hts.
  - destruct (H (Looping false) false OnTick) as (_ & _ & _ & H4 & _).
    exact (H4 eq_refl).
  - destruct (H (Looping false) true OnDone) as (_ & _ & _ & _ & _ & H5 & _).
    destruct (H5 false eq_refl) as (σ' & Hstep & Hts & _); [reflexivity|].
    exists σ'. split; [exact Hstep|]. by rewrite Hts.
  - destruct (H (Looping false) false OnDone) as (_ & _ & _ & _ & _ & _ & H6 & _).
    exact (H6 false eq_refl eq_refl).
  - destruct (H Stopped true OnTick) as (_ & _ & _ & _ & _ & _ & _ & H7).
    exact (proj1 (H7 eq_refl)).
  - destruct (run [AConfigure context.Background {["api" := 1%positive]};
                   ARun 0 OnTick; ARun 0 OnTick; AFire 0; ARun 0 OnTick;
                   ARaise 0; ARun 0 OnDone] scenario) as [σ|] eqn:Hrun.
    + exists σ. split; [reflexivity|].
      assert (Ht : tasks σ !! 0
                   = Some {| currentBackendID := "api"; currentBackend := 1%positive;
                             ctx := [0]; pc := Stopped |}).
      { vm_compute in Hrun. injection Hrun as <-. reflexivity. }
      split; [by rewrite Ht|].
      destruct (proj2 monitor_lifecycle _ _ _ _ σ 0 _ Hrun Ht) as (_ & _ & Hstop).
      exact (Hstop eq_refl).
    + exfalso. vm_compute in Hrun. discriminate Hrun.
Defined.

(** * More about a pass *)

Lemma elem_of_verdicts b net (us : list url.URL) u v :
  (u, v) ∈ verdicts b net us <-> exists k, us !! k = Some u /\ verdict b net k u = v.
Proof.
  unfold verdicts. rewrite list_elem_of_lookup. split.
  - intros [k Hk]. rewrite list_lookup_imap in Hk.
    destruct (us !! k) as [w|] eqn:Hw; simpl in Hk; [|done].
    injection Hk as -> <-. by exists k.
  - intros (k & Hk & <-). exists k. by rewrite list_lookup_imap, Hk.
Qed.

(** Verdicts that do not depend on the moment of the probe. *)
Lemma elem_of_passed_steady b net (us : list url.URL) (h : url.URL -> bool) u :
  (forall k w, k < length us -> verdict b net k w = h w) ->
  u ∈ passed (verdicts b net us) <-> u ∈ us /\ h u = true.
Proof.
  intros Hh. rewrite elem_of_passed, elem_of_verdicts, list_elem_of_lookup. split.
  - intros (k & Hk & Hv). split; [by exists k|].
    rewrite <- (Hh k u); [done|]. by eapply lookup_lt_Some.
  - intros [[k Hk] Hu]. exists k. split; [done|].
    rewrite Hh; [done|]. by eapply lookup_lt_Some.
Qed.

Lemma elem_of_failed_steady b net (us : list url.URL) (h : url.URL -> bool) u :
  (forall k w, k < length us -> verdict b net k w = h w) ->
  u ∈ failed (verdicts b net us) <-> u ∈ us /\ h u = false.
Proof.
  intros Hh. rewrite elem_of_failed, elem_of_verdicts, list_elem_of_lookup. split.
  - intros (k & Hk & Hv). split; [by exists k|].
    rewrite <- (Hh k u); [done|]. by eapply lookup_lt_Some.
  - intros [[k Hk] Hu]. exists k. split; [done|].
    rewrite Hh; [done|]. by eapply lookup_lt_Some.
Qed.

Lemma verdicts_const b net (us : list url.URL) v :
  (forall k u, k < length us -> verdict b net k u = v) ->
  verdicts b net us = (fun u => (u, v)) <$> us.
Proof.
  revert net. induction us as [|u us IH]; intros net Hv; [done|].
  rewrite verdicts_cons, fmap_cons. f_equal.
  - f_equal. apply Hv. simpl. lia.
  - apply IH. intros k w Hk. rewrite verdict_advance. apply Hv. simpl. lia.
Qed.

Lemma passed_const (us : list url.URL) (v : bool) :
  passed ((fun u => (u, v)) <$> us) = if v then us else [].
Proof.
  induction us as [|u us IH]; [by destruct v|].
  rewrite fmap_cons, passed_cons, IH. by destruct v.
Qed.

Lemma failed_const (us : list url.URL) (v : bool) :
  failed ((fun u => (u, v)) <$> us) = if v then [] else us.
Proof.
  induction us as [|u us IH]; [by destruct v|].
  rewrite fmap_cons, failed_cons, IH. by destruct v.
Qed.

(** The live list after a pass, with a balancer whose calls take effect. *)
Lemma elem_of_Servers_afterPass {L} `{!LoadBalancer L} `{!Lawful L} (s : State L) x :
  x ∈ Servers (balancer (afterPass s))
  <-> (x ∉ failed (enabledVerdicts s))
      /\ (x ∈ passed (sweepVerdicts s) \/ x ∈ Servers (balancer s)).
Proof.
  destruct (afterPass_spec s) as (_ & _ & _ & _ & Hl & _).
  by rewrite Hl, foldl_app, elem_of_Servers_removes, elem_of_Servers_upserts.
Qed.

Lemma elem_of_disabled_afterPass {L} `{!LoadBalancer L} (s : State L) x :
  x ∈ disabledURLs (backend (afterPass s))
  <-> x ∈ failed (sweepVerdicts s) \/ x ∈ failed (enabledVerdicts s).
Proof.
  destruct (afterPass_spec s) as (Hd & _). by rewrite Hd, elem_of_app.
Qed.

(** X1: when the network answers the same for a URL throughout a pass and the
    calls on the balancer take effect, the pass sorts the URLs the backend
    knows by their health, whatever the two lists were before (they may have
    overlapped or held duplicates): after it the disabled URLs are the known
    URLs that are down, the live list is the known URLs that are up, and so
    every known URL is in exactly one of the two. *)
Theorem checkBackend_settles {L} `{!LoadBalancer L} `{!Lawful L} (s : State L) :
  steady s ->
  forall u,
    (u ∈ disabledURLs (backend (afterPass s))
       <-> known u s /\ verdict (backend s) (network s) 0 u = false)
    /\ (u ∈ Servers (balancer (afterPass s))
       <-> known u s /\ verdict (backend s) (network s) 0 u = true)
    /\ (known u s -> exactlyOne u (afterPass s)).
Proof.
  intros Hst u.
  set (h := fun w => verdict (backend s) (network s) 0 w).
  assert (H1 : forall k w, k < length (disabledURLs (backend s)) ->
                verdict (backend s) (network s) k w = h w).
  { intros k w Hk. apply Hst. lia. }
  assert (H2 : forall k w, k < length (Servers (balancer s)) ->
                verdict (backend s)
                  (advance (length (disabledURLs (backend s))) (network s)) k w = h w).
  { intros k w Hk. rewrite verdict_advance. apply Hst. lia. }
  assert (Hd : forall x, x ∈ disabledURLs (backend (afterPass s))
                <-> known x s /\ h x = false).
  { intros x. rewrite elem_of_disabled_afterPass. unfold sweepVerdicts, enabledVerdicts.
    rewrite (elem_of_failed_steady _ _ _ h x H1), (elem_of_failed_steady _ _ _ h x H2).
    unfold known. tauto. }
  assert (Hl : forall x, x ∈ Servers (balancer (afterPass s))
                <-> known x s /\ h x = true).
  { intros x. rewrite elem_of_Servers_afterPass. unfold sweepVerdicts, enabledVerdicts.
    rewrite (elem_of_failed_steady _ _ _ h x H2), (elem_of_passed_steady _ _ _ h x H1).
    unfold known. destruct (h x).
    - split.
      + intros [_ [[? _]|?]]; split; auto.
      + intros [[?|?] _]; (split; [intros [_ ?]; done | auto]).
    - split.
      + intros [Hn [[_ ?]|He]]; [done|]. exfalso. by apply Hn.
      + intros [_ ?]; done. }
  split; [apply Hd|]. split; [apply Hl|].
  intros Hk. unfold exactlyOne. rewrite Hd, Hl. fold (h u).
  destruct (h u); [right | left]; split; try done; intros [_ ?]; done.
Qed.

(** X2: when the disabled URLs and the live list are separated before a pass
    and the calls on the balancer take effect, every known URL is probed once
    in the pass, and after it the live list is the URLs whose probe passed
    and the disabled URLs are those whose probe failed, however the network
    changed between the probes. *)
Theorem checkBackend_sorts_by_verdict {L} `{!LoadBalancer L} `{!Lawful L} (s : State L) :
  separated s ->
  NoDup (disabledURLs (backend s) ++ Servers (balancer s))
  /\ requests (passEvents s)
     = request (backend s) <$> (disabledURLs (backend s) ++ Servers (balancer s))
  /\ forall u,
       (u ∈ disabledURLs (backend (afterPass s))
          <-> u ∈ failed (sweepVerdicts s) \/ u ∈ failed (enabledVerdicts s))
       /\ (u ∈ Servers (balancer (afterPass s))
          <-> u ∈ passed (sweepVerdicts s) \/ u ∈ passed (enabledVerdicts s))
       /\ ~ ((u ∈ passed (sweepVerdicts s) \/ u ∈ passed (enabledVerdicts s))
             /\ (u ∈ failed (sweepVerdicts s) \/ u ∈ failed (enabledVerdicts s))).
Proof.
  intros (HndD & HndE & Hsep).
  assert (H1 : (sweepVerdicts s).*1 = disabledURLs (backend s)) by apply verdicts_fst.
  assert (H2 : (enabledVerdicts s).*1 = Servers (balancer s)) by apply verdicts_fst.
  assert (Hin1 : forall x, x ∈ (sweepVerdicts s).*1 -> x ∉ (enabledVerdicts s).*1).
  { intros x. rewrite H1, H2. apply Hsep. }
  split; [|split].
  - apply NoDup_app. by repeat split.
  - apply requests_passEvents.
  - intros u. split; [apply elem_of_disabled_afterPass|]. split.
    + rewrite elem_of_Servers_afterPass. split.
      * intros [Hn [Hp|He]]; [by left|]. right.
        rewrite <- H2 in He. by destruct (passed_or_failed u _ He).
      * intros [Hp|Hp].
        -- split; [|by left]. intros Hf.
           eapply Hin1; [by apply elem_of_passed_fst | by apply elem_of_failed_fst].
        -- split; [|right; rewrite <- H2; by apply elem_of_passed_fst].
           intros Hf. eapply passed_failed_NoDup; [|exact Hp|exact Hf]. by rewrite H2.
    + intros [[Hp|Hp] [Hf|Hf]].
      * eapply passed_failed_NoDup; [|exact Hp|exact Hf]. by rewrite H1.
      * eapply Hin1; [by apply elem_of_passed_fst | by apply elem_of_failed_fst].
      * eapply Hin1; [by apply elem_of_failed_fst | by apply elem_of_passed_fst].
      * eapply passed_failed_NoDup; [|exact Hp|exact Hf]. by rewrite H2.
Qed.

(** X3: when every probe of a pass fails, the pass disables everything: no
    URL is upserted, [RemoveServer] is called for every URL of the live list,
    the disabled URLs become the old ones followed by the whole live list,
    and with a balancer whose calls take effect the live list is left empty.
    Nothing in [checkBackend] keeps a last server in the balancer. *)
Theorem checkBackend_total_outage {L} `{!LoadBalancer L} (s : State L) :
  allProbes false s ->
  disabledURLs (backend (afterPass s))
  = disabledURLs (backend s) ++ Servers (balancer s)
  /\ calls (passEvents s) = CServers :: (CRemoveServer <$> Servers (balancer s))
  /\ (Lawful L -> Servers (balancer (afterPass s)) = []).
Proof.
  intros Hall.
  assert (Hv1 : sweepVerdicts s = (fun u => (u, false)) <$> disabledURLs (backend s)).
  { apply verdicts_const. intros k u Hk. apply Hall. lia. }
  assert (Hv2 : enabledVerdicts s = (fun u => (u, false)) <$> Servers (balancer s)).
  { apply verdicts_const. intros k u Hk. rewrite verdict_advance. apply Hall. lia. }
  destruct (afterSweep_spec s) as (_ & _ & _ & ev1 & _ & He1 & Hc1 & _).
  destruct (afterPass_spec s) as (Hd & _ & _ & _ & _ & Hp & _ & Hc2 & _).
  rewrite Hv1, Hv2, !failed_const in Hd.
  rewrite Hv1, passed_const in Hc1. rewrite Hv2, failed_const in Hc2.
  split; [done|]. split.
  - rewrite Hp, !calls_app, He1, Hc1, Hc2. done.
  - intros Hlaw. apply elem_of_nil_inv. intros x.
    rewrite elem_of_Servers_afterPass, Hv1, Hv2, failed_const, passed_const.
    intros [Hn [Hx|Hx]]; [by apply elem_of_nil in Hx | done].
Qed.

(** X4: a pass over a backend with nothing disabled and every server of the
    live list up (an empty live list included) changes nothing: it asks for
    the live list, probes each of its URLs once, makes no other call on the
    balancer, writes no log line, and leaves the backend and the balancer as
    they were. *)
Theorem checkBackend_healthy_pool {L} `{!LoadBalancer L} (s : State L) :
  disabledURLs (backend s) = [] ->
  allProbes true s ->
  backend (afterPass s) = backend s
  /\ balancer (afterPass s) = balancer s
  /\ calls (passEvents s) = [CServers]
  /\ logs (passEvents s) = []
  /\ requests (passEvents s) = request (backend s) <$> Servers (balancer s)
  /\ network (afterPass s) = advance (length (Servers (balancer s))) (network s).
Proof.
  intros Hnil Hall.
  assert (Hv1 : sweepVerdicts s = []).
  { unfold sweepVerdicts. by rewrite Hnil. }
  assert (Hv2 : enabledVerdicts s = (fun u => (u, true)) <$> Servers (balancer s)).
  { apply verdicts_const. intros k u Hk. rewrite verdict_advance. apply Hall. lia. }
  destruct (afterSweep_spec s) as (_ & _ & _ & ev1 & _ & He1 & Hc1 & _).
  destruct (afterPass_spec s) as (Hd & Ho & Hto & Hn & Hl & Hp & _ & Hc2 & _).
  rewrite Hv1, Hv2, failed_const in Hd. rewrite Hv1, Hv2, failed_const in Hl.
  rewrite Hv1 in Hc1. rewrite Hv2, failed_const in Hc2.
  simpl in Hd, Hl, Hc1, Hc2.
  split; [|split; [|split; [|split; [|split]]]].
  - destruct (backend (afterPass s)), (backend s). simpl in *. by subst.
  - done.
  - rewrite Hp, !calls_app, He1, Hc1, Hc2. done.
  - rewrite logs_passEvents, Hv1, Hv2, failed_const. done.
  - by rewrite requests_passEvents, Hnil.
  - by rewrite Hn, Hnil.
Qed.

(** What has been disabled has been removed, and what is upserted had been
    removed: this goes from pass to pass. *)
Lemma afterPass_upserts {L} `{!LoadBalancer L} (s : State L) :
  upsertsFollowRemovals (calls (trace s)) ->
  (forall u, u ∈ disabledURLs (backend s) -> CRemoveServer u ∈ calls (trace s)) ->
  upsertsFollowRemovals (calls (trace (afterPass s)))
  /\ (forall u, u ∈ disabledURLs (backend (afterPass s)) ->
        CRemoveServer u ∈ calls (trace (afterPass s))).
Proof.
  intros Hups Hdis.
  destruct (afterSweep_spec s) as (_ & _ & _ & ev1 & _ & He1 & Hc1 & _).
  destruct (afterPass_spec s) as (Hd & _ & _ & _ & _ & Hp & Ht & Hc2 & _).
  assert (Hnew : calls (passEvents s)
    = CServers :: (upsertCall <$> passed (sweepVerdicts s))
        ++ (CRemoveServer <$> failed (enabledVerdicts s))).
  { rewrite Hp, !calls_app, He1, Hc1, Hc2. done. }
  assert (Hold : forall u, u ∈ passed (sweepVerdicts s) \/ u ∈ failed (sweepVerdicts s) ->
                   CRemoveServer u ∈ calls (trace s)).
  { intros u Hu. apply Hdis.
    rewrite <- (verdicts_fst (backend s) (network s) (disabledURLs (backend s))).
    destruct Hu; [by apply elem_of_passed_fst | by apply elem_of_failed_fst]. }
  rewrite Ht, calls_app, Hnew. split.
  - intros i u opts Hi.
    destruct (decide (i < length (calls (trace s)))) as [Hlt|Hge].
    + rewrite lookup_app_l in Hi by done.
      destruct (Hups i u opts Hi) as [Ho (j & Hj & Hjl)].
      split; [done|]. exists j. split; [done|].
      by apply lookup_app_l_Some.
    + rewrite lookup_app_r in Hi by lia.
      apply list_elem_of_lookup_2 in Hi.
      apply elem_of_cons in Hi as [Hi|Hi]; [done|].
      apply elem_of_app in Hi as [Hi|Hi].
      * apply list_elem_of_fmap in Hi as (v & [= -> ->] & Hv).
        split; [done|].
        pose proof (Hold v (or_introl Hv)) as Hrem.
        apply list_elem_of_lookup in Hrem as [j Hj].
        exists j. split; [|by apply lookup_app_l_Some].
        apply lookup_lt_Some in Hj. lia.
      * by apply list_elem_of_fmap in Hi as (v & ? & _).
  - intros u Hu. rewrite Hd in Hu. apply elem_of_app.
    apply elem_of_app in Hu as [Hu|Hu].
    + left. apply Hold. by right.
    + right. apply elem_of_cons. right. apply elem_of_app. right.
      by apply list_elem_of_fmap_2.
Qed.

(** X5: whatever the balancer and the network do, pass after pass a fresh
    backend upserts only servers it has removed itself before, and always
    with weight 1; and every URL it holds as disabled is one it has called
    [RemoveServer] for. *)
Theorem checkBackend_upserts_what_it_removed {L} `{!LoadBalancer L}
    (o : Options) (l : L) (net : Network) (n : nat) :
  upsertsFollowRemovals (calls (trace (passes n (fresh o l net))))
  /\ (forall u, u ∈ disabledURLs (backend (passes n (fresh o l net))) ->
        CRemoveServer u ∈ calls (trace (passes n (fresh o l net)))).
Proof.
  induction n as [|n [IH1 IH2]].
  - split.
    + intros i u opts Hi. done.
    + intros u Hu. by apply elem_of_nil in Hu.
  - rewrite passes_S. by apply afterPass_upserts.
Qed.

(** * More about the registry and the goroutines *)

Section Effects.
Context {L : Type} `{!LoadBalancer L}.
Implicit Types (σ : System L) (t : Task).

Lemma setPc_hc tid p σ : hc (setPc tid p σ) = hc σ.
Proof. unfold setPc. by destruct (tasks σ !! tid). Qed.

Lemma setPc_cancelled tid p σ : cancelled (setPc tid p σ) = cancelled σ.
Proof. unfold setPc. by destruct (tasks σ !! tid). Qed.

Lemma setPc_nextSignal tid p σ : nextSignal (setPc tid p σ) = nextSignal σ.
Proof. unfold setPc. by destruct (tasks σ !! tid). Qed.

Lemma setPc_tasks tid p σ t :
  tasks σ !! tid = Some t -> tasks (setPc tid p σ) = <[tid := withPc p t]> (tasks σ).
Proof. intros Ht. unfold setPc. by rewrite Ht. Qed.

Lemma runPass_effects tid t σ0 σ σ' :
  heap σ = heap σ0 -> balancers σ = balancers σ0 -> net σ = net σ0 ->
  runPass tid (currentBackend t) σ = Some σ' ->
  passOf σ0 t σ' /\ hc σ' = hc σ /\ cancelled σ' = cancelled σ
  /\ nextSignal σ' = nextSignal σ /\ tasks σ' = tasks σ.
Proof.
  intros Hh Hb Hn. unfold runPass, passOf. rewrite Hh, Hb, Hn.
  destruct (heap σ0 !! currentBackend t) as [b|] eqn:Hb0; [|done].
  destruct (balancers σ0 !! LB (bOptions b)) as [l|] eqn:Hl0; [|done].
  intros [= <-]. simpl. split; [|done]. by exists b, l.
Qed.

Lemma stepTask_effects tid choice σ σ' t :
  tasks σ !! tid = Some t ->
  stepTask tid choice σ = Some σ' ->
  exists p',
    tasks σ' = <[tid := withPc p' t]> (tasks σ)
    /\ Backends (hc σ') = Backends (hc σ)
    /\ cancel (hc σ') = cancel (hc σ)
    /\ wg (hc σ') = (wg (hc σ) + running p' - running (pc t))%Z
    /\ cancelled σ' = cancelled σ
    /\ nextSignal σ' = nextSignal σ
    /\ (untouched σ σ' \/ passOf σ t σ').
Proof.
  intros Ht. unfold stepTask. rewrite Ht.
  destruct (pc t) as [| |tick| |] eqn:Hpc; try done.
  - match goal with |- context [runPass tid ?p ?σ1] =>
      destruct (runPass tid p σ1) as [σ2|] eqn:Hrun end; intros [= <-].
    + eapply (runPass_effects tid t σ) in Hrun as (Hpass & Hhc & Hc & Hn & Hts);
        [|done..].
      exists Checked.
      rewrite setPc_hc, setPc_cancelled, setPc_nextSignal, Hhc, Hc, Hn.
      unfold setPc. rewrite Hts. simpl. rewrite Ht. simpl.
      repeat split; try done; [lia|].
      right. destruct Hpass as (b & l & ? & ? & ? & ? & ?). by exists b, l.
    + exists Panicked. unfold panic.
      rewrite setPc_hc, setPc_cancelled, setPc_nextSignal.
      unfold setPc. simpl. rewrite Ht. simpl.
      repeat split; try done; [lia|]. by left.
  - destruct (heap σ !! currentBackend t) as [b|].
    + destruct (0 <? Interval (bOptions b))%Z; intros [= <-].
      * exists (Looping false).
        rewrite setPc_hc, setPc_cancelled, setPc_nextSignal.
        unfold setPc. simpl. rewrite Ht. simpl.
        repeat split; try done; [lia|]. by left.
      * exists Panicked. unfold panic.
        rewrite setPc_hc, setPc_cancelled, setPc_nextSignal.
        unfold setPc. simpl. rewrite Ht. simpl.
        repeat split; try done; [lia|]. by left.
    + intros [= <-]. exists Panicked. unfold panic.
      rewrite setPc_hc, setPc_cancelled, setPc_nextSignal.
      unfold setPc. simpl. rewrite Ht. simpl.
      repeat split; try done; [lia|]. by left.
  - destruct choice.
    + destruct (isDone (ctx t) σ); [|done]. intros [= <-].
      exists Stopped.
      rewrite setPc_hc, setPc_cancelled, setPc_nextSignal.
      unfold setPc. simpl. rewrite Ht. simpl.
      repeat split; try done; [lia|]. by left.
    + destruct tick; [|done].
      match goal with |- context [runPass tid ?p ?σ1] =>
        destruct (runPass tid p σ1) as [σ2|] eqn:Hrun end; intros [= <-].
      * eapply (runPass_effects tid t σ) in Hrun as (Hpass & Hhc & Hc & Hn & Hts);
          [|done..].
        exists (Looping false).
        rewrite setPc_hc, setPc_cancelled, setPc_nextSignal, Hhc, Hc, Hn.
        unfold setPc. rewrite Hts. simpl. rewrite Ht. simpl.
        repeat split; try done; [lia|].
        right. destruct Hpass as (b & l & ? & ? & ? & ? & ?). by exists b, l.
      * exists Panicked. unfold panic.
        rewrite setPc_hc, setPc_cancelled, setPc_nextSignal.
        unfold setPc. simpl. rewrite Ht. simpl.
        repeat split; try done; [lia|]. by left.
Qed.

End Effects.

Section Invariants.
Context {L : Type} `{!LoadBalancer L}.
Implicit Types (σ : System L) (t : Task).

(** *** The wait group *)

Lemma runningCount_app ts1 ts2 :
  runningCount (ts1 ++ ts2) = (runningCount ts1 + runningCount ts2)%Z.
Proof. induction ts1 as [|t ts1 IH]; simpl; [done|]. rewrite IH. lia. Qed.

Lemma runningCount_insert ts i t t' :
  ts !! i = Some t ->
  runningCount (<[i := t']> ts)
  = (runningCount ts + running (pc t') - running (pc t))%Z.
Proof.
  revert i. induction ts as [|x ts IH]; intros [|i] Hi; simpl in *; try done.
  - injection Hi as ->. lia.
  - rewrite (IH i Hi). lia.
Qed.

Lemma runningCount_spawn c (kvs : list (string * positive)) :
  runningCount (spawn c <$> kvs) = 0%Z.
Proof.
  induction kvs as [|kv kvs IH]; [done|].
  rewrite fmap_cons. cbn [runningCount]. by rewrite IH.
Qed.

Lemma runningCount_bounds ts :
  (0 <= runningCount ts <= Z.of_nat (length ts))%Z.
Proof.
  induction ts as [|t ts IH]; simpl; [lia|].
  destruct (pc t); simpl; lia.
Qed.

Lemma fireTicker_effects tid σ :
  fireTicker tid σ = σ
  \/ exists t tick, tasks σ !! tid = Some t /\ pc t = Looping tick
       /\ fireTicker tid σ = setPc tid (Looping true) σ.
Proof.
  unfold fireTicker. destruct (tasks σ !! tid) as [t|] eqn:Ht; [|by left].
  destruct (pc t) as [| |tick| |] eqn:Hpc; try by left.
  right. by exists t, tick.
Qed.

(** The counter of the wait group moves with the goroutines that are
    between their [Add] and their [Done]. *)
Lemma wg_act a σ σ' :
  act a σ = Some σ' ->
  (wg (hc σ') - runningCount (tasks σ') = wg (hc σ) - runningCount (tasks σ))%Z.
Proof.
  destruct a as [i choice|i|c|parentCtx backends]; simpl.
  - intros Hstep.
    destruct (tasks σ !! i) as [t|] eqn:Ht;
      [|by unfold stepTask in Hstep; rewrite Ht in Hstep].
    destruct (stepTask_effects i choice σ σ' t Ht Hstep) as (p' & Hts & _ & _ & Hwg & _).
    rewrite Hts, Hwg, (runningCount_insert _ _ t) by done. simpl. lia.
  - intros [= <-].
    destruct (fireTicker_effects i σ) as [->|(t & tick & Ht & Hpc & ->)]; [done|].
    rewrite setPc_hc, (setPc_tasks _ _ _ t Ht), (runningCount_insert _ _ t) by done.
    simpl. rewrite Hpc. simpl. lia.
  - by intros [= <-].
  - intros [= <-]. rewrite SetBackendsConfiguration_eq. simpl.
    rewrite runningCount_app, runningCount_spawn. lia.
Qed.

Lemma wg_run acts σ σ' :
  run acts σ = Some σ' ->
  (wg (hc σ') - runningCount (tasks σ') = wg (hc σ) - runningCount (tasks σ))%Z.
Proof.
  revert σ. induction acts as [|a acts IH]; intros σ; simpl.
  - by intros [= <-].
  - destruct (act a σ) as [σ1|] eqn:Hact; [|done]. intros Hrun.
    rewrite (IH σ1 Hrun). by apply (wg_act a).
Qed.

(** *** Generations *)

Lemma generations_act a σ σ' :
  generations σ -> act a σ = Some σ' -> generations σ'.
Proof.
  intros Hg. destruct a as [i choice|i|c|parentCtx backends]; simpl.
  - intros Hstep.
    destruct (tasks σ !! i) as [t|] eqn:Ht;
      [|by unfold stepTask in Hstep; rewrite Ht in Hstep].
    destruct (stepTask_effects i choice σ σ' t Ht Hstep)
      as (p' & Hts & _ & Hcn & _ & Hcd & _).
    intros tid t'. rewrite Hts, Hcn, Hcd.
    destruct (decide (tid = i)) as [->|Hne].
    + rewrite list_lookup_insert_eq by by eapply lookup_lt_Some.
      intros [= <-]. simpl. by apply (Hg i).
    + rewrite list_lookup_insert_ne by done. apply Hg.
  - intros [= <-].
    destruct (fireTicker_effects i σ) as [->|(t & tick & Ht & Hpc & ->)]; [done|].
    intros tid t'. rewrite setPc_hc, setPc_cancelled, (setPc_tasks _ _ _ t Ht).
    destruct (decide (tid = i)) as [->|Hne].
    + rewrite list_lookup_insert_eq by by eapply lookup_lt_Some.
      intros [= <-]. simpl. by apply (Hg i).
    + rewrite list_lookup_insert_ne by done. apply Hg.
  - intros [= <-] tid t Ht. simpl in *.
    destruct (Hg tid t Ht) as (c0 & parent & Hc & [Hcur|Hin]).
    + exists c0, parent. split; [done|]. by left.
    + exists c0, parent. split; [done|]. right. set_solver.
  - intros [= <-] tid t. rewrite SetBackendsConfiguration_eq. simpl.
    rewrite lookup_app. destruct (tasks σ !! tid) as [t0|] eqn:Ht.
    + intros [= <-]. destruct (Hg tid t0 Ht) as (c0 & parent & Hc & [Hcur|Hin]).
      * exists c0, parent. split; [done|]. right. rewrite Hcur. set_solver.
      * exists c0, parent. split; [done|]. right.
        destruct (cancel (hc σ)); set_solver.
    + rewrite list_lookup_fmap.
      destruct (map_to_list backends !! (tid - length (tasks σ))) as [kv|];
        simpl; [|done].
      intros [= <-]. exists (nextSignal σ), parentCtx. split; [done|]. by left.
Qed.

Lemma generations_run acts σ σ' :
  generations σ -> run acts σ = Some σ' -> generations σ'.
Proof.
  revert σ. induction acts as [|a acts IH]; intros σ Hg; simpl.
  - by intros [= <-].
  - destruct (act a σ) as [σ1|] eqn:Hact; [|done].
    apply IH. by eapply generations_act.
Qed.

Lemma isDone_head c parent σ : c ∈ cancelled σ -> isDone (c :: parent) σ = true.
Proof. intros Hc. unfold isDone. simpl. by rewrite bool_decide_eq_true_2. Qed.

End Invariants.

(** X6: however the process has run since its start, the counter of the wait
    group is the number of goroutines that have begun their body and not
    ended, so it never goes below zero.  A goroutine that [execute] has
    started and that has not run yet is not in it: [SetBackendsConfiguration]
    leaves the counter as it is, [wg.Add(1)] being the goroutine's own first
    statement. *)
Theorem wg_counts_running_goroutines {L} `{!LoadBalancer L}
    (objs : gmap positive BackendHealthCheck) (lbs : gmap positive L) (n : Network)
    (acts : list Action) (σ : System L) :
  run acts (boot objs lbs n) = Some σ ->
  wg (hc σ) = runningCount (tasks σ)
  /\ (0 <= wg (hc σ) <= Z.of_nat (length (tasks σ)))%Z
  /\ (forall parentCtx backends,
        wg (hc (SetBackendsConfiguration parentCtx backends σ)) = wg (hc σ)
        /\ length (started parentCtx backends σ) = size backends
        /\ runningCount (started parentCtx backends σ) = 0%Z).
Proof.
  intros Hrun. pose proof (wg_run acts _ σ Hrun) as Hwg. simpl in Hwg.
  assert (Heq : wg (hc σ) = runningCount (tasks σ)) by lia.
  split; [done|]. split; [rewrite Heq; apply runningCount_bounds|].
  intros parentCtx backends. rewrite started_eq, SetBackendsConfiguration_eq. simpl.
  split; [done|]. split; [by rewrite length_fmap, length_map_to_list|].
  apply runningCount_spawn.
Qed.

(** X7: however the process has run since its start, every goroutine either
    belongs to the generation [hc.cancel] cancels or finds [ctx.Done()]
    ready; a call of [SetBackendsConfiguration] leaves every goroutine started
    before it with [ctx.Done()] ready; and a goroutine that waits at the
    [select] with [ctx.Done()] ready can take that case and stop. *)
Theorem reconfiguration_cancels_earlier_goroutines {L} `{!LoadBalancer L}
    (objs : gmap positive BackendHealthCheck) (lbs : gmap positive L) (n : Network)
    (acts : list Action) (σ : System L) :
  run acts (boot objs lbs n) = Some σ ->
  (forall tid t,
     tasks σ !! tid = Some t ->
     currentGeneration σ t \/ isDone (ctx t) σ = true)
  /\ (forall parentCtx backends tid t,
        tasks σ !! tid = Some t ->
        tasks (SetBackendsConfiguration parentCtx backends σ) !! tid = Some t
        /\ isDone (ctx t) (SetBackendsConfiguration parentCtx backends σ) = true)
  /\ (forall tid t tick,
        tasks σ !! tid = Some t ->
        pc t = Looping tick ->
        isDone (ctx t) σ = true ->
        exists σ', stepTask tid OnDone σ = Some σ'
          /\ tasks σ' !! tid = Some (withPc Stopped t)).
Proof.
  intros Hrun.
  assert (Hg : generations σ).
  { eapply generations_run; [|exact Hrun]. intros tid t Ht. done. }
  split; [|split].
  - intros tid t Ht. destruct (Hg tid t Ht) as (c & parent & Hc & [Hcur|Hin]).
    + left. by exists c, parent.
    + right. rewrite Hc. by apply isDone_head.
  - intros parentCtx backends tid t Ht.
    rewrite SetBackendsConfiguration_eq. cbn [tasks].
    split; [by apply lookup_app_l_Some|].
    destruct (Hg tid t Ht) as (c & parent & Hc & [Hcur|Hin]).
    + rewrite Hc. apply isDone_head. simpl. rewrite Hcur. set_solver.
    + rewrite Hc. apply isDone_head. simpl. destruct (cancel (hc σ)); set_solver.
  - intros tid t tick Ht Hpc Hd.
    rewrite (stepTask_done tid σ t tick Ht Hpc), Hd.
    eexists. split; [done|]. by apply setPc_lookup.
Qed.

Section Absorbing.
Context {L : Type} `{!LoadBalancer L}.
Implicit Types (σ : System L) (t : Task).

Lemma opsOf_configured tid parentCtx (backends : gmap string positive) σ :
  opsOf tid (history (SetBackendsConfiguration parentCtx backends σ))
  = opsOf tid (history σ).
Proof.
  rewrite SetBackendsConfiguration_eq. cbn [history].
  rewrite opsOf_app, (opsOf_registry tid (_ ++ _)), app_nil_r; [done|].
  repeat (apply Forall_app; split); try (by repeat constructor).
  - destruct (cancel (hc σ)); by repeat constructor.
  - apply goOps_registry.
Qed.

(** What an action leaves of a goroutine other than the one that moves. *)
Lemma act_other a σ σ' tid t :
  act a σ = Some σ' ->
  tasks σ !! tid = Some t ->
  (forall choice, a <> ARun tid choice) ->
  a <> AFire tid ->
  tasks σ' !! tid = Some t /\ opsOf tid (history σ') = opsOf tid (history σ).
Proof.
  intros Hact Ht Hrun Hfire.
  destruct a as [i choice|i|c|parentCtx backends]; simpl in Hact.
  - assert (i <> tid) as Hne by (intros ->; by eapply Hrun).
    destruct (tasks σ !! i) as [ti|] eqn:Hti;
      [|by unfold stepTask in Hact; rewrite Hti in Hact].
    destruct (stepTask_cases i choice σ σ' ti Hti Hact) as (p' & new & Hts & Hh & _).
    rewrite Hts, Hh, opsOf_app, opsOf_other, app_nil_r by done.
    by rewrite list_lookup_insert_ne.
  - assert (i <> tid) as Hne by congruence.
    injection Hact as <-.
    destruct (fireTicker_effects i σ) as [->|(ti & tick & Hti & Hpc & ->)]; [done|].
    rewrite setPc_history, (setPc_tasks _ _ _ ti Hti).
    by rewrite list_lookup_insert_ne.
  - by injection Hact as <-.
  - injection Hact as <-. rewrite opsOf_configured. split; [|done].
    rewrite SetBackendsConfiguration_eq. cbn [tasks]. by apply lookup_app_l_Some.
Qed.

Lemma ended_act a σ σ' tid t :
  act a σ = Some σ' ->
  tasks σ !! tid = Some t ->
  ended (pc t) ->
  tasks σ' !! tid = Some t /\ opsOf tid (history σ') = opsOf tid (history σ).
Proof.
  intros Hact Ht Hend.
  destruct a as [i choice|i|c|parentCtx backends].
  - destruct (decide (i = tid)) as [->|Hne].
    + simpl in Hact.
      destruct (stepTask_ended tid choice σ t Ht Hend) as [Hnone _]. congruence.
    + eapply act_other; [done..| |done]. congruence.
  - destruct (decide (i = tid)) as [->|Hne].
    + simpl in Hact. injection Hact as <-.
      destruct (stepTask_ended tid OnDone σ t Ht Hend) as [_ Hfire].
      by rewrite Hfire.
    + eapply act_other; [done..| |]; congruence.
  - eapply act_other; [done..| |]; congruence.
  - eapply act_other; [done..| |]; congruence.
Qed.

End Absorbing.

(** X8: a goroutine that has returned or died stays as it is whatever the
    process does afterwards (other goroutines running, tickers firing,
    contexts cancelled, reconfigurations): its state is the same and it has
    done nothing more. *)
Theorem ended_goroutine_stays_ended {L} `{!LoadBalancer L}
    (acts : list Action) (σ σ' : System L) (tid : nat) (t : Task) :
  tasks σ !! tid = Some t ->
  ended (pc t) ->
  run acts σ = Some σ' ->
  tasks σ' !! tid = Some t
  /\ opsOf tid (history σ') = opsOf tid (history σ)
  /\ forall choice, stepTask tid choice σ' = None /\ fireTicker tid σ' = σ'.
Proof.
  intros Ht Hend. revert σ Ht. induction acts as [|a acts IH]; intros σ Ht; simpl.
  - intros [= <-]. split; [done|]. split; [done|].
    intros choice. by apply (stepTask_ended tid choice σ t).
  - destruct (act a σ) as [σ1|] eqn:Hact; [|done]. intros Hrun.
    destruct (ended_act a σ σ1 tid t Hact Ht Hend) as [Ht1 Hh1].
    destruct (IH σ1 Ht1 Hrun) as (Ht' & Hh' & Hno).
    split; [done|]. split; [congruence|done].
Qed.

Section Configuration.
Context {L : Type} `{!LoadBalancer L}.
Implicit Types (σ : System L) (t : Task).

Lemma sameConfig_refl b : sameConfig b b.
Proof. by split. Qed.

Lemma sameConfig_trans b1 b2 b3 : sameConfig b1 b2 -> sameConfig b2 b3 -> sameConfig b1 b3.
Proof. intros [? ?] [? ?]. split; congruence. Qed.

Lemma sameConfig_afterPass b (l : L) n :
  sameConfig b (backend (afterPass {| backend := b; balancer := l;
                                      network := n; trace := [] |})).
Proof.
  destruct (afterPass_spec {| backend := b; balancer := l; network := n; trace := [] |})
    as (_ & Ho & Hto & _).
  by split.
Qed.

Lemma config_step tid choice σ σ' t :
  tasks σ !! tid = Some t ->
  stepTask tid choice σ = Some σ' ->
  (forall p b, heap σ !! p = Some b ->
     exists b', heap σ' !! p = Some b' /\ sameConfig b b')
  /\ dom (heap σ') = dom (heap σ)
  /\ dom (balancers σ') = dom (balancers σ).
Proof.
  intros Ht Hstep.
  destruct (stepTask_effects tid choice σ σ' t Ht Hstep)
    as (p' & _ & _ & _ & _ & _ & _ & [(Hh & Hb & _)|(b0 & l0 & Hb0 & Hl0 & Hh & Hb & _)]).
  - rewrite Hh, Hb. split; [|done]. intros p b Hp. exists b. split; [done|apply sameConfig_refl].
  - rewrite Hh, Hb. split; [|split].
    + intros p b Hp. destruct (decide (p = currentBackend t)) as [->|Hne].
      * rewrite lookup_insert_eq. eexists. split; [done|].
        assert (b = b0) as -> by congruence. apply sameConfig_afterPass.
      * rewrite lookup_insert_ne by done. exists b. split; [done|apply sameConfig_refl].
    + by apply dom_insert_lookup_L.
    + by apply dom_insert_lookup_L.
Qed.

Lemma config_act a σ σ' :
  act a σ = Some σ' ->
  (forall p b, heap σ !! p = Some b ->
     exists b', heap σ' !! p = Some b' /\ sameConfig b b')
  /\ dom (heap σ') = dom (heap σ)
  /\ dom (balancers σ') = dom (balancers σ).
Proof.
  assert (Hsame : forall σ1 : System L,
    heap σ1 = heap σ -> balancers σ1 = balancers σ ->
    (forall p b, heap σ !! p = Some b ->
       exists b', heap σ1 !! p = Some b' /\ sameConfig b b')
    /\ dom (heap σ1) = dom (heap σ)
    /\ dom (balancers σ1) = dom (balancers σ)).
  { intros σ1 -> ->. split; [|done]. intros p b Hp. exists b.
    split; [done|apply sameConfig_refl]. }
  destruct a as [i choice|i|c|parentCtx backends]; simpl.
  - intros Hstep.
    destruct (tasks σ !! i) as [t|] eqn:Ht;
      [|by unfold stepTask in Hstep; rewrite Ht in Hstep].
    by eapply config_step.
  - intros [= <-].
    destruct (fireTicker_effects i σ) as [->|(t & tick & Ht & Hpc & ->)];
      apply Hsame; try done; [apply setPc_heap|apply setPc_balancers].
  - intros [= <-]. by apply Hsame.
  - intros [= <-]. rewrite SetBackendsConfiguration_eq. by apply Hsame.
Qed.

End Configuration.

(** X9: whatever the process does, a backend object stays where it is and
    keeps its options (path, interval, balancer) and its request timeout:
    only its list of disabled URLs ever changes.  No backend object and no
    balancer appears or goes away. *)
Theorem backend_configuration_is_kept {L} `{!LoadBalancer L}
    (acts : list Action) (σ σ' : System L) :
  run acts σ = Some σ' ->
  (forall p b,
     heap σ !! p = Some b ->
     exists b', heap σ' !! p = Some b'
       /\ bOptions b' = bOptions b
       /\ requestTimeout b' = requestTimeout b)
  /\ dom (heap σ') = dom (heap σ)
  /\ dom (balancers σ') = dom (balancers σ).
Proof.
  revert σ. induction acts as [|a acts IH]; intros σ; simpl.
  - intros [= <-]. split; [|done]. intros p b Hp. by exists b.
  - destruct (act a σ) as [σ1|] eqn:Hact; [|done]. intros Hrun.
    destruct (config_act a σ σ1 Hact) as (H1 & Hd1 & Hl1).
    destruct (IH σ1 Hrun) as (H2 & Hd2 & Hl2).
    split; [|split; congruence].
    intros p b Hp. destruct (H1 p b Hp) as (b1 & Hp1 & [Ho1 Ht1]).
    destruct (H2 p b1 Hp1) as (b2 & Hp2 & Ho2 & Ht2).
    exists b2. split; [done|]. split; congruence.
Qed.

(** X10: a step of a goroutine changes nothing of another goroutine, of a
    backend object other than its own, or of a balancer other than the one of
    its backend; it raises no signal and leaves the registry's backends and
    cancel function alone.  When it changes its backend at all, that is by one
    pass of [checkBackend] on it, its balancer and the network. *)
Theorem step_touches_own_backend_only {L} `{!LoadBalancer L}
    (tid : nat) (choice : Select) (σ σ' : System L) (t : Task) :
  tasks σ !! tid = Some t ->
  stepTask tid choice σ = Some σ' ->
  (forall i, i <> tid -> tasks σ' !! i = tasks σ !! i)
  /\ (exists p', tasks σ' !! tid = Some (withPc p' t))
  /\ (forall p, p <> currentBackend t -> heap σ' !! p = heap σ !! p)
  /\ (forall b q,
        heap σ !! currentBackend t = Some b ->
        q <> LB (bOptions b) ->
        balancers σ' !! q = balancers σ !! q)
  /\ (heap σ !! currentBackend t = None -> untouched σ σ')
  /\ (untouched σ σ' \/ passOf σ t σ')
  /\ Backends (hc σ') = Backends (hc σ)
  /\ cancel (hc σ') = cancel (hc σ)
  /\ cancelled σ' = cancelled σ
  /\ nextSignal σ' = nextSignal σ
  /\ length (tasks σ') = length (tasks σ).
Proof.
  intros Ht Hstep.
  destruct (stepTask_effects tid choice σ σ' t Ht Hstep)
    as (p' & Hts & HB & Hc & _ & Hcd & Hn & Hpass).
  assert (Hlt : tid < length (tasks σ)) by by eapply lookup_lt_Some.
  split; [|split; [|split; [|split; [|split]]]].
  - intros i Hi. rewrite Hts. by apply list_lookup_insert_ne.
  - exists p'. rewrite Hts. by apply list_lookup_insert_eq.
  - intros p Hp. destruct Hpass as [(Hh & _)|(b & l & _ & _ & Hh & _)]; rewrite Hh; [done|].
    by rewrite lookup_insert_ne.
  - intros b q Hb Hq.
    destruct Hpass as [(_ & Hl & _)|(b0 & l & Hb0 & _ & _ & Hl & _)]; rewrite Hl; [done|].
    assert (b0 = b) as -> by congruence. by rewrite lookup_insert_ne.
  - intros Hnil. destruct Hpass as [?|(b & l & Hb & _)]; [done|congruence].
  - split; [done|]. rewrite Hts, length_insert. done.
Qed.

Section Late.
Context {L : Type} `{!LoadBalancer L}.
Implicit Types (σ : System L) (t : Task).

Lemma isDone_frame c σ σ' : cancelled σ' = cancelled σ -> isDone c σ' = isDone c σ.
Proof. intros H. unfold isDone. by rewrite H. Qed.

End Late.

(** X11: cancellation is looked at only at the [select].  A goroutine whose
    context is cancelled before it has run still makes its initial pass and
    its ticker, and only then stops: three steps, after which it has logged
    the initial line, made one full pass, made and released the ticker, and
    the wait group is where it was. *)
Theorem cancelled_goroutine_still_checks_once {L} `{!LoadBalancer L}
    (tid : nat) (σ : System L) (t : Task) (b : BackendHealthCheck) (l : L)
    (c1 c2 c3 : Select) :
  tasks σ !! tid = Some t ->
  pc t = Spawned ->
  isDone (ctx t) σ = true ->
  heap σ !! currentBackend t = Some b ->
  balancers σ !! LB (bOptions b) = Some l ->
  (0 < Interval (bOptions b))%Z ->
  let s := {| backend := b; balancer := l; network := net σ; trace := [] |} in
  (c3 = OnDone ->
   exists σ', run [ARun tid c1; ARun tid c2; ARun tid c3] σ = Some σ'
     /\ tasks σ' = <[tid := withPc Stopped t]> (tasks σ)
     /\ opsOf tid (history σ')
        = opsOf tid (history σ)
            ++ (OpEvent <$> initialLog (currentBackendID t) :: passEvents s)
            ++ [OpNewTicker (Interval (bOptions b)); OpEvent stopLog; OpTickerStop]
     /\ heap σ' = <[currentBackend t := backend (afterPass s)]> (heap σ)
     /\ balancers σ' = <[LB (bOptions b) := balancer (afterPass s)]> (balancers σ)
     /\ wg (hc σ') = wg (hc σ))
  /\ (c3 = OnTick -> run [ARun tid c1; ARun tid c2; ARun tid c3] σ = None).
Proof.
  intros Ht Hpc Hd Hb Hl Hpos s.
  destruct (stepTask_Spawned tid c1 σ t b l Ht Hpc Hb Hl)
    as (σ1 & H1 & Hts1 & Hh1 & Hhp1 & Hlb1 & Hn1 & Hc1).
  fold s in Hh1, Hhp1, Hlb1, Hn1.
  assert (Hlt : tid < length (tasks σ)) by by eapply lookup_lt_Some.
  assert (Ht1 : tasks σ1 !! tid = Some (withPc Checked t))
    by (rewrite Hts1; by apply list_lookup_insert_eq).
  assert (Hb1 : heap σ1 !! currentBackend (withPc Checked t) = Some (backend (afterPass s)))
    by (rewrite Hhp1; simpl; apply lookup_insert_eq).
  pose proof (stepTask_Checked tid c2 σ1 _ _ Ht1 eq_refl Hb1) as H2.
  destruct (afterPass_spec s) as (_ & Ho & _). rewrite Ho in H2. cbn [backend s] in H2.
  assert ((0 <? Interval (bOptions b))%Z = true) as Hpos' by lia.
  rewrite Hpos' in H2.
  set (σ2 := setPc tid (Looping false)
               (record (Goroutine tid) [OpNewTicker (Interval (bOptions b))] σ1)) in *.
  assert (Ht2 : tasks σ2 !! tid = Some (withPc (Looping false) (withPc Checked t))).
  { unfold σ2. by apply setPc_lookup. }
  assert (Hd2 : isDone (ctx t) σ2 = true).
  { rewrite <- Hd. apply isDone_frame. unfold σ2. by rewrite setPc_cancelled. }
  destruct (stepTask_effects tid c1 σ σ1 t Ht H1) as (p1 & Hts' & _ & _ & Hwg1 & _).
  assert (p1 = Checked) as ->.
  { rewrite Hts' in Ht1. rewrite list_lookup_insert_eq in Ht1 by done.
    by injection Ht1. }
  rewrite Hpc in Hwg1. simpl in Hwg1.
  split.
  - intros ->. simpl. rewrite H1. simpl. rewrite H2. simpl.
    rewrite (stepTask_done tid σ2 _ false Ht2 eq_refl). simpl. rewrite Hd2.
    eexists. split; [done|].
    rewrite setPc_history, setPc_heap, setPc_balancers, setPc_hc.
    erewrite setPc_tasks by exact Ht2. cbn [tasks history heap balancers hc wgAdd record withHC wg].
    unfold σ2 at 1 2 3 4 5.
    rewrite setPc_history, setPc_heap, setPc_balancers, setPc_hc.
    erewrite setPc_tasks by exact Ht1. cbn [tasks history heap balancers hc record].
    rewrite Hts1, Hh1, !list_insert_insert_eq.
    split; [done|]. split; [|split; [done|split; [done|lia]]].
    rewrite <- !app_assoc, !opsOf_app. unfold tag.
    rewrite !opsOf_own. simpl. done.
  - intros ->. simpl. rewrite H1. simpl. rewrite H2. simpl.
    by rewrite (stepTask_blocked tid σ2 _ Ht2 eq_refl).
Qed.

Section Singleton.
Implicit Types (g : Package) (fs : list (gmap positive HealthCheck -> gmap positive HealthCheck)).

Lemma GetHealthCheck_done g :
  once g = true -> GetHealthCheck g = (singleton g, g).
Proof. intros H. unfold GetHealthCheck. by rewrite H. Qed.

Lemma GetHealthCheck_once g :
  once (GetHealthCheck g).2 = true
  /\ singleton (GetHealthCheck g).2 = (GetHealthCheck g).1.
Proof. unfold GetHealthCheck. by destruct (once g) eqn:H. Qed.

Lemma getAll_done fs g :
  once g = true ->
  (getAll fs g).1 = replicate (length fs) (singleton g)
  /\ once (getAll fs g).2 = true
  /\ singleton (getAll fs g).2 = singleton g
  /\ registries (getAll fs g).2 = foldl (fun m f => f m) (registries g) fs.
Proof.
  revert g. induction fs as [|f fs IH]; intros g Hg; [done|].
  simpl. rewrite (GetHealthCheck_done g Hg).
  destruct (IH (touch f g) Hg) as (Hps & Ho & Hs & Hr).
  destruct (getAll fs (touch f g)) as [ps g2]. simpl in *.
  by rewrite Hps.
Qed.

End Singleton.

(** X12: [GetHealthCheck] always returns the same registry.  However often it
    is called and whatever is done to the registries in between, every call
    returns the pointer the first one returned; a first call makes a new
    registry (no backends, no cancel function, wait group at zero) that was
    not there before, a later call makes none; and the calls themselves
    change no registry. *)
Theorem GetHealthCheck_singleton
    (fs : list (gmap positive HealthCheck -> gmap positive HealthCheck)) (g : Package) :
  (getAll fs g).1 = replicate (length fs) (GetHealthCheck g).1
  /\ (fs <> [] -> once (getAll fs g).2 = true
        /\ singleton (getAll fs g).2 = (GetHealthCheck g).1
        /\ registries (getAll fs g).2
           = foldl (fun m f => f m) (registries (GetHealthCheck g).2) fs)
  /\ (once g = false ->
      exists p, (GetHealthCheck g).1 = Some p
        /\ registries g !! p = None
        /\ registries (GetHealthCheck g).2 = <[p := newHealthCheck]> (registries g)
        /\ Backends newHealthCheck = ∅
        /\ cancel newHealthCheck = None)
  /\ (once g = true -> GetHealthCheck g = (singleton g, g)).
Proof.
  split; [|split; [|split]].
  - destruct fs as [|f fs]; [done|]. simpl.
    destruct (GetHealthCheck_once g) as [Ho Hs].
    destruct (GetHealthCheck g) as [p g1]. simpl in *.
    destruct (getAll_done fs (touch f g1) Ho) as (Hps & _).
    destruct (getAll fs (touch f g1)) as [ps g2]. simpl in *.
    by rewrite Hps, Hs.
  - destruct fs as [|f fs]; [done|]. intros _. simpl.
    destruct (GetHealthCheck_once g) as [Ho Hs].
    destruct (GetHealthCheck g) as [p g1]. simpl in *.
    destruct (getAll_done fs (touch f g1) Ho) as (_ & Ho2 & Hs2 & Hr2).
    destruct (getAll fs (touch f g1)) as [ps g2]. simpl in *.
    by rewrite Ho2, Hs2, Hr2.
  - intros Hg. unfold GetHealthCheck. rewrite Hg. simpl.
    eexists. split; [done|]. split; [|done].
    apply not_elem_of_dom. apply is_fresh.
  - apply GetHealthCheck_done.
Qed.

(** * Passes in a row *)

Section Convergence.
Context {L : Type} `{!LoadBalancer L}.
Implicit Types (s : State L).

Lemma verdicts_in b net (us : list url.URL) (v : bool) :
  (forall k u, us !! k = Some u -> verdict b net k u = v) ->
  verdicts b net us = (fun u => (u, v)) <$> us.
Proof.
  intros Hv. unfold verdicts.
  rewrite (imap_ext _ (fun _ u => (u, v))).
  - apply (imap_const (fun u => (u, v))).
  - intros k u Hk. simpl. f_equal. by apply Hv.
Qed.

Lemma verdict_config b b' net k u :
  bOptions b' = bOptions b -> requestTimeout b' = requestTimeout b ->
  verdict b' net k u = verdict b net k u.
Proof. intros Ho Ht. unfold verdict. by rewrite Ho, Ht. Qed.

(** A pass over a settled backend changes nothing. *)
Lemma settled_pass s :
  settled s ->
  backend (afterPass s) = backend s
  /\ balancer (afterPass s) = balancer s
  /\ calls (passEvents s) = [CServers]
  /\ logs (passEvents s) = (fun u => disabledLog (u, false)) <$> disabledURLs (backend s)
  /\ settled (afterPass s).
Proof.
  intros [HD HE].
  assert (Hv1 : sweepVerdicts s = (fun u => (u, false)) <$> disabledURLs (backend s)).
  { apply verdicts_in. intros k u Hk. apply HD. by eapply list_elem_of_lookup_2. }
  assert (Hv2 : enabledVerdicts s = (fun u => (u, true)) <$> Servers (balancer s)).
  { apply verdicts_in. intros k u Hk. rewrite verdict_advance. apply HE.
    by eapply list_elem_of_lookup_2. }
  destruct (afterSweep_spec s) as (_ & _ & _ & ev1 & _ & He1 & Hc1 & _).
  destruct (afterPass_spec s) as (Hd & Ho & Hto & Hn & Hl & Hp & _ & Hc2 & _).
  rewrite Hv1, Hv2, !failed_const, app_nil_r in Hd.
  rewrite Hv1, Hv2, failed_const, passed_const in Hl.
  rewrite Hv1, passed_const in Hc1. rewrite Hv2, failed_const in Hc2.
  simpl in Hl, Hc1, Hc2.
  assert (Hb : backend (afterPass s) = backend s).
  { destruct (backend (afterPass s)), (backend s). simpl in *. by subst. }
  split; [done|]. split; [done|]. split; [|split].
  - rewrite Hp, !calls_app, He1, Hc1, Hc2. done.
  - rewrite logs_passEvents, Hv1, Hv2, failed_const, app_nil_r.
    by rewrite <- list_fmap_compose.
  - unfold settled. rewrite Hb, Hl, Hn. split.
    + intros u k Hu. rewrite verdict_advance. by apply HD.
    + intros u k Hu. rewrite verdict_advance. by apply HE.
Qed.

Lemma settled_passes n s :
  settled s ->
  backend (passes n s) = backend s
  /\ balancer (passes n s) = balancer s
  /\ settled (passes n s).
Proof.
  intros Hs. induction n as [|n (Hb & Hl & Hn)]; [done|].
  rewrite passes_S. destruct (settled_pass _ Hn) as (Hb' & Hl' & _ & _ & Hs').
  split; [congruence|]. split; [congruence|done].
Qed.

(** With a network that does not change and a balancer whose calls take
    effect, one pass settles the backend. *)
Lemma constant_settles `{!Lawful L} s : constant s -> settled (afterPass s).
Proof.
  intros Hc.
  destruct (afterPass_spec s) as (_ & Ho & Hto & Hn & _).
  assert (Hv : forall k u, verdict (backend (afterPass s)) (network (afterPass s)) k u
                 = verdict (backend s) (network s) 0 u).
  { intros k u. rewrite (verdict_config (backend s)), Hn, verdict_advance by done.
    apply Hc. }
  split; intros u k Hu; rewrite Hv.
  - apply elem_of_disabled_afterPass in Hu.
    unfold sweepVerdicts, enabledVerdicts in Hu.
    destruct Hu as [Hu|Hu]; apply elem_of_failed, elem_of_verdicts in Hu as (j & _ & Hj).
    + by rewrite Hc in Hj.
    + rewrite verdict_advance in Hj. by rewrite Hc in Hj.
  - apply elem_of_Servers_afterPass in Hu as [Hn' Hu].
    unfold sweepVerdicts, enabledVerdicts in *.
    destruct Hu as [Hu|Hu].
    + apply elem_of_passed, elem_of_verdicts in Hu as (j & _ & Hj). by rewrite Hc in Hj.
    + destruct (verdict (backend s) (network s) 0 u) eqn:Hv0; [done|].
      exfalso. apply Hn'. apply elem_of_failed, elem_of_verdicts.
      apply list_elem_of_lookup in Hu as [j Hj]. exists j. split; [done|].
      by rewrite verdict_advance, Hc.
Qed.

End Convergence.

(** X13: with a network that does not change and a balancer whose calls take
    effect, one pass is enough: whatever the two lists were, after the first
    pass every further pass leaves the disabled URLs and the balancer as they
    are, calls neither [UpsertServer] nor [RemoveServer], and only warns about
    each disabled URL once more. *)
Theorem checkBackend_converges {L} `{!LoadBalancer L} `{!Lawful L} (s : State L) (n : nat) :
  constant s ->
  backend (passes (S n) s) = backend (afterPass s)
  /\ balancer (passes (S n) s) = balancer (afterPass s)
  /\ calls (passEvents (passes (S n) s)) = [CServers]
  /\ logs (passEvents (passes (S n) s))
     = (fun u => (WarnLevel, "HealthCheck is still failing [" +:+ u +:+ "]"))
         <$> disabledURLs (backend (afterPass s))
  /\ requests (passEvents (passes (S n) s))
     = request (backend s)
         <$> (disabledURLs (backend (afterPass s)) ++ Servers (balancer (afterPass s))).
Proof.
  intros Hc. pose proof (constant_settles s Hc) as Hs.
  change (passes (S n) s) with (passes n (afterPass s)).
  destruct (settled_passes n _ Hs) as (Hb & Hl & Hn).
  destruct (settled_pass _ Hn) as (_ & _ & Hcalls & Hlogs & _).
  split; [done|]. split; [done|]. split; [done|]. split.
  - by rewrite Hlogs, Hb.
  - rewrite requests_passEvents, Hb, Hl.
    destruct (afterPass_spec s) as (_ & Ho & Hto & _).
    apply list_fmap_ext. intros _ u _. unfold request. by rewrite Ho, Hto.
Qed.

(** * Passes and ticks *)

Section Ticks.
Context {L : Type} `{!LoadBalancer L}.
Implicit Types (σ : System L) (t : Task).

Lemma passesBegun_app ops1 ops2 :
  passesBegun (ops1 ++ ops2) = passesBegun ops1 + passesBegun ops2.
Proof.
  induction ops1 as [|op ops1 IH]; [done|].
  destruct op; simpl; try done.
  match goal with e : Event |- _ => destruct e end; simpl; by rewrite ?IH.
Qed.

Lemma passesBegun_none (ev : list Event) :
  CServers ∉ calls ev -> passesBegun (OpEvent <$> ev) = 0.
Proof.
  induction ev as [|e ev IH]; [done|]. intros Hn.
  assert (Hrest : CServers ∉ calls ev).
  { intros Hin. apply Hn. unfold calls in *. simpl. destruct (callOf e); [by right|done]. }
  destruct e; simpl; try by apply IH.
  exfalso. apply Hn. unfold calls. simpl. by left.
Qed.

(** A pass asks for the live list once. *)
Lemma passesBegun_pass (s : State L) : passesBegun (OpEvent <$> passEvents s) = 1.
Proof.
  destruct (afterSweep_spec s) as (_ & _ & _ & ev1 & _ & He1 & Hc1 & _).
  destruct (afterPass_spec s) as (_ & _ & _ & _ & _ & Hp & _ & Hc2 & _).
  rewrite Hp, !fmap_app, !passesBegun_app. simpl.
  rewrite !passesBegun_none; [done| |].
  - rewrite Hc2. by intros (u & ? & _)%list_elem_of_fmap.
  - rewrite He1, Hc1. by intros (u & ? & _)%list_elem_of_fmap.
Qed.

(** A goroutine never gives itself a tick. *)
Lemma stepTask_next tid choice σ σ' t :
  tasks σ !! tid = Some t ->
  stepTask tid choice σ = Some σ' ->
  exists p', tasks σ' !! tid = Some (withPc p' t) /\ p' <> Looping true.
Proof.
  intros Ht Hstep.
  assert (Hlt : tid < length (tasks σ)) by by eapply lookup_lt_Some.
  destruct (stepTask_effects tid choice σ σ' t Ht Hstep) as (p' & Hts & _).
  exists p'. split; [rewrite Hts; by apply list_lookup_insert_eq|].
  intros ->. revert Hstep. unfold stepTask. rewrite Ht.
  assert (Hno : forall p σ1, p <> Looping true -> tasks σ1 !! tid = Some t ->
            Some (setPc tid p σ1) = Some σ' -> False).
  { intros p σ1 Hp Ht1 [= <-]. rewrite (setPc_tasks _ _ _ t Ht1) in Hts.
    apply (f_equal (fun ts => ts !! tid)) in Hts.
    rewrite !list_lookup_insert_eq in Hts by (by eapply lookup_lt_Some).
    injection Hts as Hts. done. }
  destruct (pc t) as [| |tick| |] eqn:Hpc; try done.
  - match goal with |- context [runPass tid ?p ?σ1] =>
      destruct (runPass tid p σ1) as [σ2|] eqn:Hrun end.
    + apply runPass_frame in Hrun as [Hts2 _]. apply Hno; [done|]. by rewrite Hts2.
    + unfold panic. by apply Hno.
  - destruct (heap σ !! currentBackend t) as [b|].
    + destruct (0 <? Interval (bOptions b))%Z; [|unfold panic]; by apply Hno.
    + unfold panic. by apply Hno.
  - destruct choice.
    + destruct (isDone (ctx t) σ); [|done]. by apply Hno.
    + destruct tick; [|done].
      match goal with |- context [runPass tid ?p ?σ1] =>
        destruct (runPass tid p σ1) as [σ2|] eqn:Hrun end.
      * apply runPass_frame in Hrun as [Hts2 _]. apply Hno; [done|]. by rewrite Hts2.
      * unfold panic. by apply Hno.
Qed.

Lemma owed_step id p new p' :
  Step (L := L) id p new p' ->
  p' <> Looping true ->
  passesBegun new + owed (Some p') <= owed (Some p).
Proof.
  intros Hs Hp. destruct Hs; try done; try (simpl; lia).
  - rewrite fmap_cons. unfold initialLog. cbn [passesBegun].
    rewrite passesBegun_pass. simpl. lia.
  - rewrite fmap_cons. unfold refreshLog. cbn [passesBegun].
    rewrite passesBegun_pass. simpl. lia.
Qed.

Lemma fires_cons tid a acts : fires tid (a :: acts) = fires tid [a] + fires tid acts.
Proof. destruct a; simpl; lia. Qed.

Lemma owed_act tid a σ σ' :
  act a σ = Some σ' ->
  passesBegun (opsOf tid (history σ')) + owed (pc <$> tasks σ' !! tid)
  <= passesBegun (opsOf tid (history σ)) + owed (pc <$> tasks σ !! tid) + fires tid [a].
Proof.
  destruct a as [i choice|i|c|parentCtx backends]; simpl.
  - intros Hstep.
    destruct (tasks σ !! i) as [t|] eqn:Ht;
      [|by unfold stepTask in Hstep; rewrite Ht in Hstep].
    destruct (stepTask_cases i choice σ σ' t Ht Hstep) as (p' & new & Hts & Hh & Hs).
    assert (Hlt : i < length (tasks σ)) by by eapply lookup_lt_Some.
    rewrite Hts, Hh, opsOf_app.
    destruct (decide (i = tid)) as [->|Hne].
    + destruct (stepTask_next tid choice σ σ' t Ht Hstep) as (p'' & Ht' & Hp'').
      rewrite Hts, list_lookup_insert_eq in Ht' by done.
      injection Ht' as <-.
      rewrite opsOf_own, passesBegun_app, list_lookup_insert_eq, Ht by done. simpl.
      pose proof (owed_step _ _ _ _ Hs Hp'') as Ho. simpl in Ho. lia.
    + rewrite opsOf_other, app_nil_r, list_lookup_insert_ne by done. lia.
  - intros [= <-].
    destruct (fireTicker_effects i σ) as [->|(t & tick & Ht & Hpc & ->)]; [lia|].
    rewrite setPc_history. destruct (decide (i = tid)) as [->|Hne].
    + rewrite (setPc_lookup _ _ _ _ Ht), Ht. simpl. rewrite Hpc. destruct tick; simpl; lia.
    + rewrite setPc_lookup_ne by done. lia.
  - intros [= <-]. simpl. lia.
  - intros [= <-]. rewrite opsOf_configured, SetBackendsConfiguration_eq. cbn [tasks].
    destruct (tasks σ !! tid) as [t|] eqn:Ht.
    + rewrite (lookup_app_l_Some _ _ _ _ Ht). lia.
    + rewrite lookup_app_r by by apply lookup_ge_None.
      rewrite list_lookup_fmap.
      destruct (map_to_list backends !! (tid - length (tasks σ))) as [kv|]; simpl; lia.
Qed.

Lemma owed_run tid acts σ σ' :
  run acts σ = Some σ' ->
  passesBegun (opsOf tid (history σ')) + owed (pc <$> tasks σ' !! tid)
  <= passesBegun (opsOf tid (history σ)) + owed (pc <$> tasks σ !! tid) + fires tid acts.
Proof.
  revert σ. induction acts as [|a acts IH]; intros σ; simpl run.
  - intros [= <-]. simpl. lia.
  - destruct (act a σ) as [σ1|] eqn:Hact; [|done]. intros Hrun.
    pose proof (owed_act tid a σ σ1 Hact). pose proof (IH σ1 Hrun).
    rewrite (fires_cons tid a acts). lia.
Qed.

End Ticks.

(** X14: a goroutine makes no pass without a tick, other than its initial
    one.  However the process runs from its start, the passes a goroutine has
    begun are at most one more than the times its ticker has fired; and from
    any state on, as long as its ticker does not fire again, it begins at most
    one more pass, however many ticks have fired before: ticks that fire
    while one is waiting are lost. *)
Theorem passes_bounded_by_ticks {L} `{!LoadBalancer L}
    (objs : gmap positive BackendHealthCheck) (lbs : gmap positive L) (n : Network)
    (acts : list Action) (σ : System L) (tid : nat) :
  run acts (boot objs lbs n) = Some σ ->
  passesBegun (opsOf tid (history σ)) <= 1 + fires tid acts
  /\ (forall more σ',
        run more σ = Some σ' ->
        fires tid more = 0 ->
        passesBegun (opsOf tid (history σ')) <= passesBegun (opsOf tid (history σ)) + 1)
  /\ (forall t, tasks σ !! tid = Some t ->
        pc t = Checked \/ pc t = Looping false \/ ended (pc t) ->
        forall more σ',
          run more σ = Some σ' ->
          fires tid more = 0 ->
          passesBegun (opsOf tid (history σ')) <= passesBegun (opsOf tid (history σ))).
Proof.
  intros Hrun. split; [|split].
  - pose proof (owed_run tid acts _ σ Hrun) as H. simpl in H. lia.
  - intros more σ' Hmore Hf.
    pose proof (owed_run tid more σ σ' Hmore) as H. rewrite Hf in H.
    assert (owed (pc <$> tasks σ !! tid) <= 1).
    { destruct (tasks σ !! tid) as [t|]; simpl; [|lia].
      destruct (pc t) as [| |[]| |]; simpl; lia. }
    lia.
  - intros t Ht Hpc more σ' Hmore Hf.
    pose proof (owed_run tid more σ σ' Hmore) as H. rewrite Hf, Ht in H.
    assert (owed (pc <$> Some t) = 0) as Hz.
    { simpl. destruct Hpc as [->|[->|[->| ->]]]; done. }
    rewrite Hz in H. lia.
Qed.

(** * Response bodies *)

Section Bodies.
Context {L : Type} `{!LoadBalancer L}.
Implicit Types (s : State L) (b : BackendHealthCheck) (u : url.URL).

Lemma closes_app t1 t2 : closes (t1 ++ t2) = closes t1 ++ closes t2.
Proof. apply omap_app. Qed.

Lemma closes_probeEvents b net u :
  closes (probeEvents b net u)
  = if answered b net 0 u then [u +:+ URL (bOptions b)] else [].
Proof.
  unfold probeEvents, answered. rewrite Nat.add_0_r.
  by destruct (respond _ _ _ _).
Qed.

Lemma answered_advance b net n k u :
  answered b (advance n net) k u = answered b net (n + k) u.
Proof. unfold answered, advance; simpl. by rewrite Nat.add_assoc. Qed.

Lemma answers_cons b net u us :
  answers b net (u :: us) = (u, answered b net 0 u) :: answers b (advance 1 net) us.
Proof.
  unfold answers. rewrite imap_cons. f_equal.
  apply imap_ext. intros k v _. simpl. by rewrite answered_advance.
Qed.

Lemma answers_app b net us vs :
  answers b net (us ++ vs) = answers b net us ++ answers b (advance (length us) net) vs.
Proof.
  unfold answers. rewrite imap_app. f_equal.
  apply imap_ext. intros k v _. simpl. by rewrite answered_advance.
Qed.

Lemma answers_withDisabledURLs d b net us :
  answers (withDisabledURLs d b) net us = answers b net us.
Proof. done. Qed.

Lemma passed_app vs ws : passed (vs ++ ws) = passed vs ++ passed ws.
Proof. unfold passed. by rewrite filter_app, fmap_app. Qed.

Lemma closes_rangeDisabled us acc s :
  exists ev,
    trace (rangeDisabled us acc s).2 = trace s ++ ev
    /\ closes ev
       = (fun u => u +:+ URL (bOptions (backend s)))
           <$> passed (answers (backend s) (network s) us).
Proof.
  revert acc s. induction us as [|u us IH]; intros acc s.
  - exists []. by rewrite app_nil_r.
  - rewrite rangeDisabled_cons, answers_cons, passed_cons.
    destruct (verdict (backend s) (network s) 0 u).
    + match goal with |- context [rangeDisabled us acc ?s1] =>
        destruct (IH acc s1) as (ev & Ht & Hc) end.
      cbn [backend network balancer trace] in Ht, Hc.
      eexists. split; [by rewrite Ht, <- !app_assoc|].
      rewrite !closes_app, closes_probeEvents, Hc.
      by destruct (answered _ _ _ _).
    + match goal with |- context [rangeDisabled us ?a ?s1] =>
        destruct (IH a s1) as (ev & Ht & Hc) end.
      cbn [backend network balancer trace] in Ht, Hc.
      eexists. split; [by rewrite Ht, <- !app_assoc|].
      rewrite !closes_app, closes_probeEvents, Hc.
      by destruct (answered _ _ _ _).
Qed.

Lemma closes_rangeEnabled us s :
  exists ev,
    trace (rangeEnabled us s).2 = trace s ++ ev
    /\ closes ev
       = (fun u => u +:+ URL (bOptions (backend s)))
           <$> passed (answers (backend s) (network s) us).
Proof.
  revert s. induction us as [|u us IH]; intros s.
  - exists []. by rewrite app_nil_r.
  - rewrite rangeEnabled_cons, answers_cons, passed_cons.
    destruct (verdict (backend s) (network s) 0 u).
    + match goal with |- context [rangeEnabled us ?s1] =>
        destruct (IH s1) as (ev & Ht & Hc) end.
      cbn [backend network balancer trace] in Ht, Hc.
      eexists. split; [by rewrite Ht, <- !app_assoc|].
      rewrite !closes_app, closes_probeEvents, Hc.
      by destruct (answered _ _ _ _).
    + match goal with |- context [rangeEnabled us ?s1] =>
        destruct (IH s1) as (ev & Ht & Hc) end.
      cbn [backend network balancer trace withDisabledURLs bOptions requestTimeout] in Ht, Hc.
      eexists. split; [by rewrite Ht, <- !app_assoc|].
      rewrite !closes_app, closes_probeEvents, Hc.
      by destruct (answered _ _ _ _).
Qed.

Lemma closes_passEvents s :
  closes (passEvents s)
  = (fun u => u +:+ URL (bOptions (backend s)))
      <$> passed (answers (backend s) (network s)
                    (disabledURLs (backend s) ++ Servers (balancer s))).
Proof.
  destruct (afterSweep_spec s) as (Hb & Hn & _ & ev1 & Ht1 & He1 & _).
  destruct (afterPass_spec s) as (_ & _ & _ & _ & _ & Hp & Ht & _).
  rewrite Hp, !closes_app, answers_app, passed_app, fmap_app. simpl. f_equal.
  - rewrite He1.
    destruct (closes_rangeDisabled (disabledURLs (backend s)) [] (afterSnapshot s))
      as (ev & Hev & Hc).
    rewrite afterSnapshot_eq in Hev, Hc. cbn [backend network trace] in Hev, Hc.
    rewrite <- Hc. f_equal.
    assert (Hsw : trace (afterSweep s)
                  = trace (rangeDisabled (disabledURLs (backend s)) []
                             {| backend := backend s; balancer := balancer s;
                                network := network s;
                                trace := trace s ++ [EvServers] |}).2).
    { unfold afterSweep. rewrite afterSnapshot_eq.
      unfold sweepDisabled. unfold bind at 1; simpl. unfold bind at 1.
      by destruct (rangeDisabled _ _ _) as [r s1]. }
    rewrite Ht1, Hev, <- app_assoc in Hsw.
    apply app_inv_head in Hsw. by injection Hsw.
  - destruct (closes_rangeEnabled (Servers (balancer s)) (afterSweep s)) as (ev & Hev & Hc).
    rewrite Hb, Hn, answers_withDisabledURLs in Hc.
    cbn [withDisabledURLs bOptions] in Hc.
    rewrite <- Hc. f_equal. unfold enabledEvents. by apply emitted_app.
Qed.

End Bodies.

(** X15: no response body is left open.  A probe closes the body of the
    response right after the GET, whatever the status, and closes nothing
    when the GET failed; so the bodies closed in a pass are those of the
    requests that were answered, in the order of the requests, one each. *)
Theorem checkBackend_closes_every_body {L} `{!LoadBalancer L} (s : State L) :
  (forall u b,
     emitted (checkHealth u b) s
     = EvGet (requestTimeout b) (u +:+ URL (bOptions b))
         :: (if answered b (network s) 0 u
             then [EvBodyClose (u +:+ URL (bOptions b))] else [])
     /\ ((checkHealth u b s).1 = true -> answered b (network s) 0 u = true))
  /\ closes (passEvents s)
     = (fun u => u +:+ URL (bOptions (backend s)))
         <$> passed (answers (backend s) (network s)
                       (disabledURLs (backend s) ++ Servers (balancer s)))
  /\ length (closes (passEvents s)) <= length (requests (passEvents s))
  /\ ((forall k u, answered (backend s) (network s) k u = true) ->
      closes (passEvents s) = snd <$> requests (passEvents s)).
Proof.
  split; [|split; [|split]].
  - intros u b. split.
    + erewrite emitted_app; [|by rewrite checkHealth_run].
      unfold probeEvents, answered. rewrite Nat.add_0_r.
      by destruct (respond _ _ _ _).
    + rewrite checkHealth_run. simpl. unfold verdict, answered.
      by destruct (respond _ _ _ _).
  - apply closes_passEvents.
  - rewrite closes_passEvents, requests_passEvents, !length_fmap.
    unfold passed. rewrite length_fmap.
    etrans; [apply length_filter|]. unfold answers. by rewrite length_imap.
  - intros Hall. rewrite closes_passEvents, requests_passEvents.
    assert (Ha : answers (backend s) (network s)
                   (disabledURLs (backend s) ++ Servers (balancer s))
                 = (fun u => (u, true)) <$> (disabledURLs (backend s) ++ Servers (balancer s))).
    { unfold answers. rewrite (imap_ext _ (fun _ u => (u, true))).
      - apply (imap_const (fun u => (u, true))).
      - intros k u _. simpl. by rewrite Hall. }
    rewrite Ha, passed_const, <- list_fmap_compose. done.
Qed.

(** * What a pass knows *)

(** X16: a pass disables and probes only URLs the backend knew at its start,
    whatever the balancer does.  With a balancer whose calls take effect it
    also forgets none, pass after pass, even when the two lists overlapped or
    held duplicates.  But the backend keeps no record of a URL it upserts: a
    disabled URL that comes up is known afterwards only if the balancer has
    it. *)
Theorem checkBackend_conserves_known {L} `{!LoadBalancer L} (s : State L) :
  (forall u, u ∈ disabledURLs (backend (afterPass s)) -> known u s)
  /\ (forall t addr,
        (t, addr) ∈ requests (passEvents s) ->
        exists u, known u s /\ addr = u +:+ URL (bOptions (backend s)))
  /\ (forall u,
        u ∈ passed (sweepVerdicts s) ->
        (u ∉ failed (sweepVerdicts s)) ->
        (u ∉ Servers (balancer s)) ->
        (u ∉ disabledURLs (backend (afterPass s)))
        /\ (known u (afterPass s) <-> u ∈ Servers (balancer (afterPass s))))
  /\ (Lawful L -> forall n u, known u (passes n s) <-> known u s).
Proof.
  assert (H1 : forall (s0 : State L) u,
            u ∈ (sweepVerdicts s0).*1 <-> u ∈ disabledURLs (backend s0)).
  { intros s0 u. unfold sweepVerdicts. by rewrite verdicts_fst. }
  assert (H2 : forall (s0 : State L) u,
            u ∈ (enabledVerdicts s0).*1 <-> u ∈ Servers (balancer s0)).
  { intros s0 u. unfold enabledVerdicts. by rewrite verdicts_fst. }
  split; [|split; [|split]].
  - intros u [Hu|Hu]%elem_of_disabled_afterPass; apply elem_of_failed_fst in Hu.
    + left. by apply H1.
    + right. by apply H2.
  - intros t addr. rewrite requests_passEvents.
    intros (u & [= -> ->] & Hu)%list_elem_of_fmap.
    exists u. split; [|done]. by apply elem_of_app in Hu.
  - intros u Hp Hnf Hne.
    assert (Hnd : u ∉ disabledURLs (backend (afterPass s))).
    { intros [Hu|Hu]%elem_of_disabled_afterPass; [done|].
      apply Hne. by apply H2, elem_of_failed_fst. }
    split; [done|]. unfold known. tauto.
  - intros Hlaw.
    assert (Hone : forall (s0 : State L) u, known u (afterPass s0) <-> known u s0).
    { intros s0 u. unfold known.
      rewrite elem_of_disabled_afterPass, elem_of_Servers_afterPass, <- H1, <- H2.
      split.
      - intros [[Hu|Hu]|[_ [Hu|Hu]]].
        + left. by apply elem_of_failed_fst.
        + right. by apply elem_of_failed_fst.
        + left. by apply elem_of_passed_fst.
        + by right.
      - destruct (decide (u ∈ failed (enabledVerdicts s0))) as [Hf|Hf]; [by left; right|].
        intros [Hu|Hu].
        + destruct (passed_or_failed u _ Hu) as [Hp|Hp]; [|by left; left].
          right. split; [done|by left].
        + right. split; [done|by right]. }
    intros n. induction n as [|n IH]; intros u; [done|].
    by rewrite passes_S, Hone.
Qed.

(** * The goroutines of a run *)

Section Goroutines.
Context {L : Type} `{!LoadBalancer L}.
Implicit Types (σ : System L) (t : Task).

Lemma identity_act a σ σ' :
  act a σ = Some σ' ->
  (forall tid t, tasks σ !! tid = Some t ->
     exists p', tasks σ' !! tid = Some (withPc p' t))
  /\ length (tasks σ') = length (tasks σ) + spawnedBy [a].
Proof.
  assert (Hsame : forall t, t = withPc (pc t) t) by (by intros []).
  destruct a as [i choice|i|c|parentCtx backends]; simpl.
  - intros Hstep.
    destruct (tasks σ !! i) as [ti|] eqn:Hti;
      [|by unfold stepTask in Hstep; rewrite Hti in Hstep].
    destruct (stepTask_effects i choice σ σ' ti Hti Hstep) as (p' & Hts & _).
    rewrite Hts, length_insert. split; [|lia].
    intros tid t Ht. destruct (decide (i = tid)) as [->|Hne].
    + exists p'. rewrite list_lookup_insert_eq by by eapply lookup_lt_Some. congruence.
    + exists (pc t). rewrite list_lookup_insert_ne by done. by rewrite Ht, <- Hsame.
  - intros [= <-].
    destruct (fireTicker_effects i σ) as [->|(ti & tick & Hti & Hpc & ->)].
    + split; [|lia]. intros tid t Ht. exists (pc t). by rewrite Ht, <- Hsame.
    + rewrite setPc_length. split; [|lia].
      intros tid t Ht. destruct (decide (i = tid)) as [->|Hne].
      * exists (Looping true). by apply setPc_lookup.
      * exists (pc t). rewrite setPc_lookup_ne by done. by rewrite Ht, <- Hsame.
  - intros [= <-]. simpl. split; [|lia].
    intros tid t Ht. exists (pc t). by rewrite Ht, <- Hsame.
  - intros [= <-]. rewrite SetBackendsConfiguration_eq. cbn [tasks].
    rewrite length_app, length_fmap, length_map_to_list. split; [|lia].
    intros tid t Ht. exists (pc t).
    rewrite (lookup_app_l_Some _ _ _ _ Ht). by rewrite <- Hsame.
Qed.

Lemma spawnedBy_cons a acts : spawnedBy (a :: acts) = spawnedBy [a] + spawnedBy acts.
Proof. destruct a; simpl; lia. Qed.

End Goroutines.

(** X17: goroutines come from [SetBackendsConfiguration] alone, one per entry
    of each set it is given, and a goroutine keeps the backend, the name and
    the context it was started with, whatever happens; only where it stands
    changes.  (The loop of [execute] copies its variables before it starts
    the goroutine.) *)
Theorem goroutines_keep_their_backend {L} `{!LoadBalancer L}
    (acts : list Action) (σ σ' : System L) :
  run acts σ = Some σ' ->
  (forall tid t,
     tasks σ !! tid = Some t ->
     exists t', tasks σ' !! tid = Some t'
       /\ currentBackendID t' = currentBackendID t
       /\ currentBackend t' = currentBackend t
       /\ ctx t' = ctx t)
  /\ length (tasks σ') = length (tasks σ) + spawnedBy acts
  /\ (Forall notConfigure acts -> length (tasks σ') = length (tasks σ)).
Proof.
  intros Hrun.
  assert (H : (forall tid t, tasks σ !! tid = Some t ->
                 exists p', tasks σ' !! tid = Some (withPc p' t))
              /\ length (tasks σ') = length (tasks σ) + spawnedBy acts).
  { revert σ Hrun. induction acts as [|a acts IH]; intros σ; simpl run.
    - intros [= <-]. split; [|simpl; lia].
      intros tid t Ht. exists (pc t). rewrite Ht. by destruct t.
    - destruct (act a σ) as [σ1|] eqn:Hact; [|done]. intros Hrun.
      destruct (identity_act a σ σ1 Hact) as [H1 Hl1].
      destruct (IH σ1 Hrun) as [H2 Hl2].
      rewrite (spawnedBy_cons a acts). split; [|lia].
      intros tid t Ht. destruct (H1 tid t Ht) as [p1 Ht1].
      destruct (H2 tid _ Ht1) as [p2 Ht2]. by exists p2. }
  destruct H as [Hid Hlen]. split; [|split; [done|]].
  - intros tid t Ht. destruct (Hid tid t Ht) as [p' Ht']. by exists (withPc p' t).
  - intros Hnc. rewrite Hlen.
    assert (spawnedBy acts = 0) as ->; [|lia].
    clear -Hnc. induction Hnc as [|a acts Ha _ IH]; [done|].
    rewrite spawnedBy_cons, IH. by destruct a.
Qed.

(** * The further theorems at work *)

(** [server2] is back: one pass puts it into the live list, and not among the
    disabled URLs. *)
Lemma checkBackend_settles_witness :
  steady (oneDisabled netUp)
  /\ server2 ∈ Servers (balancer (afterPass (oneDisabled netUp)))
  /\ exactlyOne server2 (afterPass (oneDisabled netUp)).
Proof.
  assert (Hst : steady (oneDisabled netUp)) by (intros k u _; reflexivity).
  destruct (checkBackend_settles (oneDisabled netUp) Hst server2) as (_ & Hl & Hone).
  split; [exact Hst|]. split.
  - apply Hl. split; [left; compute_done | reflexivity].
  - apply Hone. left. compute_done.
Defined.

(** One server disabled, one live: two probes, of two different URLs. *)
Lemma checkBackend_sorts_by_verdict_witness :
  separated (oneDisabled netOneDown)
  /\ NoDup (disabledURLs (backend (oneDisabled netOneDown))
            ++ Servers (balancer (oneDisabled netOneDown))).
Proof.
  assert (Hsep : separated (oneDisabled netOneDown)).
  { split; [compute_done|]. split; [compute_done|].
    intros u Hu. simpl in *. apply list_elem_of_singleton in Hu as ->.
    compute_done. }
  destruct (checkBackend_sorts_by_verdict (oneDisabled netOneDown) Hsep) as (Hnd & _).
  split; [exact Hsep | exact Hnd].
Defined.

(** The network is down: a fresh backend disables both servers. *)
Lemma checkBackend_total_outage_witness :
  allProbes false (fresh apiOptions twoServers netDown)
  /\ disabledURLs (backend (afterPass (fresh apiOptions twoServers netDown)))
     = [server1; server2]
  /\ Servers (balancer (afterPass (fresh apiOptions twoServers netDown))) = [].
Proof.
  assert (Hall : allProbes false (fresh apiOptions twoServers netDown))
    by (intros k u _; reflexivity).
  destruct (checkBackend_total_outage (fresh apiOptions twoServers netDown) Hall)
    as (Hd & _ & Hl).
  split; [exact Hall|]. split; [exact Hd | exact (Hl ListBalancer_Lawful)].
Defined.

(** Both servers up and nothing disabled: the pass only reads the list. *)
Lemma checkBackend_healthy_pool_witness :
  disabledURLs (backend (fresh apiOptions twoServers netUp)) = []
  /\ allProbes true (fresh apiOptions twoServers netUp)
  /\ calls (passEvents (fresh apiOptions twoServers netUp)) = [CServers]
  /\ balancer (afterPass (fresh apiOptions twoServers netUp)) = twoServers.
Proof.
  assert (Hall : allProbes true (fresh apiOptions twoServers netUp))
    by (intros k u _; reflexivity).
  destruct (checkBackend_healthy_pool (fresh apiOptions twoServers netUp) eq_refl Hall)
    as (_ & Hl & Hc & _).
  split; [reflexivity|]. split; [exact Hall|]. split; [exact Hc | exact Hl].
Defined.

(** The server a fresh backend holds as disabled after an outage is one it
    has removed. *)
Lemma checkBackend_upserts_what_it_removed_witness :
  CRemoveServer server1
    ∈ calls (trace (passes 1 (fresh apiOptions twoServers netDown))).
Proof.
  apply (proj2 (checkBackend_upserts_what_it_removed apiOptions twoServers netDown 1)).
  compute_done.
Defined.

(** After the initial pass of the one goroutine the wait group is at one. *)
Lemma wg_counts_running_goroutines_witness :
  exists σ,
    run [AConfigure context.Background {["api" := 1%positive]}; ARun 0 OnTick] scenario
    = Some σ
    /\ wg (hc σ) = runningCount (tasks σ)
    /\ (0 <= wg (hc σ))%Z.
Proof.
  destruct (run [AConfigure context.Background {["api" := 1%positive]}; ARun 0 OnTick]
              scenario) as [σ|] eqn:Hrun.
  - exists σ. split; [reflexivity|].
    destruct (wg_counts_running_goroutines _ _ _ _ σ Hrun) as (Heq & [Hge _] & _).
    split; [exact Heq | exact Hge].
  - exfalso. vm_compute in Hrun. discriminate Hrun.
Defined.

(** Reconfiguring with the empty set cancels the goroutine of before. *)
Lemma reconfiguration_cancels_earlier_goroutines_witness :
  exists σ,
    run [AConfigure context.Background {["api" := 1%positive]}; ARun 0 OnTick] scenario
    = Some σ
    /\ forall t, tasks σ !! 0 = Some t ->
         isDone (ctx t) (SetBackendsConfiguration context.Background ∅ σ) = true.
Proof.
  destruct (run [AConfigure context.Background {["api" := 1%positive]}; ARun 0 OnTick]
              scenario) as [σ|] eqn:Hrun.
  - exists σ. split; [reflexivity|].
    destruct (reconfiguration_cancels_earlier_goroutines _ _ _ _ σ Hrun) as (_ & Hd & _).
    intros t Ht. exact (proj2 (Hd context.Background ∅ 0 t Ht)).
  - exfalso. vm_compute in Hrun. discriminate Hrun.
Defined.

(** A stopped goroutine is not moved by a tick, a signal or a
    reconfiguration. *)
Lemma ended_goroutine_stays_ended_witness :
  exists σ',
    run [AFire 0; ARaise 3; AConfigure context.Background ∅] (monitorAt Stopped true)
    = Some σ'
    /\ tasks σ' !! 0
       = Some {| currentBackendID := "api"; currentBackend := 1%positive;
                 ctx := [0]; pc := Stopped |}
    /\ opsOf 0 (history σ') = [].
Proof.
  destruct (run [AFire 0; ARaise 3; AConfigure context.Background ∅]
              (monitorAt Stopped true)) as [σ'|] eqn:Hrun.
  - exists σ'. split; [reflexivity|].
    destruct (ended_goroutine_stays_ended _ (monitorAt Stopped true) σ' 0
                {| currentBackendID := "api"; currentBackend := 1%positive;
                   ctx := [0]; pc := Stopped |} eq_refl (or_introl eq_refl) Hrun)
      as (Ht & Hh & _).
    split; [exact Ht | exact Hh].
  - exfalso. vm_compute in Hrun. discriminate Hrun.
Defined.

(** The backend of the scenario keeps its options through the initial pass. *)
Lemma backend_configuration_is_kept_witness :
  exists σ',
    run [AConfigure context.Background {["api" := 1%positive]}; ARun 0 OnTick] scenario
    = Some σ'
    /\ exists b', heap σ' !! 1%positive = Some b'
         /\ bOptions b' = apiOptions
         /\ requestTimeout b' = (5 * time.Second)%Z.
Proof.
  destruct (run [AConfigure context.Background {["api" := 1%positive]}; ARun 0 OnTick]
              scenario) as [σ'|] eqn:Hrun.
  - exists σ'. split; [reflexivity|].
    destruct (backend_configuration_is_kept _ scenario σ' Hrun) as (Hk & _).
    exact (Hk 1%positive (NewBackendHealthCheck apiOptions) eq_refl).
  - exfalso. vm_compute in Hrun. discriminate Hrun.
Defined.

(** The initial pass of the goroutine raises no signal and starts nothing. *)
Lemma step_touches_own_backend_only_witness :
  exists σ',
    stepTask 0 OnTick (monitorAt Spawned false) = Some σ'
    /\ cancelled σ' = cancelled (monitorAt Spawned false)
    /\ length (tasks σ') = 1.
Proof.
  destruct (stepTask 0 OnTick (monitorAt Spawned false)) as [σ'|] eqn:Hstep.
  - exists σ'. split; [reflexivity|].
    destruct (step_touches_own_backend_only 0 OnTick (monitorAt Spawned false) σ'
                {| currentBackendID := "api"; currentBackend := 1%positive;
                   ctx := [0]; pc := Spawned |} eq_refl Hstep)
      as (_ & _ & _ & _ & _ & _ & _ & _ & Hc & _ & Hlen).
    split; [exact Hc | exact Hlen].
  - exfalso. vm_compute in Hstep. discriminate Hstep.
Defined.

(** The goroutine of the scenario, cancelled before it ran: it checks once,
    makes its ticker and stops. *)
Lemma cancelled_goroutine_still_checks_once_witness :
  exists σ',
    run [ARun 0 OnTick; ARun 0 OnTick; ARun 0 OnDone] (monitorAt Spawned true) = Some σ'
    /\ tasks σ'
       = [{| currentBackendID := "api"; currentBackend := 1%positive;
             ctx := [0]; pc := Stopped |}]
    /\ wg (hc σ') = 0%Z.
Proof.
  destruct (cancelled_goroutine_still_checks_once 0 (monitorAt Spawned true)
              {| currentBackendID := "api"; currentBackend := 1%positive;
                 ctx := [0]; pc := Spawned |}
              (NewBackendHealthCheck apiOptions) twoServers OnTick OnTick OnDone
              eq_refl eq_refl eq_refl eq_refl eq_refl eq_refl) as [H _].
  destruct (H eq_refl) as (σ' & Hrun & Hts & _ & _ & _ & Hwg).
  exists σ'. split; [exact Hrun|]. split; [exact Hts | exact Hwg].
Defined.

(** Two calls when the program starts: the same pointer twice. *)
Lemma GetHealthCheck_singleton_witness :
  (getAll [id; id] packageInit).1 = [(GetHealthCheck packageInit).1;
                                     (GetHealthCheck packageInit).1]
  /\ exists p, (GetHealthCheck packageInit).1 = Some p
       /\ registries (GetHealthCheck packageInit).2 = {[p := newHealthCheck]}.
Proof.
  destruct (GetHealthCheck_singleton [id; id] packageInit) as (Hall & _ & Hfirst & _).
  split; [exact Hall|].
  destruct (Hfirst eq_refl) as (p & Hp & _ & Hr & _).
  exists p. split; [exact Hp | exact Hr].
Defined.

(** [server2] stays down: the second and the third pass change nothing. *)
Lemma checkBackend_converges_witness :
  constant (oneDisabled netOneDown)
  /\ calls (passEvents (passes 2 (oneDisabled netOneDown))) = [CServers]
  /\ backend (passes 2 (oneDisabled netOneDown))
     = backend (afterPass (oneDisabled netOneDown)).
Proof.
  assert (Hc : constant (oneDisabled netOneDown)) by (intros k u; reflexivity).
  destruct (checkBackend_converges (oneDisabled netOneDown) 1 Hc) as (Hb & _ & Hcalls & _).
  split; [exact Hc|]. split; [exact Hcalls | exact Hb].
Defined.

(** Three ticks in a row, one pass for them. *)
Lemma passes_bounded_by_ticks_witness :
  exists σ,
    run [AConfigure context.Background {["api" := 1%positive]};
         ARun 0 OnTick; ARun 0 OnTick; AFire 0; AFire 0; AFire 0; ARun 0 OnTick]
      scenario = Some σ
    /\ passesBegun (opsOf 0 (history σ)) <= 4
    /\ forall σ', run [ARaise 0; ARun 0 OnDone] σ = Some σ' ->
         passesBegun (opsOf 0 (history σ')) <= passesBegun (opsOf 0 (history σ)) + 1.
Proof.
  destruct (run [AConfigure context.Background {["api" := 1%positive]};
                 ARun 0 OnTick; ARun 0 OnTick; AFire 0; AFire 0; AFire 0; ARun 0 OnTick]
              scenario) as [σ|] eqn:Hrun.
  - exists σ. split; [reflexivity|].
    destruct (passes_bounded_by_ticks _ _ _ _ σ 0 Hrun) as (Hle & Hmore & _).
    split; [exact Hle|].
    intros σ' Hrun'. exact (Hmore _ σ' Hrun' eq_refl).
  - exfalso. vm_compute in Hrun. discriminate Hrun.
Defined.

(** Both servers answer: two bodies are closed, those of the two requests. *)
Lemma checkBackend_closes_every_body_witness :
  closes (passEvents (fresh apiOptions twoServers netUp))
  = snd <$> requests (passEvents (fresh apiOptions twoServers netUp)).
Proof.
  destruct (checkBackend_closes_every_body (fresh apiOptions twoServers netUp))
    as (_ & _ & _ & H).
  apply H. intros k u. reflexivity.
Defined.

(** [server2], disabled and up again, is still known two passes later. *)
Lemma checkBackend_conserves_known_witness :
  known server2 (passes 2 (oneDisabled netUp)).
Proof.
  destruct (checkBackend_conserves_known (oneDisabled netUp)) as (_ & _ & _ & H).
  apply (H ListBalancer_Lawful 2 server2). left. compute_done.
Defined.

(** One goroutine for the one backend, and it keeps it. *)
Lemma goroutines_keep_their_backend_witness :
  exists σ',
    run [AConfigure context.Background {["api" := 1%positive]}; ARun 0 OnTick; AFire 0]
      scenario = Some σ'
    /\ length (tasks σ') = 1.
Proof.
  destruct (run [AConfigure context.Background {["api" := 1%positive]};
                 ARun 0 OnTick; AFire 0] scenario) as [σ'|] eqn:Hrun.
  - exists σ'. split; [reflexivity|].
    destruct (goroutines_keep_their_backend _ scenario σ' Hrun) as (_ & Hlen & _).
    exact Hlen.
  - exfalso. vm_compute in Hrun. discriminate Hrun.
Defined.
